(** * llm-crawler: a shallow embedding of the crawl frontier, the extraction
      engine and the parser synthesizer, with the properties of its
      specification.

    The file has three parts.

    I. The program, one module per source file:
    - [PyExn], [Py]  the Python built-ins the code relies on (exceptions,
                     str methods);
    - [URL], [URLQueueItem], [SampleURL], [ParserParameters], [ParserConfig],
      [URLPrefix], [ParserGeneratorConfig], [URLPrefixWithUrls]
                     the pydantic models of backend/data_models.py;
    - [Db]           backend/db.py and backend/redis_queue.py over a typed
                     view of the Redis instance;
    - [Engine]       backend/clean_html.py and the [Parser] class of
                     backend/parser.py, over any selector engine and tree
                     builder; [Html] gives the two for plain documents;
    - [Urllib]       the functions of urllib.parse behind [normalize_url];
    - [Frontier]     backend/workers/parsing_worker.py;
    - [Synth]        the [ParserGenerator] class of backend/parser.py;
    - [GenWorker]    backend/workers/parser_generation_worker.py;
    - [Api]          the state and prefix deletion routes of backend/api.py.

    II. The vocabulary of the properties ([WebUrl], [FrontierSpec],
    [SynthSpec], then [QueueSpec], [StoreSpec], [PrefixSpec], [TextSpec],
    [CleanSpec], [TrimSpec], [ListingSpec]) and the concrete runs they are
    tried on.

    III. The properties: those of the specification in the modules
    [MergeLaws], [RunState], [EngineProps], [NormalizeProps],
    [FrontierProps], [SynthProps] and [GenWorkerProps]; then those read off
    the code, in [QueueProps], [StoreProps], [PrefixProps], [FrontierExtra],
    [NormalizeExtra], [CleanProps], [TrimProps], [TextProps], [SynthExtra],
    [GenWorkerExtra], [ApiProps] and [ListingProps].

    Strings are Rocq [string]s, that is byte strings; the Python code works on
    unicode [str].  The two agree on ASCII text, and a byte string read as
    UTF-8 orders and percent-encodes like the [str] it stands for. *)

From Stdlib Require Import ZArith Ascii String OrderedTypeEx.
From stdpp Require Import gmap strings list.

Local Open Scope string_scope.
Local Open Scope list_scope.
Set Warnings "-register-all".

(* ===================================================================== *)
(** * Python built-ins *)
(* ===================================================================== *)

Module PyExn.

(** Exceptions: the class and [str(e)]. *)
Inductive exn_class :=
| Exception | ValueError | TypeError | AttributeError
| HTTPError | APIError | SelectorSyntaxError.

Record exn := Exn { exn_cls : exn_class; exn_str : string }.

Inductive result (A : Type) :=
| Ok (a : A)
| Raise (e : exn).
Arguments Ok {A} a.
Arguments Raise {A} e.

Definition bind {A B} (r : result A) (k : A -> result B) : result B :=
  match r with
  | Ok a => k a
  | Raise e => Raise e
  end.

Definition is_ok {A} (r : result A) : bool :=
  match r with Ok _ => true | Raise _ => false end.

#[global] Instance exn_class_eq_dec : EqDecision exn_class.
Proof. solve_decision. Defined.
#[global] Instance exn_eq_dec : EqDecision exn.
Proof. solve_decision. Defined.

End PyExn.

Export PyExn.

Module Py.

(** ** str methods *)

Definition ascii_eqb (a b : ascii) : bool := Ascii.eqb a b.

(** [c in chars] for a single character. *)
Fixpoint mem_char (c : ascii) (chars : string) : bool :=
  match chars with
  | EmptyString => false
  | String d rest => ascii_eqb c d || mem_char c rest
  end.

(** [s.startswith(p)]. *)
Fixpoint startswith (s p : string) {struct p} : bool :=
  match p, s with
  | EmptyString, _ => true
  | String _ _, EmptyString => false
  | String a p', String b s' => ascii_eqb a b && startswith s' p'
  end.

(** [sub in s]. *)
Fixpoint contains (s sub : string) : bool :=
  startswith s sub ||
  match s with
  | EmptyString => false
  | String _ s' => contains s' sub
  end.

(** [s.endswith(p)]. *)
Fixpoint endswith (s p : string) : bool :=
  String.eqb s p ||
  match s with
  | EmptyString => false
  | String _ s' => endswith s' p
  end.

(** [s[n:]]. *)
Fixpoint skip (n : nat) (s : string) : string :=
  match n, s with
  | O, _ => s
  | S _, EmptyString => EmptyString
  | S n', String _ s' => skip n' s'
  end.

(** [s[:-1]]: everything but the last character. *)
Fixpoint drop_last (s : string) : string :=
  match s with
  | EmptyString => EmptyString
  | String c EmptyString => EmptyString
  | String c s' => String c (drop_last s')
  end.

(** [s.split(c, 1)] as a pair: the text before the first [c] and the text
    after it, [None] when [c] does not occur. *)
Fixpoint partition (c : ascii) (s : string) : option (string * string) :=
  match s with
  | EmptyString => None
  | String d s' =>
      if ascii_eqb c d then Some (EmptyString, s')
      else match partition c s' with
           | Some (a, b) => Some (String d a, b)
           | None => None
           end
  end.

(** [s.split(c)] for a one-character separator: empty pieces are kept and
    the result is never empty. *)
Fixpoint split (c : ascii) (s : string) : list string :=
  match s with
  | EmptyString => [EmptyString]
  | String d s' =>
      if ascii_eqb c d then EmptyString :: split c s'
      else match split c s' with
           | [] => [String d EmptyString]
           | piece :: rest => String d piece :: rest
           end
  end.

(** [sep.join(pieces)]. *)
Fixpoint join (sep : string) (pieces : list string) : string :=
  match pieces with
  | [] => EmptyString
  | [p] => p
  | p :: rest => p +:+ sep +:+ join sep rest
  end.

(** [s.replace(old, new)] for a non-empty [old]: [pending] counts the
    characters of a matched occurrence that are still to be skipped. *)
Fixpoint replace_from (old new : string) (pending : nat) (s : string) : string :=
  match s with
  | EmptyString => EmptyString
  | String c s' =>
      match pending with
      | S k => replace_from old new k s'
      | O =>
          if startswith s old
          then new +:+ replace_from old new (String.length old - 1) s'
          else String c (replace_from old new 0 s')
      end
  end.

Definition replace (old new s : string) : string := replace_from old new 0 s.

Definition lower_char (c : ascii) : ascii :=
  let n := nat_of_ascii c in
  if (65 <=? n)%nat && (n <=? 90)%nat then ascii_of_nat (n + 32) else c.

(** [s.lower()] on ASCII. *)
Fixpoint lower (s : string) : string :=
  match s with
  | EmptyString => EmptyString
  | String c s' => String (lower_char c) (lower s')
  end.

(** [c.isspace()] on ASCII: tab, newline, vertical tab, form feed, carriage
    return, the four separators 0x1c-0x1f and the space. *)
Definition isspace (c : ascii) : bool :=
  let n := nat_of_ascii c in
  ((9 <=? n)%nat && (n <=? 13)%nat) || ((28 <=? n)%nat && (n <=? 32)%nat).

Fixpoint lstrip (s : string) : string :=
  match s with
  | EmptyString => EmptyString
  | String c s' => if isspace c then lstrip s' else s
  end.

Fixpoint rstrip (s : string) : string :=
  match s with
  | EmptyString => EmptyString
  | String c s' =>
      match rstrip s' with
      | EmptyString => if isspace c then EmptyString else String c EmptyString
      | t => String c t
      end
  end.

(** [s.strip()]. *)
Definition strip (s : string) : string := rstrip (lstrip s).

(** Truthiness of a [str]. *)
Definition truthy (s : string) : bool :=
  match s with EmptyString => false | _ => true end.

End Py.


(* ===================================================================== *)
(** * backend/data_models.py *)
(* ===================================================================== *)

(** Every pydantic model is a record in a module of its name.  The frozen
    [id] field is set by the [_derive_id] validator after every construction,
    so it is a function of the other fields. *)

Module ValidationLabel.
Record t := mk { content : string }.
End ValidationLabel.

Module URL.
Record t := mk {
  url : string;
  prefix : option string;
  raw_content : option string;
  parsed_content : option string
}.
Definition id (u : t) : string := url u.

Definition set_raw_content (v : option string) (u : t) : t :=
  mk (url u) (prefix u) v (parsed_content u).
Definition set_parsed_content (v : option string) (u : t) : t :=
  mk (url u) (prefix u) (raw_content u) v.
Definition set_prefix (v : option string) (u : t) : t :=
  mk (url u) v (raw_content u) (parsed_content u).
End URL.

Module URLQueueItem.
Record t := mk {
  url : URL.t;
  process_from_unix_timestamp : Z;
  times_queued : Z
}.
End URLQueueItem.

Module SampleURL.
Record t := mk {
  url : string;
  raw_content : option string;
  label : option ValidationLabel.t
}.
End SampleURL.

Module ParserParameters.
Record t := mk {
  root : list string;
  keep : list string;
  drop : list string;
  unwrap : list string
}.

(** [list(set(xs) | set(ys))]: the union as a set, listed in the order the
    set enumerates its elements (unspecified in Python, the one of
    [elements] here). *)
Definition union_list (xs ys : list string) : list string :=
  elements ((list_to_set xs : gset string) ∪ list_to_set ys).

(** [ParserParameters.__add__]. *)
Definition add (self other : t) : t :=
  mk (union_list (root self) (root other))
     (union_list (keep self) (keep other))
     (union_list (drop self) (drop other))
     (union_list (unwrap self) (unwrap other)).

(** Equality of selector fields as sets. *)
Definition same_set (xs ys : list string) : Prop :=
  (list_to_set xs : gset string) = list_to_set ys.

Definition equiv (p q : t) : Prop :=
  same_set (root p) (root q) /\ same_set (keep p) (keep q) /\
  same_set (drop p) (drop q) /\ same_set (unwrap p) (unwrap q).
End ParserParameters.

Module ParserConfig.
Record t := mk {
  parameters : ParserParameters.t;
  prefix_name : string
}.
Definition id (c : t) : string := prefix_name c.

(** [ParserConfig.__add__]: the prefix (and with it the id) is the left
    operand's. *)
Definition add (self other : t) : t :=
  mk (ParserParameters.add (parameters self) (parameters other))
     (prefix_name self).

Definition equiv (c d : t) : Prop :=
  ParserParameters.equiv (parameters c) (parameters d) /\
  prefix_name c = prefix_name d /\ id c = id d.
End ParserConfig.

Module URLPrefix.
Record t := mk {
  prefix : string;
  sample_urls : list SampleURL.t;
  validation_urls : option (list SampleURL.t);
  parser_config : option ParserConfig.t;
  (** [None] = not processed, "in_progress", "completed", "failed" *)
  processing_status : option string
}.
Definition id (p : t) : string := prefix p.

Definition set_processing_status (v : option string) (p : t) : t :=
  mk (prefix p) (sample_urls p) (validation_urls p) (parser_config p) v.
Definition set_parser_config (v : option ParserConfig.t) (p : t) : t :=
  mk (prefix p) (sample_urls p) (validation_urls p) v (processing_status p).
Definition set_sample_urls (v : list SampleURL.t) (p : t) : t :=
  mk (prefix p) v (validation_urls p) (parser_config p) (processing_status p).
End URLPrefix.

Module ParserGeneratorConfig.
Record t := mk {
  config_name : string;
  openai_model : string;
  reasoning_level : string;
  instructions_prompt : string;
  input_prompt_template : string;
  error_prompt : option string;
  reflection_prompt : option string
}.
Definition id (c : t) : string := config_name c.
End ParserGeneratorConfig.

(* ===================================================================== *)
(** * backend/db.py and backend/redis_queue.py *)
(* ===================================================================== *)

Module Db.

(** The Redis instance, seen through the key spaces the code uses:
    ["model:URL:<id>"] and ["model:URLPrefix:<id>"] hold the models (the
    JSON round trip through [model_dump] is the identity), [strings] the
    plain keys ([production_config], [system_state]), and the two lists
    ["queue:urlqueueitem"] and ["queue:urlprefix"] the work queues, head
    of the list first. *)
Record Redis := mkRedis {
  urls : gmap string URL.t;
  prefixes : gmap string URLPrefix.t;
  strings : gmap string string;
  queue_urlqueueitem : list URLQueueItem.t;
  queue_urlprefix : list URLPrefix.t
}.

Definition empty : Redis := mkRedis ∅ ∅ ∅ [] [].

(** [save(model)] at each model class. *)
Definition save_url (u : URL.t) (R : Redis) : Redis :=
  mkRedis (<[URL.id u := u]> (urls R)) (prefixes R) (strings R)
          (queue_urlqueueitem R) (queue_urlprefix R).

Definition save_prefix (p : URLPrefix.t) (R : Redis) : Redis :=
  mkRedis (urls R) (<[URLPrefix.id p := p]> (prefixes R)) (strings R)
          (queue_urlqueueitem R) (queue_urlprefix R).

(** [load(cls, id_)]. *)
Definition load_url (id_ : string) (R : Redis) : option URL.t := urls R !! id_.
Definition load_prefix (id_ : string) (R : Redis) : option URLPrefix.t :=
  prefixes R !! id_.

(** [scan(URL)]. *)
Definition scan_urls (R : Redis) : list URL.t := snd <$> map_to_list (urls R).

(** [add_to_queue(model)]: LPUSH. *)
Definition add_to_queue_item (it : URLQueueItem.t) (R : Redis) : Redis :=
  mkRedis (urls R) (prefixes R) (strings R)
          (it :: queue_urlqueueitem R) (queue_urlprefix R).

Definition add_to_queue_prefix (p : URLPrefix.t) (R : Redis) : Redis :=
  mkRedis (urls R) (prefixes R) (strings R)
          (queue_urlqueueitem R) (p :: queue_urlprefix R).

(** [get_from_queue(cls)]: RPOP. *)
Definition get_from_queue_item (R : Redis) : option URLQueueItem.t * Redis :=
  match last (queue_urlqueueitem R) with
  | None => (None, R)
  | Some it =>
      (Some it,
       mkRedis (urls R) (prefixes R) (strings R)
               (removelast (queue_urlqueueitem R)) (queue_urlprefix R))
  end.

Definition get_from_queue_prefix (R : Redis) : option URLPrefix.t * Redis :=
  match last (queue_urlprefix R) with
  | None => (None, R)
  | Some p =>
      (Some p,
       mkRedis (urls R) (prefixes R) (strings R)
               (queue_urlqueueitem R) (removelast (queue_urlprefix R)))
  end.

Definition PRODUCTION_CONFIG_KEY : string := "production_config".
Definition SYSTEM_STATE_KEY : string := "system_state".

(** A Redis reply is truthy when it is present and not the empty string. *)
Definition reply_truthy (reply : option string) : option string :=
  match reply with
  | Some s => if Py.truthy s then Some s else None
  | None => None
  end.

Definition get_production_config (R : Redis) : option string :=
  reply_truthy (strings R !! PRODUCTION_CONFIG_KEY).

Definition set_string (k v : string) (R : Redis) : Redis :=
  mkRedis (urls R) (prefixes R) (<[k := v]> (strings R))
          (queue_urlqueueitem R) (queue_urlprefix R).

Definition get_system_state (R : Redis) : string :=
  match reply_truthy (strings R !! SYSTEM_STATE_KEY) with
  | Some state => state
  | None => "RUNNING"
  end.

Definition set_system_state (state : string) (R : Redis) : result Redis :=
  if bool_decide (state ∈ ["PAUSE"; "RUNNING"])
  then Ok (set_string SYSTEM_STATE_KEY state R)
  else Raise (Exn ValueError "State must be either 'PAUSE' or 'RUNNING'").

Definition is_system_running (R : Redis) : bool :=
  bool_decide (get_system_state R = "RUNNING").

(** [find_prefix_for_url]: the candidates ['/'.join(url_parts[:i])] for
    [i] from [len(url_parts)] down to 1. *)
Fixpoint find_prefix_from (url_parts : list string) (i : nat) (R : Redis)
  : option URLPrefix.t :=
  match i with
  | O => None
  | S i' =>
      match load_prefix (Py.join "/" (firstn i url_parts)) R with
      | Some prefix_obj => Some prefix_obj
      | None => find_prefix_from url_parts i' R
      end
  end.

Definition find_prefix_for_url (url : string) (R : Redis) : option URLPrefix.t :=
  let url_parts := Py.split "/" url in
  find_prefix_from url_parts (length url_parts) R.

(** [find_urls_with_prefix]. *)
Definition find_urls_with_prefix (prefix : string) (R : Redis) : list URL.t :=
  filter (fun url_obj => URL.prefix url_obj = Some prefix) (scan_urls R).

(** [scan(URLPrefix)]. *)
Definition scan_prefixes (R : Redis) : list URLPrefix.t :=
  snd <$> map_to_list (prefixes R).

(** [R.keys(key(cls, "*"))] at each model class, as ids. *)
Definition keys_urls (R : Redis) : list string := fst <$> map_to_list (urls R).
Definition keys_prefixes (R : Redis) : list string := fst <$> map_to_list (prefixes R).

(** [count(cls)]. *)
Definition count_urls (R : Redis) : nat := length (keys_urls R).
Definition count_prefixes (R : Redis) : nat := length (keys_prefixes R).

Definition with_urls (m : gmap string URL.t) (R : Redis) : Redis :=
  mkRedis m (prefixes R) (strings R) (queue_urlqueueitem R) (queue_urlprefix R).

Definition with_prefixes (m : gmap string URLPrefix.t) (R : Redis) : Redis :=
  mkRedis (urls R) m (strings R) (queue_urlqueueitem R) (queue_urlprefix R).

(** [delete_all(cls)]: every key is deleted when there are keys, and their
    number. *)
Definition delete_all_urls (R : Redis) : nat * Redis :=
  let keys := keys_urls R in
  (length keys,
   match keys with
   | [] => R
   | _ => with_urls (foldl (fun m k => base.delete k m) (urls R) keys) R
   end).

(** [delete(cls, id_)]: [True] if deleted, [False] if not found. *)
Definition delete_url (id_ : string) (R : Redis) : bool * Redis :=
  match urls R !! id_ with
  | Some _ => (true, with_urls (base.delete id_ (urls R)) R)
  | None => (false, R)
  end.

Definition delete_prefix (id_ : string) (R : Redis) : bool * Redis :=
  match prefixes R !! id_ with
  | Some _ => (true, with_prefixes (base.delete id_ (prefixes R)) R)
  | None => (false, R)
  end.

Definition set_production_config (config_name : string) (R : Redis) : Redis :=
  set_string PRODUCTION_CONFIG_KEY config_name R.

(** [peek_from_queue(cls)]: [LINDEX queue -1], the rightmost item. *)
Definition peek_from_queue_item (R : Redis) : option URLQueueItem.t :=
  last (queue_urlqueueitem R).
Definition peek_from_queue_prefix (R : Redis) : option URLPrefix.t :=
  last (queue_urlprefix R).

(** [queue_length(model_class=cls)]: [LLEN]. *)
Definition queue_length_item (R : Redis) : nat := length (queue_urlqueueitem R).
Definition queue_length_prefix (R : Redis) : nat := length (queue_urlprefix R).

(** [clear_queue(model_class=cls)]: the list is deleted. *)
Definition clear_queue_item (R : Redis) : bool * Redis :=
  (true, mkRedis (urls R) (prefixes R) (strings R) [] (queue_urlprefix R)).
Definition clear_queue_prefix (R : Redis) : bool * Redis :=
  (true, mkRedis (urls R) (prefixes R) (strings R) (queue_urlqueueitem R) []).

End Db.

(** ** URLPrefixWithUrls, of backend/data_models.py: it reads the store. *)

Module URLPrefixWithUrls.

Record t := mk {
  url_prefix : URLPrefix.t;
  all_urls : list string;
  url_count : nat
}.

(** [str] compares by code point, that is by byte in UTF-8. *)
Definition str_leb (a b : string) : bool :=
  match String.compare a b with Gt => false | _ => true end.

Fixpoint insert_str (x : string) (l : list string) : list string :=
  match l with
  | [] => [x]
  | y :: l' => if str_leb x y then x :: l else y :: insert_str x l'
  end.

(** [sorted(xs)] *)
Definition sorted (xs : list string) : list string := foldr insert_str [] xs.

Definition from_url_prefix (url_prefix : URLPrefix.t) (R : Db.Redis) : t :=
  (* Add URLs from sample_urls *)
  let all_urls := SampleURL.url <$> URLPrefix.sample_urls url_prefix in
  (* Add URLs from validation_urls if they exist *)
  let all_urls :=
    match URLPrefix.validation_urls url_prefix with
    | Some ((_ :: _) as validation_urls) => all_urls ++ (SampleURL.url <$> validation_urls)
    | _ => all_urls
    end in
  (* Add URLs from the database that have this prefix *)
  let db_urls := Db.find_urls_with_prefix (URLPrefix.prefix url_prefix) R in
  let all_urls := all_urls ++ (URL.url <$> db_urls) in
  (* Remove duplicates and sort *)
  let unique_urls := sorted (elements (list_to_set all_urls : gset string)) in
  mk url_prefix unique_urls (length unique_urls).

End URLPrefixWithUrls.

(* ===================================================================== *)
(** * backend/clean_html.py and backend/parser.py: the extraction engine *)
(* ===================================================================== *)

Module Engine.

(** ** The BeautifulSoup tree.

    A node is a string (with its bs4 class: plain [NavigableString], or
    the containers bs4 gives the text of script, style and template
    elements, or a comment) or a [Tag].  A tag carries [uid], standing for
    the identity [id(el)] of the Python object: the code collects and
    compares identities, and elements selected once are mutated later. *)
Inductive string_class :=
| NavigableString | Script | Stylesheet | TemplateString | Comment.

Inductive node :=
| Str (cls : string_class) (text : string)
| Tag (uid : nat) (name : string) (attrs : list (string * string))
      (contents : list node).

(** The [BeautifulSoup] object: the top-level contents. *)
Definition soup := list node.

#[global] Instance string_class_eq_dec : EqDecision string_class.
Proof. solve_decision. Defined.

Definition tag_uid (n : node) : nat :=
  match n with Tag u _ _ _ => u | Str _ _ => 0 end.
Definition tag_name (n : node) : string :=
  match n with Tag _ nm _ _ => nm | Str _ _ => EmptyString end.
Definition tag_attrs (n : node) : list (string * string) :=
  match n with Tag _ _ a _ => a | Str _ _ => [] end.

(** [el.descendants]: every node below [el], in document order. *)
Fixpoint self_and_descendants (n : node) : list node :=
  match n with
  | Str _ _ => [n]
  | Tag _ _ _ cs => n :: flat_map self_and_descendants cs
  end.

Definition descendants (n : node) : list node :=
  match n with
  | Str _ _ => []
  | Tag _ _ _ cs => flat_map self_and_descendants cs
  end.

Definition is_tag (n : node) : bool :=
  match n with Tag _ _ _ _ => true | Str _ _ => false end.

(** [soup.find_all(True)]: every tag, in document order. *)
Definition find_all (s : soup) : list node :=
  List.filter is_tag (flat_map self_and_descendants s).

(** [soup.find_all(names)]. *)
Definition find_all_named (names : list string) (s : soup) : list node :=
  List.filter (fun el => bool_decide (tag_name el ∈ names)) (find_all s).

(** The element of identity [u]. *)
Definition element (u : nat) (s : soup) : option node :=
  List.find (fun el => Nat.eqb (tag_uid el) u) (find_all s).

(** [el.parents], as identities, innermost first, when [u] lies in the
    subtree of [n] ([Some []] when [n] is the element itself). *)
Fixpoint parents_in (u : nat) (n : node) : option (list nat) :=
  match n with
  | Str _ _ => None
  | Tag v _ _ cs =>
      if Nat.eqb v u then Some []
      else
        match (fix first (l : list node) : option (list nat) :=
                 match l with
                 | [] => None
                 | c :: l' =>
                     match parents_in u c with
                     | Some p => Some p
                     | None => first l'
                     end
                 end) cs with
        | Some p => Some (p ++ [v])
        | None => None
        end
  end.

Fixpoint parents (u : nat) (s : soup) : list nat :=
  match s with
  | [] => []
  | n :: s' =>
      match parents_in u n with
      | Some p => p
      | None => parents u s'
      end
  end.

(** ** Tree mutation, by identity.  Each is the identity on a tree that no
    longer holds the element. *)

(** [el.decompose()]. *)
Fixpoint decompose_in (u : nat) (n : node) : list node :=
  match n with
  | Str _ _ => [n]
  | Tag v nm a cs =>
      if Nat.eqb v u then []
      else [Tag v nm a (flat_map (decompose_in u) cs)]
  end.
Definition decompose (u : nat) (s : soup) : soup := flat_map (decompose_in u) s.

(** [el.unwrap()]: the element is replaced by its children. *)
Fixpoint unwrap_in (u : nat) (n : node) : list node :=
  match n with
  | Str _ _ => [n]
  | Tag v nm a cs =>
      let cs' := flat_map (unwrap_in u) cs in
      if Nat.eqb v u then cs' else [Tag v nm a cs']
  end.
Definition unwrap (u : nat) (s : soup) : soup := flat_map (unwrap_in u) s.

(** [el.replace_with(new)]. *)
Fixpoint replace_with_in (u : nat) (new : node) (n : node) : list node :=
  match n with
  | Str _ _ => [n]
  | Tag v nm a cs =>
      if Nat.eqb v u then [new]
      else [Tag v nm a (flat_map (replace_with_in u new) cs)]
  end.
Definition replace_with (u : nat) (new : node) (s : soup) : soup :=
  flat_map (replace_with_in u new) s.

(** [el.insert_before(new)]. *)
Fixpoint insert_before_in (u : nat) (new : node) (n : node) : list node :=
  match n with
  | Str _ _ => [n]
  | Tag v nm a cs =>
      let n' := Tag v nm a (flat_map (insert_before_in u new) cs) in
      if Nat.eqb v u then [new; n'] else [n']
  end.
Definition insert_before (u : nat) (new : node) (s : soup) : soup :=
  flat_map (insert_before_in u new) s.

(** [el.append(new)]. *)
Fixpoint append_in (u : nat) (new : node) (n : node) : node :=
  match n with
  | Str _ _ => n
  | Tag v nm a cs =>
      let cs' := List.map (append_in u new) cs in
      if Nat.eqb v u then Tag v nm a (cs' ++ [new]) else Tag v nm a cs'
  end.
Definition append (u : nat) (new : node) (s : soup) : soup :=
  List.map (append_in u new) s.

(** ** clean_html.py, on a soup *)

Definition attr (k : string) (el : node) : option string :=
  snd <$> List.find (fun kv => String.eqb (fst kv) k) (tag_attrs el).

(** ["style,svg,canvas,template,head,meta,noscript"] *)
Definition non_content : list string :=
  ["style"; "svg"; "canvas"; "template"; "head"; "meta"; "noscript"].

(** ["[hidden], [aria-hidden='true'], [style*='display:none'],
     [style*='visibility:hidden']"] *)
Definition hidden (el : node) : bool :=
  match attr "hidden" el with Some _ => true | None => false end
  || match attr "aria-hidden" el with
     | Some v => String.eqb v "true"
     | None => false
     end
  || match attr "style" el with
     | Some v => Py.contains v "display:none" || Py.contains v "visibility:hidden"
     | None => false
     end.

Definition newline : string := String (ascii_of_nat 10) EmptyString.

(** [for tag in tags: tag.decompose()] *)
Definition decompose_each (els : list node) (s : soup) : soup :=
  foldl (fun cur el => decompose (tag_uid el) cur) s els.

Definition clean_html (s : soup) : soup :=
  (* remove non-content tags *)
  let s := decompose_each (find_all_named non_content s) s in
  (* remove hidden elements *)
  let s := decompose_each (List.filter hidden (find_all s)) s in
  (* turn <br> into newlines *)
  foldl (fun cur br => replace_with (tag_uid br) (Str NavigableString newline) cur)
        s (find_all_named ["br"] s).

(** ** Parser._soup_to_text *)

Definition blockish : list string :=
  ["p"; "div"; "section"; "article"; "header"; "footer"; "aside"; "main"; "nav";
   "h1"; "h2"; "h3"; "h4"; "h5"; "h6"; "li"; "ul"; "ol"; "table"; "thead"; "tbody";
   "tr"; "td"; "th"; "figure"; "figcaption"; "pre"].

(** [soup.get_text(separator=" ", strip=True)]: the plain strings of the
    tree (the text of script, style and template elements and comments are
    of other classes and left out), each stripped, the empty ones
    skipped. *)
Definition all_strings_stripped (s : soup) : list string :=
  List.filter Py.truthy
    (flat_map (fun n => match n with
                        | Str NavigableString text => [Py.strip text]
                        | _ => []
                        end)
              (flat_map self_and_descendants s)).

Definition get_text (s : soup) : string := Py.join " " (all_strings_stripped s).

Definition is_blank (c : ascii) : bool :=
  Py.ascii_eqb c " " || Py.ascii_eqb c (ascii_of_nat 9).

(** [re.sub(r"[ \t]+", " ", text)]; [in_run] tells that the previous
    character was part of the run being collapsed. *)
Fixpoint collapse_blanks (in_run : bool) (text : string) : string :=
  match text with
  | EmptyString => EmptyString
  | String c rest =>
      if is_blank c
      then if in_run then collapse_blanks true rest
           else String " " (collapse_blanks true rest)
      else String c (collapse_blanks false rest)
  end.

(** [re.sub(r"\n{3,}", "\n\n", text)]; [run] counts the newlines of the
    current run already seen. *)
Fixpoint collapse_newlines (run : nat) (text : string) : string :=
  match text with
  | EmptyString => EmptyString
  | String c rest =>
      if Py.ascii_eqb c (ascii_of_nat 10)
      then if (run <? 2)%nat
           then String c (collapse_newlines (S run) rest)
           else collapse_newlines (S run) rest
      else String c (collapse_newlines 0 rest)
  end.

Definition _soup_to_text (s : soup) : string :=
  let s := clean_html s in
  (* ensure block elements break lines *)
  let s := foldl (fun cur tag =>
                    append (tag_uid tag) (Str NavigableString newline)
                      (insert_before (tag_uid tag) (Str NavigableString newline) cur))
                 s (find_all_named blockish s) in
  let text := get_text s in
  (* normalize whitespace and keep reasonable paragraph breaks *)
  let text := collapse_blanks false text in
  let text := collapse_newlines 0 text in
  Py.strip text.

(** ** Parser._trim_soup and Parser.parse.

    The CSS selector engine ([soup.select], soupsieve) and the HTML tree
    builder ([BeautifulSoup(content, "lxml")]) are libraries: the parser is
    stated over any [select], returning the identities of the matching
    elements or raising on a malformed selector, and any [tree_builder]. *)
Section Parser.
Variable select : string -> soup -> result (list nat).
Variable tree_builder : string -> result soup.

(** [for sel in selectors: els.extend(soup.select(sel))] *)
Fixpoint select_all (selectors : list string) (s : soup) : result (list nat) :=
  match selectors with
  | [] => Ok []
  | sel :: rest =>
      bind (select sel s) (fun els =>
      bind (select_all rest s) (fun more => Ok (els ++ more)))
  end.

Definition tag_ids (ns : list node) : list nat :=
  tag_uid <$> List.filter is_tag ns.

Definition descendant_ids (u : nat) (s : soup) : list nat :=
  match element u s with
  | Some el => tag_ids (descendants el)
  | None => []
  end.

(** The identities to keep: the selected elements, their descendant tags
    and their ancestors. *)
Definition keep_set_of (els : list nat) (s : soup) : gset nat :=
  foldl (fun keep_set r =>
           keep_set ∪ {[r]} ∪ list_to_set (descendant_ids r s)
                    ∪ list_to_set (parents r s))
        ∅ els.

(** [for el in list(soup.find_all(True)): ...]: every element outside
    [keep_set], except html, head and body, is decomposed. *)
Definition prune (keep_set : gset nat) (s : soup) : soup :=
  foldl (fun cur el =>
           if bool_decide (tag_name el ∈ ["html"; "head"; "body"]) then cur
           else if bool_decide (tag_uid el ∉ keep_set)
                then decompose (tag_uid el) cur
                else cur)
        s (find_all s).

Definition root_step (p : ParserParameters.t) (s : soup) : result soup :=
  match ParserParameters.root p with
  | [] => Ok s
  | _ =>
      bind (select_all (ParserParameters.root p) s) (fun roots =>
      match roots with
      | [] => Ok s
      | _ => Ok (prune (keep_set_of roots s) s)
      end)
  end.

(** [for selector in selectors: for el in soup.select(selector): f(el)] *)
Fixpoint for_each_selected (f : nat -> soup -> soup)
         (selectors : list string) (s : soup) : result soup :=
  match selectors with
  | [] => Ok s
  | selector :: rest =>
      bind (select selector s) (fun els =>
      for_each_selected f rest (foldl (fun cur el => f el cur) s els))
  end.

Definition drop_step (p : ParserParameters.t) (s : soup) : result soup :=
  for_each_selected decompose (ParserParameters.drop p) s.

Definition unwrap_step (p : ParserParameters.t) (s : soup) : result soup :=
  for_each_selected unwrap (ParserParameters.unwrap p) s.

Definition keep_step (p : ParserParameters.t) (s : soup) : result soup :=
  match ParserParameters.keep p with
  | [] => Ok s
  | _ =>
      bind (select_all (ParserParameters.keep p) s) (fun keep_nodes =>
      match keep_nodes with
      | [] => Ok s
      | _ => Ok (prune (keep_set_of keep_nodes s) s)
      end)
  end.

Definition _trim_soup (p : ParserParameters.t) (s : soup) : result soup :=
  bind (root_step p s) (fun s =>
  bind (drop_step p s) (fun s =>
  bind (unwrap_step p s) (fun s =>
  keep_step p s))).

(** [Parser(config).parse(content)] *)
Definition parse (config : ParserConfig.t) (content : string) : result string :=
  bind (tree_builder content) (fun s =>
  bind (_trim_soup (ParserConfig.parameters config) s) (fun s =>
  Ok (_soup_to_text s))).

End Parser.

End Engine.

(** ** A tree builder and a selector engine for plain documents.

    Both stand for libraries the repository calls (lxml behind
    [BeautifulSoup(content, "lxml")], soupsieve behind [soup.select]) on the
    fragment this development evaluates the parser on: documents made of
    text and well-nested lower-case tags without attributes, inside explicit
    html and body elements, and selectors that are a single tag name.
    Anything else is refused rather than guessed. *)

Module Html.
Import Engine.

Inductive token :=
| TOpen (name : string)
| TClose (name : string)
| TText (text : string).

Definition outside_fragment {A} : result A :=
  Raise (Exn Exception "outside the modelled HTML fragment").

Definition is_lower_alpha (c : ascii) : bool :=
  let n := nat_of_ascii c in (97 <=? n)%nat && (n <=? 122)%nat.
Definition is_digit (c : ascii) : bool :=
  let n := nat_of_ascii c in (48 <=? n)%nat && (n <=? 57)%nat.

Fixpoint all_chars (f : ascii -> bool) (s : string) : bool :=
  match s with
  | EmptyString => true
  | String c s' => f c && all_chars f s'
  end.

(** A tag name: a lower-case letter, then lower-case letters and digits. *)
Definition is_tag_name (s : string) : bool :=
  match s with
  | EmptyString => false
  | String c s' =>
      is_lower_alpha c && all_chars (fun d => is_lower_alpha d || is_digit d) s'
  end.

Definition snoc (s : string) (c : ascii) : string := s +:+ String c EmptyString.

Definition tag_token (body : string) : result token :=
  match body with
  | String "/" name => if is_tag_name name then Ok (TClose name) else outside_fragment
  | _ => if is_tag_name body then Ok (TOpen body) else outside_fragment
  end.

Definition text_token (acc : string) : list token :=
  match acc with EmptyString => [] | _ => [TText acc] end.

Fixpoint tokenize (in_tag : bool) (acc : string) (s : string) : result (list token) :=
  match s with
  | EmptyString => if in_tag then outside_fragment else Ok (text_token acc)
  | String c rest =>
      if Py.ascii_eqb c "<" then
        if in_tag then outside_fragment
        else bind (tokenize true EmptyString rest) (fun toks =>
             Ok (text_token acc ++ toks))
      else if Py.ascii_eqb c ">" then
        if in_tag
        then bind (tag_token acc) (fun tok =>
             bind (tokenize false EmptyString rest) (fun toks =>
             Ok (tok :: toks)))
        else tokenize false (snoc acc c) rest
      else tokenize in_tag (snoc acc c) rest
  end.

(** An open element: its identity, its name and its children so far, last
    first. *)
Record frame := Frame {
  frame_uid : nat;
  frame_name : string;
  frame_children : list node
}.

(** The bs4 class of a string, by the element that holds it. *)
Definition string_container (name : string) : string_class :=
  if String.eqb name "script" then Script
  else if String.eqb name "style" then Stylesheet
  else if String.eqb name "template" then TemplateString
  else NavigableString.

(** Identities are handed out in the order the tags open. *)
Fixpoint build (toks : list token) (stack : list frame) (top : list node)
         (next : nat) : result soup :=
  match toks with
  | [] =>
      match stack with
      | [] => Ok (rev top)
      | _ :: _ => outside_fragment
      end
  | TText text :: toks' =>
      match stack with
      | [] => build toks' [] (Str NavigableString text :: top) next
      | Frame u nm cs :: stack' =>
          build toks' (Frame u nm (Str (string_container nm) text :: cs) :: stack')
                top next
      end
  | TOpen name :: toks' => build toks' (Frame next name [] :: stack) top (S next)
  | TClose name :: toks' =>
      match stack with
      | [] => outside_fragment
      | Frame u nm cs :: stack' =>
          if String.eqb nm name then
            let el := Tag u nm [] (rev cs) in
            match stack' with
            | [] => build toks' [] (el :: top) next
            | Frame u' nm' cs' :: stack'' =>
                build toks' (Frame u' nm' (el :: cs') :: stack'') top next
            end
          else outside_fragment
      end
  end.

(** One html element holding only head and body elements. *)
Definition is_document (s : soup) : bool :=
  match s with
  | [Tag _ "html" _ parts] =>
      forallb (fun part => match part with
                           | Tag _ nm _ _ => String.eqb nm "head" || String.eqb nm "body"
                           | Str _ _ => false
                           end) parts
  | _ => false
  end.

Definition tree_builder (content : string) : result soup :=
  bind (tokenize false EmptyString content) (fun toks =>
  bind (build toks [] [] 1) (fun s =>
  if is_document s then Ok s else outside_fragment)).

(** Type selectors: the elements of that name, in document order. *)
Definition select (selector : string) (s : soup) : result (list nat) :=
  if is_tag_name selector
  then Ok (tag_uid <$> find_all_named [selector] s)
  else Raise (Exn SelectorSyntaxError "outside the modelled selectors").

End Html.

(* ===================================================================== *)
(** * urllib.parse *)
(* ===================================================================== *)

(** The functions of CPython's [urllib.parse] that [normalize_url] calls,
    after the library's source (3.12): [urlparse], [parse_qs], [urlencode].
    On byte strings, percent-decoding yields the decoded bytes and
    percent-encoding encodes byte by byte, which is what the library does
    through UTF-8; two points are simplified: a percent-decoded sequence
    that is not valid UTF-8 is kept (the library substitutes U+FFFD), and a
    bracketed host is checked for its alphabet only (the library parses it as
    an IPv6 or IPvFuture address). *)

Module Urllib.

Record ParseResult := mkParseResult {
  scheme : string;
  netloc : string;
  path : string;
  params : string;
  query : string;
  fragment : string
}.

Definition is_upper (c : ascii) : bool :=
  let n := nat_of_ascii c in (65 <=? n)%nat && (n <=? 90)%nat.
Definition is_lower (c : ascii) : bool :=
  let n := nat_of_ascii c in (97 <=? n)%nat && (n <=? 122)%nat.
Definition is_digit (c : ascii) : bool :=
  let n := nat_of_ascii c in (48 <=? n)%nat && (n <=? 57)%nat.
Definition is_alpha (c : ascii) : bool := is_upper c || is_lower c.

(** [scheme_chars]: letters, digits and ["+-."]. *)
Definition is_scheme_char (c : ascii) : bool :=
  is_alpha c || is_digit c || Py.mem_char c "+-.".

Fixpoint all_chars (f : ascii -> bool) (s : string) : bool :=
  match s with
  | EmptyString => true
  | String c s' => f c && all_chars f s'
  end.

Fixpoint filter_chars (f : ascii -> bool) (s : string) : string :=
  match s with
  | EmptyString => EmptyString
  | String c s' => if f c then String c (filter_chars f s') else filter_chars f s'
  end.

(** The longest prefix of characters satisfying [f], and the rest. *)
Fixpoint span (f : ascii -> bool) (s : string) : string * string :=
  match s with
  | EmptyString => (EmptyString, EmptyString)
  | String c s' =>
      if f c then let '(a, b) := span f s' in (String c a, b)
      else (EmptyString, s)
  end.

(** [url.lstrip(_WHATWG_C0_CONTROL_OR_SPACE)] *)
Fixpoint lstrip_c0 (s : string) : string :=
  match s with
  | EmptyString => EmptyString
  | String c s' => if (nat_of_ascii c <=? 32)%nat then lstrip_c0 s' else s
  end.

(** [_UNSAFE_URL_BYTES_TO_REMOVE]: tab, carriage return, newline. *)
Definition is_unsafe (c : ascii) : bool :=
  let n := nat_of_ascii c in (n =? 9)%nat || (n =? 13)%nat || (n =? 10)%nat.

(** The scheme, when the text before the first [':'] is non-empty, starts
    with a letter and is made of scheme characters. *)
Definition split_scheme (url : string) : string * string :=
  match Py.partition ":" url with
  | Some (String c0 before, after) =>
      if is_alpha c0 && all_chars is_scheme_char (String c0 before)
      then (Py.lower (String c0 before), after)
      else (EmptyString, url)
  | _ => (EmptyString, url)
  end.

(** [_splitnetloc(url, 2)] *)
Definition _splitnetloc (url : string) : string * string :=
  span (fun c => negb (Py.mem_char c "/?#")) (Py.skip 2 url).

Definition is_hex (c : ascii) : bool :=
  is_digit c || Py.mem_char c "abcdefABCDEF".

Definition _check_bracketed_host (hostname : string) : result unit :=
  let ok :=
    match hostname with
    | String "v" _ => all_chars (fun c => negb (Py.mem_char c "[]/?#@")) hostname
    | _ => all_chars (fun c => is_hex c || Py.mem_char c ":.%") hostname
           && Py.truthy hostname
    end in
  if ok then Ok tt else Raise (Exn ValueError "Invalid bracketed host").

Definition check_brackets (netloc : string) : result unit :=
  let has_open := Py.mem_char "[" netloc in
  let has_close := Py.mem_char "]" netloc in
  if (has_open && negb has_close) || (has_close && negb has_open)
  then Raise (Exn ValueError "Invalid IPv6 URL")
  else if has_open && has_close
       then match Py.partition "[" netloc with
            | Some (_, after_open) =>
                match Py.partition "]" after_open with
                | Some (bracketed_host, _) => _check_bracketed_host bracketed_host
                | None => _check_bracketed_host after_open
                end
            | None => Ok tt
            end
       else Ok tt.

Definition urlsplit (url : string) : result ParseResult :=
  let url := lstrip_c0 url in
  let url := filter_chars (fun c => negb (is_unsafe c)) url in
  let '(scheme, url) := split_scheme url in
  bind (if Py.startswith url "//"
        then let '(netloc, rest) := _splitnetloc url in
             bind (check_brackets netloc) (fun _ => Ok (netloc, rest))
        else Ok (EmptyString, url)) (fun '(netloc, url) =>
  let '(url, fragment) :=
    match Py.partition "#" url with
    | Some (u, f) => (u, f)
    | None => (url, EmptyString)
    end in
  let '(url, query) :=
    match Py.partition "?" url with
    | Some (u, q) => (u, q)
    | None => (url, EmptyString)
    end in
  Ok (mkParseResult scheme netloc url EmptyString query fragment)).

Definition uses_params : list string :=
  [EmptyString; "ftp"; "hdl"; "prospero"; "http"; "imap"; "https"; "shttp"; "rtsp";
   "rtspu"; "sip"; "sips"; "mms"; "sftp"; "tel"].

(** The text after the last ['/'] and what precedes it, the slash included. *)
Fixpoint rsplit_slash (s : string) : string * string :=
  match s with
  | EmptyString => (EmptyString, EmptyString)
  | String c s' =>
      let '(dir, last) := rsplit_slash s' in
      if Py.mem_char "/" s then (String c dir, last)
      else (EmptyString, s)
  end.

(** [_splitparams]: the first [';'] of the last path segment. *)
Definition _splitparams (url : string) : string * string :=
  let '(dir, last) := rsplit_slash url in
  match Py.partition ";" last with
  | Some (seg, params) => (dir +:+ seg, params)
  | None => (url, EmptyString)
  end.

Definition urlparse (url : string) : result ParseResult :=
  bind (urlsplit url) (fun r =>
  if bool_decide (scheme r ∈ uses_params) && Py.mem_char ";" (path r)
  then let '(url, params) := _splitparams (path r) in
       Ok (mkParseResult (scheme r) (netloc r) url params (query r) (fragment r))
  else Ok r).

(** ** Percent coding *)

Definition hex_value (c : ascii) : nat :=
  let n := nat_of_ascii c in
  if is_digit c then n - 48
  else if (97 <=? n)%nat then n - 87 else n - 55.

(** [unquote] *)
Fixpoint unquote (s : string) : string :=
  match s with
  | EmptyString => EmptyString
  | String c rest =>
      if Py.ascii_eqb c "%" then
        match rest with
        | String h (String l rest') =>
            if is_hex h && is_hex l
            then String (ascii_of_nat (16 * hex_value h + hex_value l)) (unquote rest')
            else String c (unquote rest)
        | _ => String c (unquote rest)
        end
      else String c (unquote rest)
  end.

Definition hex_digit (n : nat) : ascii :=
  if (n <? 10)%nat then ascii_of_nat (48 + n) else ascii_of_nat (55 + n).

(** [_ALWAYS_SAFE]: letters, digits and ["_.-~"]. *)
Definition always_safe (c : ascii) : bool :=
  is_alpha c || is_digit c || Py.mem_char c "_.-~".

(** [quote_plus(s, safe='')] *)
Fixpoint quote_plus (s : string) : string :=
  match s with
  | EmptyString => EmptyString
  | String c rest =>
      if Py.ascii_eqb c " " then String "+" (quote_plus rest)
      else if always_safe c then String c (quote_plus rest)
      else let n := nat_of_ascii c in
           String "%" (String (hex_digit (n / 16)) (String (hex_digit (n mod 16))
                  (quote_plus rest)))
  end.

(** [urlencode(pairs)] on a list of string pairs. *)
Definition urlencode (pairs : list (string * string)) : string :=
  Py.join "&" (List.map (fun '(k, v) => quote_plus k +:+ "=" +:+ quote_plus v) pairs).

Definition plus_to_space (s : string) : string := Py.replace "+" " " s.

(** [parse_qsl(qs)] with the defaults: blank values dropped, lenient. *)
Definition parse_qsl (qs : string) : list (string * string) :=
  flat_map (fun name_value =>
              if negb (Py.truthy name_value) then []
              else match Py.partition "=" name_value with
                   | None => []
                   | Some (n, v) =>
                       if Py.truthy v
                       then [(unquote (plus_to_space n), unquote (plus_to_space v))]
                       else []
                   end)
           (Py.split "&" qs).

(** A [dict] of lists in insertion order. *)
Fixpoint dict_append (name value : string) (d : list (string * list string))
  : list (string * list string) :=
  match d with
  | [] => [(name, [value])]
  | (k, vs) :: d' =>
      if String.eqb k name then (k, vs ++ [value]) :: d'
      else (k, vs) :: dict_append name value d'
  end.

Definition parse_qs (qs : string) : list (string * list string) :=
  foldl (fun d '(name, value) => dict_append name value d) [] (parse_qsl qs).

End Urllib.

(* ===================================================================== *)
(** * backend/workers/parsing_worker.py *)
(* ===================================================================== *)

Module Frontier.

(** ** get_deepest_prefix *)

(** [while parts and not parts[-1]: parts.pop()] *)
Fixpoint pop_empty (parts_rev : list string) : list string :=
  match parts_rev with
  | [] => []
  | p :: rest => if Py.truthy p then parts_rev else pop_empty rest
  end.

Definition get_deepest_prefix (url : string) : string :=
  (* Remove query parameters and fragments *)
  let url := if Py.mem_char "?" url then hd EmptyString (Py.split "?" url) else url in
  let url := if Py.mem_char "#" url then hd EmptyString (Py.split "#" url) else url in
  let parts := Py.split "/" url in
  if (3 <? length parts)%nat then
    let parts_rev := pop_empty (rev parts) in
    let parts_rev := match parts_rev with [] => [] | _ :: rest => rest end in
    Py.join "/" (rev parts_rev)
  else Py.join "/" parts.

(** ** normalize_url *)

Definition tracking_params : list string :=
  ["utm_source"; "utm_medium"; "utm_campaign"; "utm_term"; "utm_content";
   "fbclid"; "gclid"; "msclkid"; "ref"; "source"; "campaign";
   "sessionid"; "sid"; "token"; "auth"; "key"].

(** Tuples of strings compare lexicographically. *)
Definition pair_leb (a b : string * string) : bool :=
  match String.compare (fst a) (fst b) with
  | Lt => true
  | Gt => false
  | Eq => match String.compare (snd a) (snd b) with Gt => false | _ => true end
  end.

Fixpoint insert_sorted (x : string * string) (l : list (string * string))
  : list (string * string) :=
  match l with
  | [] => [x]
  | y :: l' => if pair_leb x y then x :: l else y :: insert_sorted x l'
  end.

(** [query_params.sort()] *)
Definition sort_pairs (l : list (string * string)) : list (string * string) :=
  foldr insert_sorted [] l.

(** The loop over [params.items()]: tracking parameters and blank values go.
    [key.lower()] and [v.strip()] are [Py.lower] and [Py.strip], which are
    the methods of [str] on ASCII names and values. *)
Definition filter_params (params : list (string * list string))
  : list (string * string) :=
  flat_map (fun '(key, values) =>
              if bool_decide (Py.lower key ∈ tracking_params) then []
              else
                let non_empty_values :=
                  List.filter (fun v => Py.truthy (Py.strip v)) values in
                List.map (fun v => (key, v)) non_empty_values)
           params.

Definition normalize_url (url : string) : string :=
  match Urllib.urlparse url with
  | Raise _ => url
  | Ok parsed =>
      (* Normalize scheme to lowercase *)
      let scheme := Py.lower (Urllib.scheme parsed) in
      (* Normalize netloc (domain and port) *)
      let netloc := Py.lower (Urllib.netloc parsed) in
      (* Remove www. prefix if present *)
      let netloc := if Py.startswith netloc "www." then Py.skip 4 netloc else netloc in
      (* Remove default ports *)
      let netloc :=
        if String.eqb scheme "https" && Py.contains netloc ":443"
        then Py.replace ":443" EmptyString netloc
        else if String.eqb scheme "http" && Py.contains netloc ":80"
             then Py.replace ":80" EmptyString netloc
             else netloc in
      (* Remove trailing slash unless it's the root path *)
      let path := Urllib.path parsed in
      let path :=
        if negb (String.eqb path "/") && Py.endswith path "/"
        then Py.drop_last path else path in
      (* Normalize query parameters *)
      let query_params :=
        if Py.truthy (Urllib.query parsed)
        then sort_pairs (filter_params (Urllib.parse_qs (Urllib.query parsed)))
        else [] in
      (* Reconstruct the URL *)
      let normalized_url := scheme +:+ "://" +:+ netloc +:+ path in
      match query_params with
      | [] => normalized_url
      | _ => normalized_url +:+ "?" +:+ Urllib.urlencode query_params
      end
  end.

(** ** extract_links_from_html

    The anchors come from [BeautifulSoup(html_content, 'html.parser')] and
    the absolute URLs from [urljoin]; both are libraries, taken as
    [anchor_hrefs] (the [href] values of the anchors that have one, in
    document order) and [urljoin]. *)
Section Links.
Variable anchor_hrefs : string -> result (list string).
Variable urljoin : string -> string -> result string.

(** The body of the loop over the anchors: the link to collect, if any. *)
Definition link_of (base_url target_prefix href : string) : option string :=
  if negb (Py.truthy href) then None
  else
    match urljoin base_url href with
    | Raise _ => None
    | Ok absolute_url =>
        (* Remove anchor (fragment identifier) from URL *)
        let absolute_url :=
          if Py.mem_char "#" absolute_url
          then hd EmptyString (Py.split "#" absolute_url) else absolute_url in
        let normalized_url := normalize_url absolute_url in
        match Urllib.urlparse normalized_url with
        | Raise _ => None
        | Ok parsed_url =>
            (* Skip if it's not an HTTP/HTTPS URL *)
            if negb (bool_decide (Urllib.scheme parsed_url ∈ ["http"; "https"])) then None
            (* Skip if it's the same as the base URL (after normalization) *)
            else if String.eqb normalized_url (normalize_url base_url) then None
            (* Check if the URL shares the same prefix *)
            else if Py.startswith normalized_url target_prefix then Some normalized_url
            else None
        end
    end.

(** Remove duplicates while preserving order. *)
Fixpoint unique (seen : gset string) (links : list string) : list string :=
  match links with
  | [] => []
  | link :: rest =>
      if bool_decide (link ∈ seen) then unique seen rest
      else link :: unique ({[link]} ∪ seen) rest
  end.

Definition extract_links_from_html (html_content base_url target_prefix : string)
  : list string :=
  match anchor_hrefs html_content with
  | Raise _ => []
  | Ok hrefs =>
      let links := flat_map (fun href => option_list (link_of base_url target_prefix href))
                            hrefs in
      unique ∅ links
  end.
End Links.

(** ** process_url_queue_item *)

(** The result dictionary, by its ["status"]. *)
Inductive outcome :=
| Deferred (url reason : string)
| Dropped (url prefix : string) (url_count : nat)
| Skipped (url reason : string)
| Error (url error : string)
| Success (url parsed_content prefix : string) (urls_added_to_queue : nat)
| Requeued (url reason : string) (next_process_time times_queued : Z).

Definition status (o : outcome) : string :=
  match o with
  | Deferred _ _ => "deferred"
  | Dropped _ _ _ => "dropped"
  | Skipped _ _ => "skipped"
  | Error _ _ => "error"
  | Success _ _ _ _ => "success"
  | Requeued _ _ _ _ => "requeued"
  end.

(** The worker's world: the Redis instance and the number of clock readings
    made so far. *)
Record World := mkWorld {
  redis : Db.Redis;
  readings : nat
}.

Definition with_redis (f : Db.Redis -> Db.Redis) (w : World) : World :=
  mkWorld (f (redis w)) (readings w).

Section Worker.
(** [int(time.time())] at the n-th reading. *)
Variable time : nat -> Z.
(** [load_raw_html]: the page, or the exception of the failed request. *)
Variable load_raw_html : string -> result string.
(** [Parser(config).parse], that is [Engine.parse] at the libraries in use. *)
Variable parse : ParserConfig.t -> string -> result string.
Variable anchor_hrefs : string -> result (list string).
Variable urljoin : string -> string -> result string.

Definition read_time (w : World) : Z * World :=
  (time (readings w), mkWorld (redis w) (S (readings w))).

(** A stored URL that has been parsed. *)
Definition already_parsed (existing_url : option URL.t) : bool :=
  match existing_url with
  | Some u => match URL.parsed_content u with
              | Some c => Py.truthy c
              | None => false
              end
  | None => false
  end.

(** The loop that enqueues the links of a parsed page. *)
Fixpoint enqueue_links (prefix : string) (links : list string) (added : nat)
         (w : World) : nat * World :=
  match links with
  | [] => (added, w)
  | link_url :: rest =>
      if already_parsed (Db.load_url link_url (redis w))
      then enqueue_links prefix rest added w
      else
        let url_obj := URL.mk link_url (Some prefix) None None in
        let '(now, w) := read_time w in
        let url_queue_item := URLQueueItem.mk url_obj now 0 in
        enqueue_links prefix rest (S added)
                      (with_redis (Db.add_to_queue_item url_queue_item) w)
  end.

(** The branch of a prefix that has a parser. *)
Definition process_with_parser (queue_item : URLQueueItem.t)
           (url_prefix : URLPrefix.t) (parser_config : ParserConfig.t)
           (w : World) : outcome * World :=
  let url := URL.url (URLQueueItem.url queue_item) in
  if already_parsed (Db.load_url url (redis w))
  then (Skipped url "already exists and parsed", w)
  else
    match load_raw_html url with
    | Raise e => (Error url ("Failed to load HTML: " +:+ exn_str e), w)
    | Ok raw_content =>
        match parse parser_config raw_content with
        | Raise e => (Error url ("Failed to parse content: " +:+ exn_str e), w)
        | Ok parsed_content =>
            let url_obj :=
              URL.set_prefix (Some (URLPrefix.prefix url_prefix))
                (URL.set_parsed_content (Some parsed_content)
                   (URL.set_raw_content (Some raw_content) (URLQueueItem.url queue_item))) in
            let w := with_redis (Db.save_url url_obj) w in
            let links_with_prefix :=
              extract_links_from_html anchor_hrefs urljoin raw_content url
                                      (URLPrefix.prefix url_prefix) in
            let '(added_to_queue, w) :=
              enqueue_links (URLPrefix.prefix url_prefix) links_with_prefix 0 w in
            (Success url parsed_content (URLPrefix.prefix url_prefix) added_to_queue, w)
        end
    end.

(** The branch without a parser: the page becomes a sample of its deepest
    prefix, the prefix is queued for generation and the item is put back. *)
Definition process_without_parser (queue_item : URLQueueItem.t) (w : World)
  : outcome * World :=
  let url := URL.url (URLQueueItem.url queue_item) in
  let deepest_prefix := get_deepest_prefix url in
  match load_raw_html url with
  | Raise e => (Error url ("Failed to create URLPrefix: " +:+ exn_str e), w)
  | Ok raw_content =>
      let sample_url := SampleURL.mk url (Some raw_content) None in
      let queued_prefix :=
        match Db.load_prefix deepest_prefix (redis w) with
        | Some existing_prefix =>
            URLPrefix.set_sample_urls
              (URLPrefix.sample_urls existing_prefix ++ [sample_url]) existing_prefix
        | None => URLPrefix.mk deepest_prefix [sample_url] (Some []) None None
        end in
      let w := with_redis (Db.save_prefix queued_prefix) w in
      let w := with_redis (Db.add_to_queue_prefix queued_prefix) w in
      (* Put the URLQueueItem back on the queue with updated timestamp and
         incremented counter *)
      let '(now, w) := read_time w in
      let queue_item :=
        URLQueueItem.mk (URLQueueItem.url queue_item) (now + 30)
                        (URLQueueItem.times_queued queue_item + 1) in
      let w := with_redis (Db.add_to_queue_item queue_item) w in
      (Requeued url "no parser available, created URLPrefix"
                (URLQueueItem.process_from_unix_timestamp queue_item)
                (URLQueueItem.times_queued queue_item), w)
  end.

Definition process_url_queue_item (queue_item : URLQueueItem.t) (w : World)
  : outcome * World :=
  let url := URL.url (URLQueueItem.url queue_item) in
  (* Check if URL should be processed based on timestamp *)
  let '(current_time, w) := read_time w in
  if (current_time <? URLQueueItem.process_from_unix_timestamp queue_item)%Z
  then
    (* Put it back on the queue without incrementing times_queued *)
    (Deferred url "not ready for processing",
     with_redis (Db.add_to_queue_item queue_item) w)
  else
    (* Check if there's a URL prefix for this URL *)
    let url_prefix := Db.find_prefix_for_url url (redis w) in
    (* If we have a prefix, check if we've already exceeded the URL limit *)
    let url_count :=
      match url_prefix with
      | Some p => length (Db.find_urls_with_prefix (URLPrefix.prefix p) (redis w))
      | None => 0%nat
      end in
    match url_prefix with
    | Some p =>
        if (20 <=? url_count)%nat
        then (Dropped url (URLPrefix.prefix p) url_count, w)
        else match URLPrefix.parser_config p with
             | Some parser_config => process_with_parser queue_item p parser_config w
             | None => process_without_parser queue_item w
             end
    | None => process_without_parser queue_item w
    end.

(** One turn of the loop of [run]: nothing while the system is paused or the
    queue is empty, else the dequeued item is processed. *)
Definition step (w : World) : option outcome * World :=
  if negb (Db.is_system_running (redis w)) then (None, w)
  else
    match Db.get_from_queue_item (redis w) with
    | (None, _) => (None, w)
    | (Some queue_item, R) =>
        let '(o, w) := process_url_queue_item queue_item (mkWorld R (readings w)) in
        (Some o, w)
    end.

End Worker.

End Frontier.

(* ===================================================================== *)
(** * backend/parser.py: the parser generator *)
(* ===================================================================== *)

Module Synth.

(** What [_generate_input_prompt] puts into the four slots of the input
    template ([html_content], [previous_parser_config], [parsed_content_str],
    [error_message]); the rendered text is the template with these filled
    in. *)
Inductive parsed_content_arg :=
| Contents (texts : list string)      (* a list of parsed texts *)
| Message (text : string).            (* a string passed in that position *)

Record Prompt := mkPrompt {
  html_content : string;
  previous_parser_config : option ParserConfig.t;
  parsed_content : option parsed_content_arg;
  error_message : option string
}.

(** The arguments of [client.responses.create]. *)
Record Request := mkRequest {
  model : string;
  instructions : string;
  effort : string;
  input : Prompt
}.

(** The value bound to the variable [parser] of [generate_parser]: a
    [Parser], or the bare [ParserConfig] that
    [_generate_parser_with_parsing_mistake] returns. *)
Inductive parser_obj :=
| AParser (config : ParserConfig.t)
| AConfig (config : ParserConfig.t).

Definition config_of (p : parser_obj) : ParserConfig.t :=
  match p with AParser c => c | AConfig c => c end.

Definition context_overflow : string :=
  "Your input exceeds the context window of this model".

Definition truthy_arg (a : parsed_content_arg) : bool :=
  match a with
  | Contents texts => match texts with [] => false | _ => true end
  | Message text => Py.truthy text
  end.

Section Generator.
(** The inference provider: [client.responses.create(...)] returns the
    output text or raises, and may answer the same request differently from
    one call to the next ([provider_state]). *)
Variable provider_state : Type.
Variable create : Request -> provider_state -> result string * provider_state.
(** [ParserParameters.model_validate_json(text, strict=True)] *)
Variable model_validate_json : string -> result ParserParameters.t.
(** [clean_html] on the raw content of a sample (a string, or [None]). *)
Variable clean_html : option string -> result string.
(** [Parser(config).parse(content)] *)
Variable parse : ParserConfig.t -> option string -> result string.

Variable config : ParserGeneratorConfig.t.

Definition newline : string := String (ascii_of_nat 10) EmptyString.

(** ["\n".join([self._generate_html_content_snippet(s) for s in sample_urls])] *)
Fixpoint html_snippets (sample_urls : list SampleURL.t) : result (list string) :=
  match sample_urls with
  | [] => Ok []
  | sample_url :: rest =>
      bind (clean_html (SampleURL.raw_content sample_url)) (fun cleaned_content =>
      bind (html_snippets rest) (fun more => Ok (cleaned_content :: more)))
  end.

Definition _generate_input_prompt (sample_urls : list SampleURL.t)
           (previous_parser_config : option ParserConfig.t)
           (parsed_content : option parsed_content_arg)
           (error_message : option string) : result Prompt :=
  bind (html_snippets sample_urls) (fun snippets =>
  Ok (mkPrompt (Py.join newline snippets)
               previous_parser_config
               (match parsed_content with
                | Some a => if truthy_arg a then Some a else None
                | None => None
                end)
               (match error_message with
                | Some m => if Py.truthy m then Some m else None
                | None => None
                end))).

(** The provider call shared by the three kinds of request. *)
Definition request_parameters (req : Request) (st : provider_state)
  : result ParserParameters.t * provider_state :=
  match create req st with
  | (Ok output_text, st') => (model_validate_json output_text, st')
  | (Raise e, st') => (Raise e, st')
  end.

Definition _generate_parser_num_examples (url_prefix : URLPrefix.t)
           (num_examples : nat) (st : provider_state)
  : result parser_obj * provider_state :=
  match _generate_input_prompt (firstn num_examples (URLPrefix.sample_urls url_prefix))
                               None None None with
  | Raise e => (Raise e, st)
  | Ok input_prompt =>
      match request_parameters
              (mkRequest (ParserGeneratorConfig.openai_model config)
                         (ParserGeneratorConfig.instructions_prompt config)
                         (ParserGeneratorConfig.reasoning_level config)
                         input_prompt) st with
      | (Raise e, st') => (Raise e, st')
      | (Ok parser_parameters, st') =>
          (Ok (AParser (ParserConfig.mk parser_parameters (URLPrefix.prefix url_prefix))),
           st')
      end
  end.

(** The error message is passed in the position of [parsed_content]. *)
Definition _generate_parser_with_parsing_mistake (error_prompt : string)
           (sample_url : SampleURL.t) (previous_parser_config : ParserConfig.t)
           (error_message : string) (st : provider_state)
  : result ParserConfig.t * provider_state :=
  match _generate_input_prompt [sample_url] (Some previous_parser_config)
                               (Some (Message error_message)) None with
  | Raise e => (Raise e, st)
  | Ok input_prompt =>
      match request_parameters
              (mkRequest (ParserGeneratorConfig.openai_model config)
                         (ParserGeneratorConfig.instructions_prompt config
                            +:+ newline +:+ error_prompt)
                         "minimal" input_prompt) st with
      | (Raise e, st') => (Raise e, st')
      | (Ok parser_parameters, st') =>
          (Ok (ParserConfig.mk parser_parameters
                               (ParserConfig.prefix_name previous_parser_config)), st')
      end
  end.

(** [parser.parse(content)] on whatever [parser] is bound to. *)
Definition call_parse (parser : parser_obj) (content : option string) : result string :=
  match parser with
  | AParser c => parse c content
  | AConfig _ =>
      Raise (Exn AttributeError "'ParserConfig' object has no attribute 'parse'")
  end.

(** The first sample on which parsing raises, with the message. *)
Fixpoint _validate_parser (parser : parser_obj) (sample_urls : list SampleURL.t)
  : option (SampleURL.t * string) :=
  match sample_urls with
  | [] => None
  | sample_url :: rest =>
      match call_parse parser (SampleURL.raw_content sample_url) with
      | Raise e => Some (sample_url, exn_str e)
      | Ok _ => _validate_parser parser rest
      end
  end.

(** [reduce(lambda x, y: x + y, parser_configs)] *)
Definition reduce_add (parser_configs : list ParserConfig.t) : result ParserConfig.t :=
  match parser_configs with
  | [] => Raise (Exn TypeError "reduce() of empty iterable with no initial value")
  | c :: rest => Ok (foldl ParserConfig.add c rest)
  end.

Fixpoint reflect_each (reflection_prompt : string) (parser : parser_obj)
         (sample_urls : list SampleURL.t) (prefix_name : string)
         (st : provider_state) : result (list ParserConfig.t) * provider_state :=
  match sample_urls with
  | [] => (Ok [], st)
  | sample_url :: rest =>
      match call_parse parser (SampleURL.raw_content sample_url) with
      | Raise e => (Raise e, st)
      | Ok parsed_content =>
          match _generate_input_prompt [sample_url] (Some (config_of parser))
                                       (Some (Contents [parsed_content])) None with
          | Raise e => (Raise e, st)
          | Ok input_prompt =>
              match request_parameters
                      (mkRequest (ParserGeneratorConfig.openai_model config)
                                 (ParserGeneratorConfig.instructions_prompt config
                                    +:+ newline +:+ reflection_prompt)
                                 "minimal" input_prompt) st with
              | (Raise e, st') => (Raise e, st')
              | (Ok parser_parameters, st') =>
                  match reflect_each reflection_prompt parser rest prefix_name st' with
                  | (Raise e, st'') => (Raise e, st'')
                  | (Ok more, st'') =>
                      (Ok (ParserConfig.mk parser_parameters prefix_name :: more), st'')
                  end
              end
          end
      end
  end.

Definition _reflect_on_parser (reflection_prompt : string) (parser : parser_obj)
           (sample_urls : list SampleURL.t) (prefix_name : string)
           (st : provider_state) : result ParserConfig.t * provider_state :=
  match reflect_each reflection_prompt parser sample_urls prefix_name st with
  | (Raise e, st') => (Raise e, st')
  | (Ok parser_configs, st') => (reduce_add parser_configs, st')
  end.

(** The body of the [try] of one iteration: [Ok (Some parser)] when it sets
    [success], [Ok None] when it falls through with [success] still false,
    [Raise e] when it raises. *)
Definition attempt (url_prefix : URLPrefix.t) (num_examples : nat)
           (st : provider_state) : result (option parser_obj) * provider_state :=
  match _generate_parser_num_examples url_prefix num_examples st with
  | (Raise e, st') => (Raise e, st')
  | (Ok parser, st') =>
      match _validate_parser parser (URLPrefix.sample_urls url_prefix) with
      | None => (Ok (Some parser), st')
      | Some (sample_url, error_message) =>
          let failed :=
            Raise (Exn Exception
                       ("Failed to generate parser with error: " +:+ error_message)) in
          match ParserGeneratorConfig.error_prompt config with
          | Some error_prompt =>
              match _generate_parser_with_parsing_mistake
                      error_prompt sample_url (config_of parser) error_message st' with
              | (Raise e, st'') => (Raise e, st'')
              | (Ok repaired, st'') =>
                  match _validate_parser (AConfig repaired)
                                         (URLPrefix.sample_urls url_prefix) with
                  | Some _ => (failed, st'')
                  | None => (Ok None, st'')
                  end
              end
          | None => (failed, st')
          end
      end
  end.

(** How the [while] loop ends, when it does not raise. *)
Inductive loop_end :=
| Succeeded (parser : parser_obj)
| Exhausted.

(** [while num_examples > 0 and not success]; [fuel] bounds the number of
    iterations, [None] tells that it ran out. *)
Fixpoint generate_loop (fuel : nat) (url_prefix : URLPrefix.t) (num_examples : nat)
         (st : provider_state) : option (result loop_end * provider_state) :=
  match num_examples with
  | O => Some (Ok Exhausted, st)
  | S fewer =>
      match fuel with
      | O => None
      | S fuel' =>
          match attempt url_prefix num_examples st with
          | (Ok (Some parser), st') => Some (Ok (Succeeded parser), st')
          | (Ok None, st') => generate_loop fuel' url_prefix num_examples st'
          | (Raise e, st') =>
              if Py.contains (exn_str e) context_overflow
              then generate_loop fuel' url_prefix fewer st'
              else Some (Raise e, st')
          end
      end
  end.

Definition generate_parser (fuel : nat) (url_prefix : URLPrefix.t)
           (st : provider_state) : option (result parser_obj * provider_state) :=
  match generate_loop fuel url_prefix (length (URLPrefix.sample_urls url_prefix)) st with
  | None => None
  | Some (Raise e, st') => Some (Raise e, st')
  | Some (Ok (Succeeded parser), st') =>
      match ParserGeneratorConfig.reflection_prompt config with
      | Some reflection_prompt =>
          match _reflect_on_parser reflection_prompt parser
                                   (URLPrefix.sample_urls url_prefix)
                                   (URLPrefix.prefix url_prefix) st' with
          | (Raise e, st'') => Some (Raise e, st'')
          | (Ok parser_configs, st'') => Some (Ok (AParser parser_configs), st'')
          end
      | None => Some (Ok parser, st')
      end
  | Some (Ok Exhausted, st') =>
      Some (Raise (Exn Exception "Failed to generate parser"), st')
  end.

End Generator.

End Synth.

(* ===================================================================== *)
(** * backend/workers/parser_generation_worker.py *)
(* ===================================================================== *)

Module GenWorker.

(** What a job does that others can observe, in order: the models it saves
    and the call of the generator. *)
Inductive event :=
| Saved (url_prefix : URLPrefix.t)
| Generating (url_prefix : URLPrefix.t).

(** The result dictionary, by its ["status"]. *)
Inductive outcome :=
| Success (url_prefix_id : string) (parser_config : option ParserConfig.t)
| Skipped (url_prefix_id reason : string)
| Error (url_prefix_id error : string).

Definition status (o : outcome) : string :=
  match o with
  | Success _ _ => "success"
  | Skipped _ _ => "skipped"
  | Error _ _ => "error"
  end.

(** The worker's world: the Redis instance and the events so far. *)
Record World := mkWorld {
  redis : Db.Redis;
  trace : list event
}.

Definition save (url_prefix : URLPrefix.t) (w : World) : World :=
  mkWorld (Db.save_prefix url_prefix (redis w)) (trace w ++ [Saved url_prefix]).

Section Worker.
(** [ParserGeneratorConfig.from_config(config_name)]: the YAML file of that
    name. *)
Variable from_config : string -> result ParserGeneratorConfig.t.
(** [ParserGenerator(config).generate_parser(url_prefix).config] *)
Variable generate_parser : ParserGeneratorConfig.t -> URLPrefix.t -> result ParserConfig.t.

Definition get_production_generator_config (w : World) : result ParserGeneratorConfig.t :=
  match Db.get_production_config (redis w) with
  | None => Raise (Exn ValueError "No production config set")
  | Some config_name => from_config config_name
  end.

(** [reset_failed_url_prefix]: the prefix with its status reset, saved. *)
Definition reset_failed_url_prefix (url_prefix : URLPrefix.t) (w : World)
  : URLPrefix.t * World :=
  let url_prefix := URLPrefix.set_processing_status None url_prefix in
  (url_prefix, save url_prefix w).

Definition generate_parser_for_url_prefix (url_prefix : URLPrefix.t) (w : World)
  : result URLPrefix.t * World :=
  let w := mkWorld (redis w) (trace w ++ [Generating url_prefix]) in
  match get_production_generator_config w with
  | Raise e => (Raise e, w)
  | Ok generator_config =>
      match generate_parser generator_config url_prefix with
      | Raise e => (Raise e, w)
      | Ok parser_config =>
          (Ok (URLPrefix.set_parser_config (Some parser_config) url_prefix), w)
      end
  end.

(** The first part of the job, up to the save of ["in_progress"]: [None]
    when the stored prefix is already in progress, else the prefix the job
    goes on with. *)
Definition begin_job (url_prefix : URLPrefix.t) (w : World)
  : option URLPrefix.t * World :=
  let continue_with (url_prefix : URLPrefix.t) (w : World) :=
    (* Mark as in progress and save *)
    let url_prefix := URLPrefix.set_processing_status (Some "in_progress") url_prefix in
    (Some url_prefix, save url_prefix w) in
  (* Check if this URLPrefix is already being processed *)
  match Db.load_prefix (URLPrefix.prefix url_prefix) (redis w) with
  | Some existing_prefix =>
      if bool_decide (URLPrefix.processing_status existing_prefix = Some "in_progress")
      then (None, w)
      else if bool_decide (URLPrefix.processing_status existing_prefix = Some "failed")
           then
             let '(existing_prefix, w) := reset_failed_url_prefix existing_prefix w in
             (* Use the existing prefix with reset status *)
             continue_with existing_prefix w
           else continue_with url_prefix w
  | None => continue_with url_prefix w
  end.

Definition process_url_prefix_job (url_prefix : URLPrefix.t) (w : World)
  : outcome * World :=
  match begin_job url_prefix w with
  | (None, w) => (Skipped (URLPrefix.prefix url_prefix) "already in progress", w)
  | (Some url_prefix, w) =>
      (* Generate parser for the URL prefix *)
      match generate_parser_for_url_prefix url_prefix w with
      | (Ok updated_url_prefix, w) =>
          (* Mark as completed and save the updated URLPrefix to the database *)
          let updated_url_prefix :=
            URLPrefix.set_processing_status (Some "completed") updated_url_prefix in
          (Success (URLPrefix.prefix url_prefix)
                   (URLPrefix.parser_config updated_url_prefix),
           save updated_url_prefix w)
      | (Raise e, w) =>
          (* Mark as failed and save *)
          let url_prefix := URLPrefix.set_processing_status (Some "failed") url_prefix in
          (Error (URLPrefix.prefix url_prefix) (exn_str e), save url_prefix w)
      end
  end.

(** One turn of the loop of [run]: nothing while the system is paused or the
    queue is empty, else the dequeued job. *)
Definition step (w : World) : option outcome * World :=
  if negb (Db.is_system_running (redis w)) then (None, w)
  else
    match Db.get_from_queue_prefix (redis w) with
    | (None, _) => (None, w)
    | (Some url_prefix, R) =>
        let '(o, w) := process_url_prefix_job url_prefix (mkWorld R (trace w)) in
        (Some o, w)
    end.

End Worker.

End GenWorker.

(* ===================================================================== *)
(** * backend/api.py: the routes that change the store *)
(* ===================================================================== *)

Module Api.

(** A route returns its JSON body or raises [HTTPException]. *)
Inductive response (A : Type) :=
| Body (a : A)
| HTTPException (status_code : nat) (detail : string).
Arguments Body {A} a.
Arguments HTTPException {A} status_code detail.

(** The body of [PUT /system/state], without its message. *)
Record state_body := mk_state_body {
  state : string;
  is_running : bool
}.

Definition set_system_state_route (state : string) (R : Db.Redis)
  : response state_body * Db.Redis :=
  match Db.set_system_state state R with
  | Ok R => (Body (mk_state_body state (Db.is_system_running R)), R)
  | Raise e =>
      if bool_decide (exn_cls e = ValueError)
      then (HTTPException 400 (exn_str e), R)
      else (HTTPException 500 "Failed to set system state", R)
  end.

(** [for x in xs: if delete(URL, x.url): deleted_urls_count += 1] *)
Fixpoint delete_urls (ids : list string) (deleted_urls_count : nat) (R : Db.Redis)
  : nat * Db.Redis :=
  match ids with
  | [] => (deleted_urls_count, R)
  | id_ :: rest =>
      let '(deleted, R) := Db.delete_url id_ R in
      delete_urls rest (if deleted then S deleted_urls_count else deleted_urls_count) R
  end.

(** The body of [DELETE /urlprefix/{prefix_id}], without its message. *)
Record deleted_body := mk_deleted_body {
  prefix : string;
  deleted_urls_count : nat
}.

Definition delete_urlprefix (prefix_id : string) (R : Db.Redis)
  : response deleted_body * Db.Redis :=
  (* Decode the URL-encoded prefix_id *)
  let decoded_prefix := Urllib.unquote prefix_id in
  (* Load the URLPrefix to get its associated URLs *)
  match Db.load_prefix decoded_prefix R with
  | None =>
      (HTTPException 404 ("URLPrefix with prefix '" +:+ decoded_prefix +:+ "' not found"),
       R)
  | Some urlprefix =>
      (* Delete URLs from sample_urls *)
      let '(deleted_urls_count, R) :=
        delete_urls (SampleURL.url <$> URLPrefix.sample_urls urlprefix) 0 R in
      (* Delete URLs from validation_urls if they exist *)
      let '(deleted_urls_count, R) :=
        match URLPrefix.validation_urls urlprefix with
        | Some ((_ :: _) as validation_urls) =>
            delete_urls (SampleURL.url <$> validation_urls) deleted_urls_count R
        | _ => (deleted_urls_count, R)
        end in
      (* Delete URLs from the database that have this prefix *)
      let db_urls := Db.find_urls_with_prefix decoded_prefix R in
      let '(deleted_urls_count, R) :=
        delete_urls (URL.url <$> db_urls) deleted_urls_count R in
      (* Delete the URLPrefix itself *)
      match Db.delete_prefix decoded_prefix R with
      | (false, R) => (HTTPException 500 "Failed to delete URLPrefix", R)
      | (true, R) => (Body (mk_deleted_body decoded_prefix deleted_urls_count), R)
      end
  end.

End Api.

(* ===================================================================== *)
(** * The vocabulary of the properties, and the runs they are tried on *)
(* ===================================================================== *)

(** ** Web URLs, for the normalization *)

Module WebUrl.
Import Py Urllib Frontier.

(** The characters of a plain host name: letters, digits, dot and hyphen. *)
Definition host_char (c : ascii) : bool :=
  is_alpha c || is_digit c || mem_char c ".-".

(** The characters of a path: no query, fragment or parameter delimiter,
    and none of the characters [urlsplit] removes. *)
Definition path_char (c : ascii) : bool :=
  negb (mem_char c "?#;") && negb (is_unsafe c).

(** A scheme that is http or https in any case. *)
Definition is_web_scheme (s : string) : bool :=
  bool_decide (lower s ∈ ["http"; "https"]).

Definition is_host (h : string) : bool := all_chars host_char h.

(** A path is empty or starts with a slash, and has no query, fragment or
    parameter delimiter. *)
Definition is_path (p : string) : bool :=
  all_chars path_char p && (negb (truthy p) || startswith p "/").

(** The two steps of [normalize_url] on the host and on the path. *)
Definition strip_www (netloc : string) : string :=
  if startswith netloc "www." then skip 4 netloc else netloc.

Definition strip_slash (path : string) : string :=
  if negb (String.eqb path "/") && endswith path "/" then drop_last path else path.

(** The characters of a query: no fragment delimiter, and none of the
    characters [urlsplit] removes. *)
Definition query_char (c : ascii) : bool := negb (ascii_eqb "#" c) && negb (is_unsafe c).

(** A query string: anything up to the fragment. *)
Definition is_query (q : string) : bool := all_chars query_char q.

(** Text made of ASCII characters. *)
Definition is_ascii (s : string) : bool :=
  all_chars (fun c => (nat_of_ascii c <? 128)%nat) s.

(** A query that is ASCII text once its percent-escapes are decoded.  On
    such a query the byte strings of this development are the [str] values
    of the program: every decoded name and value is ASCII, where [lower]
    and [strip] are [str.lower] and [str.strip] and where the decoded bytes
    are the decoded text.  (On other text they are not: [str.strip] also
    removes the Unicode blanks, [str.lower] also maps U+212A to ["k"], and
    a decoded sequence that is not UTF-8 becomes U+FFFD.) *)
Definition is_ascii_query (q : string) : bool := is_ascii (unquote q).

Definition query_suffix (oq : option string) : string :=
  match oq with
  | Some q => "?" +:+ q
  | None => EmptyString
  end.

(** [scheme://host path] with an optional [?query]. *)
Definition web_url (s h p : string) (oq : option string) : string :=
  s +:+ "://" +:+ h +:+ p +:+ query_suffix oq.

(** The query of the normalized URL, if any parameter is left. *)
Definition encoded (l : list (string * string)) : option string :=
  match l with
  | [] => None
  | _ => Some (urlencode l)
  end.

(** The characters of an encoded component. *)
Definition enc_char (c : ascii) : bool := always_safe c || mem_char c "+%".

(** One [name=value] piece of [urlencode]. *)
Definition encode_pair (kv : string * string) : string :=
  quote_plus (fst kv) +:+ "=" +:+ quote_plus (snd kv).

(** The body of the loop of [parse_qsl]. *)
Definition read_field (name_value : string) : list (string * string) :=
  if negb (truthy name_value) then []
  else match partition "=" name_value with
       | None => []
       | Some (n, v) =>
           if truthy v
           then [(unquote (plus_to_space n), unquote (plus_to_space v))]
           else []
       end.

(** Each pair is at most the next one. *)
Fixpoint sorted (l : list (string * string)) : bool :=
  match l with
  | x :: (y :: _) as rest => pair_leb x y && sorted rest
  | _ => true
  end.

(** The strict order on parameter names. *)
Definition klt (a b : string) : Prop := String.compare a b = Lt.

(** The pairs of a dictionary of lists, in order. *)
Definition flatten (d : list (string * list string)) : list (string * string) :=
  flat_map (fun entry => List.map (pair (fst entry)) (snd entry)) d.

(** The step of the loop of [parse_qs]. *)
Definition add_pair (d : list (string * list string)) (nv : string * string)
  : list (string * list string) :=
  dict_append (fst nv) (snd nv) d.

(** The first name of a list of pairs is not below [k]. *)
Definition starts_from (k : string) (l : list (string * string)) : Prop :=
  match l with
  | [] => True
  | kv :: _ => String.compare k (fst kv) <> Gt
  end.

(** A parameter that [normalize_url] keeps: not a tracking parameter, and
    with a value that is not blank. *)
Definition kept (kv : string * string) : Prop :=
  bool_decide (lower (fst kv) ∈ tracking_params) = false /\
  truthy (strip (snd kv)) = true.

(** The parameters [normalize_url] retains from a query string. *)
Definition query_pairs (q : string) : list (string * string) :=
  if truthy q then sort_pairs (filter_params (parse_qs q)) else [].

End WebUrl.

(** ** The crawl worker *)

Module FrontierSpec.
Import Frontier.

(** The item is due at the worker's next clock reading. *)
Definition due (time : nat -> Z) (queue_item : URLQueueItem.t) (w : World) : Prop :=
  (URLQueueItem.process_from_unix_timestamp queue_item <= time (readings w))%Z.

(** The URL has no owning prefix with a parser config, and its prefix, if
    any, is under the cap: the item takes the branch without a parser. *)
Definition no_parser_yet (queue_item : URLQueueItem.t) (w : World) : Prop :=
  match Db.find_prefix_for_url (URL.url (URLQueueItem.url queue_item)) (redis w) with
  | None => True
  | Some p =>
      URLPrefix.parser_config p = None /\
      length (Db.find_urls_with_prefix (URLPrefix.prefix p) (redis w)) < 20
  end.

End FrontierSpec.

(** ** The parser generator *)

Module SynthSpec.
Import Synth.

(** The exception reports a context overflow. *)
Definition overflows (e : exn) : Prop :=
  Py.contains (exn_str e) context_overflow = true.

(** The request of the generation step from the first [k] snippets. *)
Definition generation_request (config : ParserGeneratorConfig.t)
           (cleaned : list string) (k : nat) : Request :=
  mkRequest (ParserGeneratorConfig.openai_model config)
            (ParserGeneratorConfig.instructions_prompt config)
            (ParserGeneratorConfig.reasoning_level config)
            (mkPrompt (Py.join newline (firstn k cleaned)) None None None).

End SynthSpec.

(** ** Concrete configurations, documents, stores and providers *)

Module MergeExamples.
Import ParserParameters.

Definition cfg_a : ParserConfig.t :=
  ParserConfig.mk (mk ["main"; "article"] [] ["script"; "script"] ["span"]) "https://example.com/blog".

Definition cfg_b : ParserConfig.t :=
  ParserConfig.mk (mk ["article"] ["p"] ["nav"; "script"] []) "https://example.com/blog".

Definition cfg_c : ParserConfig.t :=
  ParserConfig.mk (mk [] ["h1"] ["footer"] ["b"]) "https://example.com/docs".

End MergeExamples.

Module EngineExamples.
Import Engine.

Definition example_html : string :=
  "<html><body><nav>X</nav><main><p>Hello</p><script>bad</script></main></body></html>".

Definition example_config : ParserConfig.t :=
  ParserConfig.mk (ParserParameters.mk ["main"] [] ["script"] []) "https://example.com".

Definition example_soup : soup :=
  [Tag 1 "html" []
     [Tag 2 "body" []
        [Tag 3 "nav" [] [Str NavigableString "X"];
         Tag 4 "main" []
           [Tag 5 "p" [] [Str NavigableString "Hello"];
            Tag 6 "script" [] [Str Script "bad"]]]]].

Definition unmatched_params : ParserParameters.t :=
  ParserParameters.mk ["article"; "section"] ["aside"] [] [].

End EngineExamples.

Module FrontierExamples.
Import Frontier.

(** A clock that starts at 1000 and advances by one second per reading, a
    network that is down or serves one page, and pages without links. *)
Definition clock (n : nat) : Z := (1000 + Z.of_nat n)%Z.

Definition offline (url : string) : result string :=
  Raise (Exn HTTPError "503 Server Error").

Definition online (url : string) : result string :=
  Ok "<html><body><p>page</p></body></html>".

Definition engine : ParserConfig.t -> string -> result string :=
  Engine.parse Html.select Html.tree_builder.

Definition no_anchors (html : string) : result (list string) := Ok [].

Definition join_absolute (base href : string) : result string := Ok href.

Definition blog : string := "https://example.com/blog".

Definition blog_prefix : URLPrefix.t := URLPrefix.mk blog [] (Some []) None None.

(** Twenty stored pages of the blog prefix. *)
Definition blog_pages : list URL.t :=
  List.map (fun i => URL.mk (blog +:+ "/" +:+ String (ascii_of_nat (97 + i)) EmptyString)
                            (Some blog) None (Some "text"))
           (seq 0 20).

Definition full_redis : Db.Redis :=
  Db.mkRedis (list_to_map (List.map (fun u => (URL.id u, u)) blog_pages))
             {[ blog := blog_prefix ]} ∅ [] [].

Definition item (ts : Z) : URLQueueItem.t :=
  URLQueueItem.mk (URL.mk (blog +:+ "/post") None None None) ts 2.

End FrontierExamples.

Module SynthExamples.
Import Synth.

(** Five sample pages of one prefix. *)
Definition page (body : string) : string :=
  "<html><body><nav>menu</nav><main><p>" +:+ body +:+ "</p></main></body></html>".

Definition samples : list SampleURL.t :=
  List.map (fun b => SampleURL.mk ("https://example.com/blog/" +:+ b) (Some (page b)) None)
           ["one"; "two"; "three"; "four"; "five"].

Definition blog_prefix : URLPrefix.t :=
  URLPrefix.mk "https://example.com/blog" samples (Some []) None None.

Definition generator_config : ParserGeneratorConfig.t :=
  ParserGeneratorConfig.mk "default" "gpt" "minimal" "Write a parser." "{html_content}"
                           None None.

(** The provider keeps the sizes of the requests it has seen; a request of
    more than two pages overflows. *)
Definition small_provider (req : Request) (log : list nat) : result string * list nat :=
  let pages := length (Py.split (ascii_of_nat 10) (html_content (input req))) in
  if (2 <? pages)%nat
  then (Raise (Exn APIError ("Error code: 400 - " +:+ context_overflow +:+ ".")),
        log ++ [pages])
  else (Ok "main", log ++ [pages]).

Definition answer : ParserParameters.t := ParserParameters.mk ["main"] [] ["nav"] [].

Definition validate_json (text : string) : result ParserParameters.t :=
  if String.eqb text "main" then Ok answer
  else Raise (Exn ValueError "validation error for ParserParameters").

Definition cleaned_page (raw : option string) : result string :=
  match raw with
  | Some r => Ok r
  | None => Raise (Exn TypeError "object of type 'NoneType' has no len()")
  end.

Definition engine (c : ParserConfig.t) (content : option string) : result string :=
  match content with
  | Some s => Engine.parse Html.select Html.tree_builder c s
  | None => Raise (Exn TypeError "object of type 'NoneType' has no len()")
  end.

End SynthExamples.

(** The same five samples and the same two-page context, with a generator
    that has a reflection prompt. *)
Module ReflectionExamples.
Import Synth SynthExamples.

Definition reflecting_config : ParserGeneratorConfig.t :=
  ParserGeneratorConfig.mk "reflecting" "gpt" "minimal" "Write a parser." "{html_content}"
                           None (Some "Reflect on the parser.").

Definition rate_limit : exn := Exn APIError "Error code: 429 - Rate limit reached".

(** A provider that answers the generation requests as [small_provider]
    does and refuses the requests that come with a previous config, those
    of the reflection. *)
Definition rate_limited_provider (req : Request) (log : list nat)
  : result string * list nat :=
  match previous_parser_config (input req) with
  | Some _ => (Raise rate_limit, log ++ [0])
  | None => small_provider req log
  end.

(** A provider that answers the reflection requests with a selector that
    is not well formed. *)
Definition careless_provider (req : Request) (log : list nat)
  : result string * list nat :=
  match previous_parser_config (input req) with
  | Some _ =>
      (Ok "div[", log ++ [length (Py.split (ascii_of_nat 10) (html_content (input req)))])
  | None => small_provider req log
  end.

Definition careless_answer : ParserParameters.t := ParserParameters.mk ["div["] [] [] [].

Definition reflection_json (text : string) : result ParserParameters.t :=
  if String.eqb text "div[" then Ok careless_answer else validate_json text.

End ReflectionExamples.

Module GenWorkerExamples.
Import GenWorker.

(** A store whose only prefix failed and is queued again. *)
Definition blog : string := "https://example.com/blog".

Definition failed_prefix : URLPrefix.t :=
  URLPrefix.mk blog [SampleURL.mk (blog +:+ "/one") (Some "<p>one</p>") None]
               (Some []) None (Some "failed").

Definition running : Db.Redis :=
  Db.mkRedis ∅ {[ blog := failed_prefix ]} {[ "production_config" := "default" ]}
             [] [failed_prefix].

Definition default_config (name : string) : result ParserGeneratorConfig.t :=
  Ok (ParserGeneratorConfig.mk name "gpt" "minimal" "Write a parser." "{html_content}"
                               None None).

Definition generated : ParserConfig.t :=
  ParserConfig.mk (ParserParameters.mk ["main"] [] ["nav"] []) blog.

End GenWorkerExamples.

(* ===================================================================== *)
(** * The vocabulary of the further properties *)
(* ===================================================================== *)

(** ** The queues *)

Module QueueSpec.
Import Db.

(** [add_to_queue] on each item of [xs], in order. *)
Definition push_items (xs : list URLQueueItem.t) (R : Redis) : Redis :=
  foldl (fun R x => add_to_queue_item x R) R xs.

(** [n] calls of [get_from_queue], with what each returned. *)
Fixpoint pop_items (n : nat) (R : Redis) : list (option URLQueueItem.t) * Redis :=
  match n with
  | O => ([], R)
  | S n' =>
      let '(x, R) := get_from_queue_item R in
      let '(xs, R) := pop_items n' R in
      (x :: xs, R)
  end.

End QueueSpec.

(** ** The store *)

Module StoreSpec.

(** Every model is stored under its id, as [save] stores it. *)
Definition keyed (R : Db.Redis) : Prop :=
  (forall k u, Db.urls R !! k = Some u -> URL.id u = k) /\
  (forall k p, Db.prefixes R !! k = Some p -> URLPrefix.id p = k).

(** No prefix has more than 20 stored URLs. *)
Definition capped (R : Db.Redis) : Prop :=
  forall prefix, length (Db.find_urls_with_prefix prefix R) <= 20.

End StoreSpec.

(** ** Prefixes of a URL *)

Module PrefixSpec.

(** The candidates of [find_prefix_for_url]: the URL cut after its first
    [i] segments. *)
Definition candidate (url : string) (i : nat) : string :=
  Py.join "/" (firstn i (Py.split "/" url)).

Definition segments (url : string) : nat := length (Py.split "/" url).

End PrefixSpec.

(** ** Text and trees *)

Module TextSpec.

Definition tab : ascii := ascii_of_nat 9.

(** Two blanks in a row, and three newlines in a row. *)
Definition two_blanks : string := "  ".
Definition three_newlines : string :=
  Engine.newline +:+ Engine.newline +:+ Engine.newline.

End TextSpec.

Module CleanSpec.
Import Engine.

(** Two elements with the same identity, name and attributes. *)
Definition same_tag (el el' : node) : Prop :=
  tag_uid el = tag_uid el' /\ tag_name el = tag_name el' /\ tag_attrs el = tag_attrs el'.

(** A mutation of a node that leaves no element of identity [u], and
    only elements that were there. *)
Definition removes (u : nat) (t : node -> list node) : Prop :=
  forall n el', el' ∈ find_all (t n) ->
    tag_uid el' <> u /\ exists el, el ∈ find_all [n] /\ same_tag el el'.

End CleanSpec.

Module TrimSpec.
Import Engine CleanSpec.

(** The elements the pruning never removes by themselves. *)
Definition protected : list string := ["html"; "head"; "body"].

(** What a restriction to the elements [els] of [s] may leave: html, head
    and body, the elements themselves, their descendants and their
    ancestors, as they were in [s]. *)
Definition survivor (s : soup) (els : list nat) (el' : node) : Prop :=
  (tag_name el' ∈ protected \/
   exists r, r ∈ els /\
     (tag_uid el' = r \/ tag_uid el' ∈ descendant_ids r s \/ tag_uid el' ∈ parents r s)) /\
  exists el, el ∈ find_all s /\ same_tag el el'.

End TrimSpec.

(** ** Listings *)

Module ListingSpec.
Import URLPrefixWithUrls.

(** Each string is at most the next one. *)
Fixpoint ordered (l : list string) : bool :=
  match l with
  | x :: (y :: _) as rest => str_leb x y && ordered rest
  | _ => true
  end.

(** Each string is strictly below the next one. *)
Fixpoint increasing (l : list string) : Prop :=
  match l with
  | x :: (y :: _) as rest => String.compare x y = Lt /\ increasing rest
  | _ => True
  end.

End ListingSpec.

(** ** Further stores, pages and providers *)

Module CrawlExamples.
Import Frontier FrontierExamples.

(** A store with one prefix whose parser is generated, a page with three
    anchors (two of them the same page, one outside the prefix) and a queue
    that holds one item. *)
Definition parsed_prefix : URLPrefix.t :=
  URLPrefix.mk blog [] (Some [])
    (Some (ParserConfig.mk (ParserParameters.mk [] [] [] []) blog)) (Some "completed").

Definition ready_redis : Db.Redis := Db.save_prefix parsed_prefix Db.empty.

Definition three_anchors (html : string) : result (list string) :=
  Ok ["https://example.com/blog/next"; "https://EXAMPLE.com/blog/next/";
      "https://example.com/about"].

Definition waiting_redis : Db.Redis := Db.add_to_queue_item (item 5000) ready_redis.

End CrawlExamples.

Module JobExamples.
Import GenWorker GenWorkerExamples.

(** A prefix stored as completed with two samples, and the copy of it that
    was queued when it had one. *)
Definition stored_prefix : URLPrefix.t :=
  URLPrefix.mk blog
    [SampleURL.mk (blog +:+ "/one") (Some "<p>one</p>") None;
     SampleURL.mk (blog +:+ "/two") (Some "<p>two</p>") None]
    (Some []) (Some generated) (Some "completed").

Definition queued_copy : URLPrefix.t :=
  URLPrefix.mk blog [SampleURL.mk (blog +:+ "/one") (Some "<p>one</p>") None]
               (Some []) None None.

Definition completed_store : Db.Redis :=
  Db.mkRedis ∅ {[ blog := stored_prefix ]} {[ "production_config" := "default" ]}
             [] [queued_copy].

(** A store where no production config was ever set. *)
Definition unconfigured : Db.Redis := Db.mkRedis ∅ ∅ ∅ [] [queued_copy].

End JobExamples.

Module RepairExamples.
Import Synth SynthExamples.

(** A provider that always answers, an engine that rejects every selector,
    and a generator with an error prompt and a reflection prompt. *)
Definition steady_provider (req : Request) (log : list nat) : result string * list nat :=
  (Ok "main", log ++ [1]).

Definition broken_engine (c : ParserConfig.t) (content : option string) : result string :=
  Raise (Exn SelectorSyntaxError "Malformed selector").

Definition repair_config : ParserGeneratorConfig.t :=
  ParserGeneratorConfig.mk "repair" "gpt" "minimal" "Write a parser." "{html_content}"
                           (Some "Fix the parser.") (Some "Reflect.").

Definition two_samples : URLPrefix.t :=
  URLPrefix.mk "https://example.com/blog" (firstn 2 samples) (Some []) None None.

End RepairExamples.

Module ApiExamples.
Import FrontierExamples.

(** A store with the blog prefix, one sample of it and three stored pages,
    one of them of another prefix. *)
Definition sampled_prefix : URLPrefix.t :=
  URLPrefix.mk blog [SampleURL.mk (blog +:+ "/a") (Some "<p>a</p>") None]
               (Some []) None (Some "completed").

Definition small_store : Db.Redis :=
  Db.save_url (URL.mk (blog +:+ "/a") (Some blog) None (Some "a"))
    (Db.save_url (URL.mk (blog +:+ "/b") (Some blog) None (Some "b"))
       (Db.save_url (URL.mk "https://example.com/shop/c" (Some "https://example.com/shop")
                            None (Some "c"))
          (Db.save_prefix sampled_prefix Db.empty))).

End ApiExamples.

(* ===================================================================== *)
(** * Properties *)
(* ===================================================================== *)

(** ** Config merge (data_models.py) *)

Module MergeLaws.
Import ParserParameters MergeExamples.

Lemma union_list_set (xs ys : list string) :
  (list_to_set (union_list xs ys) : gset string) = list_to_set xs ∪ list_to_set ys.
Proof. unfold union_list. apply list_to_set_elements_L. Qed.

Lemma same_set_comm xs ys : same_set (union_list xs ys) (union_list ys xs).
Proof. unfold same_set. rewrite !union_list_set. apply (comm_L _). Qed.

Lemma same_set_assoc xs ys zs :
  same_set (union_list (union_list xs ys) zs) (union_list xs (union_list ys zs)).
Proof. unfold same_set. rewrite !union_list_set. by rewrite (assoc_L _). Qed.

Lemma same_set_idem xs : same_set (union_list xs xs) xs.
Proof. unfold same_set. rewrite union_list_set. apply union_idemp_L. Qed.

Lemma add_comm (a b : t) : equiv (add a b) (add b a).
Proof. repeat split; apply same_set_comm. Qed.

Lemma add_assoc (a b c : t) : equiv (add (add a b) c) (add a (add b c)).
Proof. repeat split; apply same_set_assoc. Qed.

Lemma add_idem (a : t) : equiv (add a a) a.
Proof. repeat split; apply same_set_idem. Qed.

(** C1. The merge [+] of [ParserParameters] is associative, commutative and
    idempotent up to set equality of the four selector fields, and so is
    the merge of [ParserConfig]s; the prefix of a merged config being the
    left operand's, commutativity is for two configs of the same prefix. *)
Theorem config_merge_laws (a b c : ParserConfig.t) :
  (let pa := ParserConfig.parameters a in
   let pb := ParserConfig.parameters b in
   let pc := ParserConfig.parameters c in
   equiv (add (add pa pb) pc) (add pa (add pb pc)) /\
   equiv (add pa pb) (add pb pa) /\
   equiv (add pa pa) pa) /\
  ParserConfig.equiv (ParserConfig.add (ParserConfig.add a b) c)
                     (ParserConfig.add a (ParserConfig.add b c)) /\
  (ParserConfig.prefix_name a = ParserConfig.prefix_name b ->
   ParserConfig.equiv (ParserConfig.add a b) (ParserConfig.add b a)) /\
  ParserConfig.equiv (ParserConfig.add a a) a.
Proof.
  split; [|split; [|split]].
  - cbn. auto using add_assoc, add_comm, add_idem.
  - split; [apply add_assoc | done].
  - intros Hab. split; [apply add_comm | by cbn].
  - split; [apply add_idem | done].
Qed.

Lemma config_merge_laws_witness :
  ParserConfig.prefix_name cfg_a = ParserConfig.prefix_name cfg_b /\
  ParserConfig.equiv (ParserConfig.add (ParserConfig.add cfg_a cfg_b) cfg_c)
                     (ParserConfig.add cfg_a (ParserConfig.add cfg_b cfg_c)) /\
  ParserConfig.equiv (ParserConfig.add cfg_a cfg_b) (ParserConfig.add cfg_b cfg_a) /\
  ParserConfig.equiv (ParserConfig.add cfg_a cfg_a) cfg_a.
Proof.
  destruct (config_merge_laws cfg_a cfg_b cfg_c) as (_ & Hassoc & Hcomm & Hidem).
  split; [reflexivity|]. split; [exact Hassoc|]. split; [|exact Hidem].
  apply Hcomm. reflexivity.
Defined.

(** Two configs of different prefixes do not commute: each merge keeps the
    prefix of its left operand. *)
Example merge_keeps_left_prefix :
  ParserConfig.prefix_name (ParserConfig.add cfg_a cfg_c) = "https://example.com/blog" /\
  ParserConfig.prefix_name (ParserConfig.add cfg_c cfg_a) = "https://example.com/docs".
Proof. split; reflexivity. Qed.

(** Without set equality the laws would depend on the enumeration order:
    the merged list carries no duplicate, whatever the operands held. *)
Lemma union_list_NoDup xs ys : NoDup (union_list xs ys).
Proof. apply NoDup_elements. Qed.

End MergeLaws.

(** ** The run-state flag (db.py) *)

Module RunState.
Import Db.

Lemma get_after_set (state : string) (R : Redis) :
  state <> EmptyString -> get_system_state (set_string SYSTEM_STATE_KEY state R) = state.
Proof.
  intros Hne. unfold get_system_state, set_string; cbn.
  rewrite lookup_insert_eq. cbn. by destruct state.
Qed.

(** C2 (as the code has it). The flag accepts exactly ["PAUSE"] and
    ["RUNNING"]: setting either succeeds and is read back, every other
    string raises [ValueError] and leaves no new store, and an unset flag
    reads as ["RUNNING"]. *)
Theorem system_state_values (state : string) (R : Redis) :
  (state = "PAUSE" \/ state = "RUNNING" ->
     exists R', set_system_state state R = Ok R' /\ get_system_state R' = state) /\
  (state <> "PAUSE" -> state <> "RUNNING" ->
     set_system_state state R =
     Raise (Exn ValueError "State must be either 'PAUSE' or 'RUNNING'")) /\
  (strings R !! SYSTEM_STATE_KEY = None -> get_system_state R = "RUNNING").
Proof.
  split; [|split].
  - intros Hs. exists (set_string SYSTEM_STATE_KEY state R). split.
    + unfold set_system_state. rewrite bool_decide_eq_true_2; [done|].
      rewrite !elem_of_cons. destruct Hs as [-> | ->]; auto.
    + apply get_after_set. by destruct Hs as [-> | ->].
  - intros H1 H2. unfold set_system_state.
    rewrite bool_decide_eq_false_2; [done|].
    rewrite !elem_of_cons, elem_of_nil. tauto.
  - intros Hnone. unfold get_system_state. by rewrite Hnone.
Qed.

Lemma system_state_values_witness :
  (exists R', set_system_state "PAUSE" empty = Ok R' /\ get_system_state R' = "PAUSE") /\
  set_system_state "STOPPED" empty =
    Raise (Exn ValueError "State must be either 'PAUSE' or 'RUNNING'") /\
  get_system_state empty = "RUNNING".
Proof.
  split; [|split].
  - apply (proj1 (system_state_values "PAUSE" empty)). by left.
  - apply (proj1 (proj2 (system_state_values "STOPPED" empty))); discriminate.
  - apply (proj2 (proj2 (system_state_values "RUNNING" empty))). reflexivity.
Defined.

(** ["PAUSED"] is not one of the two values: setting it raises. *)
Lemma set_system_state_PAUSED_rejected :
  set_system_state "PAUSED" empty =
    Raise (Exn ValueError "State must be either 'PAUSE' or 'RUNNING'") /\
  ~ (exists R', set_system_state "PAUSED" empty = Ok R').
Proof. split; [reflexivity|]. intros [R' H]. discriminate H. Qed.

End RunState.

(** ** The extraction engine (parser.py) *)

Module EngineProps.
Import Engine EngineExamples.

Example example_tree : Html.tree_builder example_html = Ok example_soup.
Proof. vm_compute. reflexivity. Qed.

Example example_trimmed :
  _trim_soup Html.select (ParserConfig.parameters example_config) example_soup
  = Ok [Tag 1 "html" [] [Tag 2 "body" [] [Tag 4 "main" [] [Tag 5 "p" [] [Str NavigableString "Hello"]]]]].
Proof. vm_compute. reflexivity. Qed.

(** C5. On the document
    [<html><body><nav>X</nav><main><p>Hello</p><script>bad</script></main></body></html>]
    with [root=["main"]], [drop=["script"]] and empty [keep] and [unwrap],
    [Parser.parse] returns exactly ["Hello"]. *)
Theorem parse_example :
  parse Html.select Html.tree_builder example_config example_html = Ok "Hello".
Proof. vm_compute. reflexivity. Qed.

(** The cleaning and the serialization on a tree with a hidden element, a
    style sheet and a line break: the texts come out stripped and joined by
    one space, the newline that stands for the break included. *)
Example soup_to_text_cleans :
  _soup_to_text
    [Tag 1 "html" []
       [Tag 2 "body" []
          [Tag 3 "div" []
             [Str NavigableString "  Hello"; Tag 4 "br" [] [];
              Str NavigableString "World  ";
              Tag 5 "p" [("hidden", EmptyString)] [Str NavigableString "secret"]];
           Tag 6 "style" [] [Str Stylesheet "p { color: red }"];
           Tag 7 "span" [("style", "color:red;display:none")]
               [Str NavigableString "unseen"]]]]
  = "Hello World".
Proof. vm_compute. reflexivity. Qed.

(** Unwrapping promotes the children of the matching elements. *)
Example unwrap_promotes :
  _trim_soup Html.select (ParserParameters.mk [] [] [] ["main"]) example_soup
  = Ok [Tag 1 "html" []
          [Tag 2 "body" []
             [Tag 3 "nav" [] [Str NavigableString "X"];
              Tag 5 "p" [] [Str NavigableString "Hello"];
              Tag 6 "script" [] [Str Script "bad"]]]].
Proof. vm_compute. reflexivity. Qed.

Section Restriction.
Variable select : string -> soup -> result (list nat).

Lemma select_all_no_match (selectors : list string) (s : soup) :
  (forall sel, sel ∈ selectors -> select sel s = Ok []) ->
  select_all select selectors s = Ok [].
Proof.
  induction selectors as [|sel rest IH]; intros Hnone; [reflexivity|].
  cbn. rewrite (Hnone sel) by apply list_elem_of_here. cbn.
  rewrite IH; [reflexivity|].
  intros sel' Hin. apply Hnone. by apply list_elem_of_further.
Qed.

Lemma root_step_unmatched (p : ParserParameters.t) (s : soup) :
  (forall sel, sel ∈ ParserParameters.root p -> select sel s = Ok []) ->
  root_step select p s = Ok s.
Proof.
  intros Hnone. unfold root_step.
  destruct (ParserParameters.root p) as [|sel rest] eqn:E; [reflexivity|].
  by rewrite (select_all_no_match _ _ Hnone).
Qed.

Lemma keep_step_unmatched (p : ParserParameters.t) (s : soup) :
  (forall sel, sel ∈ ParserParameters.keep p -> select sel s = Ok []) ->
  keep_step select p s = Ok s.
Proof.
  intros Hnone. unfold keep_step.
  destruct (ParserParameters.keep p) as [|sel rest] eqn:E; [reflexivity|].
  by rewrite (select_all_no_match _ _ Hnone).
Qed.

(** C10. When the [root] selectors match no element the root restriction
    returns the document as it was, and so does the keep restriction
    when the [keep] selectors match no element: nothing is pruned down
    to html/head/body. *)
Theorem unmatched_restriction_passes (p : ParserParameters.t) (s : soup) :
  ((forall sel, sel ∈ ParserParameters.root p -> select sel s = Ok []) ->
   root_step select p s = Ok s) /\
  ((forall sel, sel ∈ ParserParameters.keep p -> select sel s = Ok []) ->
   keep_step select p s = Ok s).
Proof. split; [apply root_step_unmatched | apply keep_step_unmatched]. Qed.

(** With nothing to drop or unwrap either, [_trim_soup] as a whole is
    the identity. *)
Lemma trim_soup_unmatched (p : ParserParameters.t) (s : soup) :
  (forall sel, sel ∈ ParserParameters.root p -> select sel s = Ok []) ->
  (forall sel, sel ∈ ParserParameters.keep p -> select sel s = Ok []) ->
  ParserParameters.drop p = [] -> ParserParameters.unwrap p = [] ->
  _trim_soup select p s = Ok s.
Proof.
  intros Hroot Hkeep Hdrop Hunwrap. unfold _trim_soup.
  rewrite (root_step_unmatched _ _ Hroot). cbn. unfold drop_step, unwrap_step.
  rewrite Hdrop, Hunwrap. cbn. exact (keep_step_unmatched _ _ Hkeep).
Qed.
End Restriction.

Lemma unmatched_restriction_passes_witness :
  root_step Html.select unmatched_params example_soup = Ok example_soup /\
  keep_step Html.select unmatched_params example_soup = Ok example_soup.
Proof.
  destruct (unmatched_restriction_passes Html.select unmatched_params example_soup)
    as [Hr Hk].
  split.
  - apply Hr. intros sel Hin. cbn in Hin.
    rewrite !elem_of_cons, elem_of_nil in Hin.
    destruct Hin as [-> | [-> | []]]; reflexivity.
  - apply Hk. intros sel Hin. cbn in Hin.
    rewrite !elem_of_cons, elem_of_nil in Hin.
    destruct Hin as [-> | []]; reflexivity.
Defined.

(** By contrast a root that does match prunes the rest of the body. *)
Example matched_root_prunes :
  root_step Html.select (ParserParameters.mk ["main"] [] [] []) example_soup
  = Ok [Tag 1 "html" []
          [Tag 2 "body" []
             [Tag 4 "main" []
                [Tag 5 "p" [] [Str NavigableString "Hello"];
                 Tag 6 "script" [] [Str Script "bad"]]]]].
Proof. vm_compute. reflexivity. Qed.

End EngineProps.

(** ** Facts on the string functions *)

Module StrFacts.
Import Py Urllib.

Lemma app_cons (c : ascii) (a b : string) :
  String c a +:+ b = String c (a +:+ b).
Proof. reflexivity. Qed.

Lemma app_nil_l (b : string) : EmptyString +:+ b = b.
Proof. reflexivity. Qed.

Ltac str := rewrite ?app_cons, ?app_nil_l in *; cbn in *.

Lemma ascii_eqb_refl (c : ascii) : ascii_eqb c c = true.
Proof. apply Ascii.eqb_refl. Qed.

Lemma all_chars_app (f : ascii -> bool) (a b : string) :
  all_chars f (a +:+ b) = all_chars f a && all_chars f b.
Proof.
  induction a as [|c a IH]; str; [reflexivity|].
  rewrite IH. apply andb_assoc.
Qed.

Lemma all_chars_impl (f g : ascii -> bool) (s : string) :
  (forall c, f c = true -> g c = true) ->
  all_chars f s = true -> all_chars g s = true.
Proof.
  intros Hfg. induction s as [|c s IH]; cbn; [done|].
  intros [Hc Hs]%andb_true_iff. rewrite (Hfg _ Hc), (IH Hs). reflexivity.
Qed.

Lemma mem_char_false_all (c : ascii) (s : string) :
  all_chars (fun d => negb (ascii_eqb c d)) s = true -> mem_char c s = false.
Proof.
  induction s as [|d s IH]; cbn; [done|].
  intros [Hd Hs]%andb_true_iff. rewrite (IH Hs).
  by destruct (ascii_eqb c d).
Qed.

Lemma partition_none (c : ascii) (s : string) :
  mem_char c s = false -> partition c s = None.
Proof.
  induction s as [|d s IH]; cbn; [done|].
  destruct (ascii_eqb c d); cbn; [done|]. intros H. by rewrite (IH H).
Qed.

Lemma partition_first (c : ascii) (a b : string) :
  mem_char c a = false -> partition c (a +:+ String c b) = Some (a, b).
Proof.
  induction a as [|d a IH]; str.
  - intros _. by rewrite ascii_eqb_refl.
  - destruct (ascii_eqb c d); cbn; [done|]. intros H. by rewrite (IH H).
Qed.

Lemma span_app (f : ascii -> bool) (a b : string) :
  all_chars f a = true ->
  match b with EmptyString => True | String c _ => f c = false end ->
  span f (a +:+ b) = (a, b).
Proof.
  intros Ha Hb. induction a as [|c a IH]; str.
  - destruct b as [|c b]; cbn; [done|]. by rewrite Hb.
  - apply andb_true_iff in Ha as [Hc Ha]. by rewrite Hc, (IH Ha).
Qed.

Lemma filter_chars_id (f : ascii -> bool) (s : string) :
  all_chars f s = true -> filter_chars f s = s.
Proof.
  induction s as [|c s IH]; cbn; [done|].
  intros [Hc Hs]%andb_true_iff. by rewrite Hc, (IH Hs).
Qed.

Lemma lower_app (a b : string) : lower (a +:+ b) = lower a +:+ lower b.
Proof. induction a as [|c a IH]; str; [done|]. by rewrite IH. Qed.

Lemma lower_char_idem (c : ascii) : lower_char (lower_char c) = lower_char c.
Proof.
  destruct c as [[] [] [] [] [] [] [] []]; vm_compute; reflexivity.
Qed.

Lemma lower_idem (s : string) : lower (lower s) = lower s.
Proof. induction s as [|c s IH]; cbn; [done|]. by rewrite lower_char_idem, IH. Qed.

Lemma lower_skip (n : nat) (s : string) : lower (skip n s) = skip n (lower s).
Proof.
  revert s. induction n as [|n IH]; intros [|c s]; cbn; try done.
Qed.

Lemma all_chars_skip (f : ascii -> bool) (n : nat) (s : string) :
  all_chars f s = true -> all_chars f (skip n s) = true.
Proof.
  revert s. induction n as [|n IH]; intros [|c s]; cbn; try done.
  intros [_ Hs]%andb_true_iff. by apply IH.
Qed.

Lemma all_chars_drop_last (f : ascii -> bool) (s : string) :
  all_chars f s = true -> all_chars f (drop_last s) = true.
Proof.
  induction s as [|c s IH]; cbn; [done|].
  intros [Hc Hs]%andb_true_iff. destruct s as [|d s]; [done|].
  change (f c && all_chars f (drop_last (String d s)) = true).
  by rewrite Hc, (IH Hs).
Qed.

Lemma all_chars_lower (f : ascii -> bool) (s : string) :
  all_chars (fun c => f (lower_char c)) s = all_chars f (lower s).
Proof. induction s as [|c s IH]; cbn; [done|]. by rewrite IH. Qed.

Lemma startswith_app (s p : string) :
  startswith s p = true -> s = p +:+ skip (String.length p) s.
Proof.
  revert s. induction p as [|a p IH]; intros s; str; [done|].
  destruct s as [|b s]; [done|].
  intros [Hab Hs]%andb_true_iff. apply Ascii.eqb_eq in Hab as ->.
  cbn. f_equal. by apply IH.
Qed.

Lemma startswith_prefix (p t : string) : startswith (p +:+ t) p = true.
Proof. induction p as [|a p IH]; str; [done|]. by rewrite ascii_eqb_refl. Qed.

Lemma startswith_app_l (s p q : string) :
  startswith s (p +:+ q) =
  startswith s p && startswith (skip (String.length p) s) q.
Proof.
  revert s. induction p as [|a p IH]; intros s; str; [done|].
  destruct s as [|b s]; cbn; [done|].
  rewrite IH. apply andb_assoc.
Qed.

(** A string without the first character of [sub] does not contain [sub]. *)
Lemma contains_false (s : string) (c : ascii) (sub : string) :
  mem_char c s = false -> contains s (String c sub) = false.
Proof.
  induction s as [|d s IH]; cbn; [done|].
  destruct (ascii_eqb c d) eqn:E; cbn; [done|]. by intros H; rewrite (IH H).
Qed.

Lemma endswith_cons (c : ascii) (s p : string) :
  String.length p <= String.length s ->
  endswith (String c s) p = endswith s p.
Proof.
  intros Hlen.
  change (endswith (String c s) p) with (String.eqb (String c s) p || endswith s p).
  destruct (String.eqb_spec (String c s) p) as [<-|_]; [|done].
  cbn in Hlen. lia.
Qed.

End StrFacts.

(** ** URL normalization *)

Module NormalizeProps.
Import Py Urllib Frontier StrFacts WebUrl.

(** Character facts, by enumeration. *)
Ltac by_cases_on_char c :=
  destruct c as [[] [] [] [] [] [] [] []]; vm_compute; try reflexivity; try discriminate.

Lemma lower_alpha (c : ascii) : is_lower (lower_char c) = true -> is_alpha c = true.
Proof. by_cases_on_char c. Qed.

Lemma alpha_scheme_char (c : ascii) :
  is_alpha c = true ->
  is_scheme_char c = true /\ ascii_eqb ":" c = false /\ is_unsafe c = false /\
  (nat_of_ascii c <=? 32)%nat = false.
Proof. by_cases_on_char c; intros _; repeat split. Qed.

Lemma host_char_facts (c : ascii) :
  host_char c = true ->
  mem_char c "/?#" = false /\ ascii_eqb "[" c = false /\ ascii_eqb "]" c = false /\
  ascii_eqb ":" c = false /\ is_unsafe c = false /\ host_char (lower_char c) = true.
Proof. by_cases_on_char c; intros _; repeat split. Qed.

Lemma path_char_facts (c : ascii) :
  path_char c = true ->
  ascii_eqb "#" c = false /\ ascii_eqb "?" c = false /\ ascii_eqb ";" c = false /\
  is_unsafe c = false.
Proof. by_cases_on_char c; intros _; repeat split. Qed.

Lemma all_alpha_of_lower (s : string) :
  all_chars is_lower (lower s) = true -> all_chars is_alpha s = true.
Proof.
  induction s as [|c s IH]; cbn; [done|].
  intros [Hc Hs]%andb_true_iff. by rewrite (lower_alpha _ Hc), (IH Hs).
Qed.

Lemma web_scheme_cases (s : string) :
  is_web_scheme s = true -> lower s = "http" \/ lower s = "https".
Proof.
  unfold is_web_scheme. intros H%bool_decide_eq_true_1.
  rewrite !elem_of_cons, elem_of_nil in H. tauto.
Qed.

Lemma web_scheme_alpha (s : string) :
  is_web_scheme s = true -> all_chars is_alpha s = true.
Proof.
  intros [H|H]%web_scheme_cases; apply all_alpha_of_lower; by rewrite H.
Qed.

Lemma web_scheme_nonempty (s : string) :
  is_web_scheme s = true -> exists c s', s = String c s'.
Proof.
  intros H. destruct s as [|c s']; [|by eauto].
  by apply web_scheme_cases in H as [H|H].
Qed.

Lemma web_scheme_lower (s : string) :
  is_web_scheme s = true -> is_web_scheme (lower s) = true.
Proof. unfold is_web_scheme. by rewrite lower_idem. Qed.

Lemma path_first_slash (c : ascii) (p : string) :
  negb (truthy (String c p)) || startswith (String c p) "/" = true -> c = "/"%char.
Proof.
  intros H. change (ascii_eqb "/" c && true = true) in H.
  rewrite andb_true_r in H. symmetry. by apply Ascii.eqb_eq.
Qed.

Lemma host_no_colon (h : string) : is_host h = true -> mem_char ":" h = false.
Proof.
  intros Hh. apply mem_char_false_all. eapply all_chars_impl; [|exact Hh].
  intros c Hc. by destruct (host_char_facts c Hc) as (_ & _ & _ & -> & _).
Qed.

Lemma is_host_lower (h : string) : is_host h = true -> is_host (lower h) = true.
Proof.
  unfold is_host. intros Hh. rewrite <- all_chars_lower.
  eapply all_chars_impl; [|exact Hh].
  intros c Hc. by destruct (host_char_facts c Hc) as (_ & _ & _ & _ & _ & ->).
Qed.

Lemma is_host_strip_www (h : string) : is_host h = true -> is_host (strip_www h) = true.
Proof.
  unfold strip_www, is_host. intros Hh.
  destruct (startswith h "www."); [by apply all_chars_skip|done].
Qed.

Lemma strip_www_lower (h : string) :
  lower (strip_www (lower h)) = strip_www (lower h).
Proof.
  unfold strip_www. destruct (startswith (lower h) "www.").
  - by rewrite lower_skip, lower_idem.
  - apply lower_idem.
Qed.

Lemma strip_www_once (h : string) :
  startswith h "www.www." = false -> strip_www (strip_www h) = strip_www h.
Proof.
  intros Hww. unfold strip_www at 2 3. destruct (startswith h "www.") eqn:Hw.
  - unfold strip_www. change "www.www." with ("www." +:+ "www.") in Hww.
    rewrite startswith_app_l, Hw, andb_true_l in Hww.
    change (String.length "www.") with 4 in Hww. by rewrite Hww.
  - unfold strip_www. by rewrite Hw.
Qed.

Lemma endswith_slash_twice (p : string) :
  endswith p "/" = true -> endswith (drop_last p) "/" = true ->
  endswith p "//" = true.
Proof.
  induction p as [|c p IH]; [done|].
  destruct p as [|d p]; [done|].
  change (drop_last (String c (String d p))) with (String c (drop_last (String d p))).
  change (endswith (String c (String d p)) "/")
    with (String.eqb (String c (String d p)) "/" || endswith (String d p) "/").
  change (endswith (String c (String d p)) "//")
    with (String.eqb (String c (String d p)) "//" || endswith (String d p) "//").
  change (endswith (String c (drop_last (String d p))) "/")
    with (String.eqb (String c (drop_last (String d p))) "/"
          || endswith (drop_last (String d p)) "/").
  destruct (String.eqb_spec (String c (String d p)) "/") as [?|_]; [done|].
  cbn [orb]. intros Hd Hlast.
  destruct (String.eqb_spec (String c (drop_last (String d p))) "/") as [E|_].
  - injection E as -> E. destruct p as [|e p]; [|done].
    cbn in Hd. rewrite orb_false_r in Hd.
    destruct (Ascii.eqb_spec d "/") as [->|_]; [reflexivity|discriminate Hd].
  - cbn [orb] in Hlast. rewrite (IH Hd Hlast). apply orb_true_r.
Qed.

Lemma strip_slash_once (p : string) :
  endswith p "//" = false -> strip_slash (strip_slash p) = strip_slash p.
Proof.
  intros Hss. unfold strip_slash at 2 3.
  destruct (negb (String.eqb p "/") && endswith p "/") eqn:E; [|unfold strip_slash; by rewrite E].
  apply andb_true_iff in E as [_ Hend].
  unfold strip_slash. destruct (endswith (drop_last p) "/") eqn:E2.
  - by rewrite (endswith_slash_twice _ Hend E2) in Hss.
  - by rewrite andb_false_r.
Qed.

Lemma is_path_strip_slash (p : string) : is_path p = true -> is_path (strip_slash p) = true.
Proof.
  unfold strip_slash. destruct (negb (String.eqb p "/") && endswith p "/"); [|done].
  unfold is_path. intros [Hc H0]%andb_true_iff.
  rewrite (all_chars_drop_last _ _ Hc). cbn [andb].
  destruct p as [|c p]; [done|].
  rewrite (path_first_slash _ _ H0). by destruct p.
Qed.

(** *** Percent coding *)

Lemma quote_plus_cons (c : ascii) (s : string) :
  quote_plus (String c s) = quote_plus (String c EmptyString) +:+ quote_plus s.
Proof.
  cbn. destruct (ascii_eqb c " "); [reflexivity|].
  destruct (always_safe c); reflexivity.
Qed.

Lemma quote_plus_char (c : ascii) :
  all_chars enc_char (quote_plus (String c EmptyString)) = true.
Proof. destruct c as [[] [] [] [] [] [] [] []]; vm_compute; reflexivity. Qed.

Lemma quote_plus_chars (s : string) : all_chars enc_char (quote_plus s) = true.
Proof.
  induction s as [|c s IH]; [reflexivity|].
  by rewrite quote_plus_cons, all_chars_app, quote_plus_char, IH.
Qed.

Lemma quote_plus_truthy (s : string) : truthy s = true -> truthy (quote_plus s) = true.
Proof.
  destruct s as [|c s]; [done|]. intros _. cbn.
  destruct (ascii_eqb c " "); [reflexivity|]. by destruct (always_safe c).
Qed.

Lemma plus_to_space_cons (c : ascii) (s : string) :
  plus_to_space (String c s)
  = String (if ascii_eqb "+" c then " "%char else c) (plus_to_space s).
Proof.
  change (plus_to_space (String c s))
    with (if ascii_eqb "+" c && true
          then " " +:+ plus_to_space s else String c (plus_to_space s)).
  rewrite andb_true_r. by destruct (ascii_eqb "+" c).
Qed.

Lemma decode_char (c : ascii) (t : string) :
  unquote (plus_to_space (quote_plus (String c EmptyString) +:+ t))
  = String c (unquote (plus_to_space t)).
Proof.
  destruct c as [[] [] [] [] [] [] [] []];
    (repeat (rewrite ?app_cons, ?app_nil_l, ?plus_to_space_cons; cbn)); reflexivity.
Qed.

(** Decoding undoes encoding. *)
Lemma unquote_quote_plus (s : string) : unquote (plus_to_space (quote_plus s)) = s.
Proof.
  induction s as [|c s IH]; [reflexivity|].
  by rewrite quote_plus_cons, decode_char, IH.
Qed.

(** *** Splitting and joining *)

Lemma split_no_sep (c : ascii) (p : string) :
  mem_char c p = false -> split c p = [p].
Proof.
  induction p as [|d p IH]; [done|]. cbn [mem_char split].
  destruct (ascii_eqb c d); [done|]. cbn [orb]. intros H. by rewrite (IH H).
Qed.

Lemma split_app_sep (c : ascii) (p x : string) :
  mem_char c p = false -> split c (p +:+ String c x) = p :: split c x.
Proof.
  induction p as [|d p IH]; rewrite ?app_cons, ?app_nil_l; cbn [mem_char split].
  - intros _. by rewrite ascii_eqb_refl.
  - destruct (ascii_eqb c d); [done|]. cbn [orb]. intros H. by rewrite (IH H).
Qed.

Lemma split_join (c : ascii) (pieces : list string) :
  pieces <> [] -> (forall p, p ∈ pieces -> mem_char c p = false) ->
  split c (join (String c EmptyString) pieces) = pieces.
Proof.
  induction pieces as [|p rest IH]; [done|]. intros _ Hsep.
  destruct rest as [|q rest].
  - cbn. apply split_no_sep, Hsep, list_elem_of_here.
  - change (join (String c EmptyString) (p :: q :: rest))
      with (p +:+ String c (join (String c EmptyString) (q :: rest))).
    rewrite split_app_sep by apply Hsep, list_elem_of_here.
    f_equal. apply IH; [done|]. intros p' Hin. by apply Hsep, list_elem_of_further.
Qed.

(** *** Decoding an encoded query *)

Lemma enc_char_facts (c : ascii) :
  enc_char c = true ->
  ascii_eqb "=" c = false /\ ascii_eqb "&" c = false /\ ascii_eqb "#" c = false /\
  is_unsafe c = false.
Proof.
  destruct c as [[] [] [] [] [] [] [] []]; vm_compute; try discriminate;
    intros _; repeat split.
Qed.

Lemma urlencode_join (pairs : list (string * string)) :
  urlencode pairs = join "&" (List.map encode_pair pairs).
Proof.
  unfold urlencode. f_equal. apply map_ext. by intros [k v].
Qed.

Lemma quote_plus_no (c : ascii) (s : string) :
  (forall d, enc_char d = true -> ascii_eqb c d = false) ->
  mem_char c (quote_plus s) = false.
Proof.
  intros Hc. apply mem_char_false_all.
  eapply all_chars_impl; [|apply quote_plus_chars].
  intros d Hd. by rewrite (Hc d Hd).
Qed.

Lemma mem_char_app (c : ascii) (a b : string) :
  mem_char c (a +:+ b) = mem_char c a || mem_char c b.
Proof.
  induction a as [|d a IH]; rewrite ?app_cons, ?app_nil_l; cbn [mem_char]; [done|].
  rewrite IH. apply orb_assoc.
Qed.

Lemma encode_pair_no_amp (kv : string * string) : mem_char "&" (encode_pair kv) = false.
Proof.
  unfold encode_pair. rewrite !mem_char_app.
  rewrite !(quote_plus_no "&"); [reflexivity| |];
    intros d Hd; by destruct (enc_char_facts d Hd) as (_ & -> & _).
Qed.

Lemma parse_qsl_fields (qs : string) :
  parse_qsl qs = flat_map read_field (split "&" qs).
Proof. reflexivity. Qed.

Lemma decode_pair (k v : string) :
  truthy v = true -> read_field (encode_pair (k, v)) = [(k, v)].
Proof.
  intros Hv. unfold read_field, encode_pair. cbn [fst snd].
  change (quote_plus k +:+ "=" +:+ quote_plus v)
    with (quote_plus k +:+ String "=" (quote_plus v)).
  rewrite partition_first.
  2:{ apply quote_plus_no. intros d Hd. by destruct (enc_char_facts d Hd) as (-> & _). }
  rewrite (quote_plus_truthy _ Hv), !unquote_quote_plus.
  by destruct (quote_plus k).
Qed.

Lemma decode_pairs (pairs : list (string * string)) :
  (forall kv, kv ∈ pairs -> truthy (snd kv) = true) ->
  flat_map read_field (List.map encode_pair pairs) = pairs.
Proof.
  induction pairs as [|[k v] pairs IH]; intros Hvalues; [reflexivity|].
  cbn [List.map flat_map].
  rewrite (decode_pair k v) by apply (Hvalues (k, v)), list_elem_of_here.
  cbn [app]. f_equal. apply IH. intros kv Hin. by apply Hvalues, list_elem_of_further.
Qed.

(** [parse_qsl] reads back the pairs that [urlencode] wrote, provided no
    value is empty. *)
Lemma parse_qsl_urlencode (pairs : list (string * string)) :
  (forall kv, kv ∈ pairs -> truthy (snd kv) = true) ->
  parse_qsl (urlencode pairs) = pairs.
Proof.
  intros Hvalues. rewrite urlencode_join, parse_qsl_fields.
  destruct (decide (pairs = [])) as [->|Hne]; [reflexivity|].
  rewrite split_join.
  - by apply decode_pairs.
  - by destruct pairs.
  - intros p [kv [-> _]]%list_elem_of_fmap. apply encode_pair_no_amp.
Qed.

(** *** Sorting the parameters *)

Lemma pair_leb_total (x y : string * string) :
  pair_leb x y = false -> pair_leb y x = true.
Proof.
  unfold pair_leb. rewrite (String.compare_antisym (fst y) (fst x)),
    (String.compare_antisym (snd y) (snd x)).
  destruct (String.compare (fst x) (fst y)); cbn; try done.
  by destruct (String.compare (snd x) (snd y)).
Qed.

Lemma insert_sorted_sorted (x : string * string) (l : list (string * string)) :
  sorted l = true -> sorted (insert_sorted x l) = true.
Proof.
  induction l as [|y l IH]; [done|]. intros Hl.
  cbn [insert_sorted]. destruct (pair_leb x y) eqn:Exy.
  - change (pair_leb x y && sorted (y :: l) = true). by rewrite Exy, Hl.
  - assert (Hl' : sorted l = true).
    { destruct l; [done|]. by apply andb_true_iff in Hl as [_ ?]. }
    specialize (IH Hl').
    destruct l as [|z l]; cbn [insert_sorted] in *.
    + cbn. by rewrite (pair_leb_total _ _ Exy).
    + destruct (pair_leb x z) eqn:Exz.
      * change (pair_leb y x && sorted (x :: z :: l) = true).
        by rewrite (pair_leb_total _ _ Exy), IH.
      * change (pair_leb y z && sorted (z :: insert_sorted x l) = true).
        apply andb_true_iff in Hl as [-> _]. by rewrite IH.
Qed.

Lemma sort_pairs_sorted (l : list (string * string)) : sorted (sort_pairs l) = true.
Proof.
  induction l as [|x l IH]; [done|]. cbn. by apply insert_sorted_sorted.
Qed.

Lemma sort_pairs_fixed (l : list (string * string)) :
  sorted l = true -> sort_pairs l = l.
Proof.
  induction l as [|x l IH]; [done|]. intros Hl.
  destruct l as [|y l]; [done|].
  change (sort_pairs (x :: y :: l)) with (insert_sorted x (sort_pairs (y :: l))).
  apply andb_true_iff in Hl as [Hxy Hl]. rewrite (IH Hl). cbn. by rewrite Hxy.
Qed.

Lemma elem_of_insert_sorted (z x : string * string) (l : list (string * string)) :
  z ∈ insert_sorted x l -> z = x \/ z ∈ l.
Proof.
  induction l as [|y l IH]; cbn.
  - intros ->%list_elem_of_singleton. by left.
  - destruct (pair_leb x y).
    + intros [->|H]%elem_of_cons; auto.
    + intros [->|H]%elem_of_cons; [right; apply list_elem_of_here|].
      destruct (IH H) as [->|?]; auto using list_elem_of_further.
Qed.

Lemma elem_of_sort_pairs (z : string * string) (l : list (string * string)) :
  z ∈ sort_pairs l -> z ∈ l.
Proof.
  induction l as [|x l IH]; cbn; [done|].
  intros [->|H]%elem_of_insert_sorted; [apply list_elem_of_here|].
  by apply list_elem_of_further, IH.
Qed.

(** *** Grouping the parameters by name *)

Lemma klt_trans (a b c : string) : klt a b -> klt b c -> klt a c.
Proof.
  unfold klt. fold (String_as_OT.cmp a b) (String_as_OT.cmp b c) (String_as_OT.cmp a c).
  rewrite !String_as_OT.cmp_lt. apply String_as_OT.lt_trans.
Qed.

Lemma klt_neq (a b : string) : klt a b -> a <> b.
Proof.
  unfold klt. fold (String_as_OT.cmp a b). rewrite String_as_OT.cmp_lt.
  apply String_as_OT.lt_not_eq.
Qed.

Lemma parse_qs_group (qs : string) : parse_qs qs = foldl add_pair [] (parse_qsl qs).
Proof.
  unfold parse_qs. generalize (@nil (string * list string)).
  induction (parse_qsl qs) as [|[n v] l IH]; intros d; [reflexivity|]. apply IH.
Qed.

Lemma flatten_app (d1 d2 : list (string * list string)) :
  flatten (d1 ++ d2) = flatten d1 ++ flatten d2.
Proof. unfold flatten. apply flat_map_app. Qed.

Lemma dict_append_new (k v : string) (d : list (string * list string)) :
  k ∉ fst <$> d -> dict_append k v d = d ++ [(k, [v])].
Proof.
  induction d as [|[k' vs] d IH]; [done|]. cbn. intros Hk.
  destruct (String.eqb_spec k' k) as [->|_].
  - exfalso. apply Hk, list_elem_of_here.
  - f_equal. apply IH. intros Hin. by apply Hk, list_elem_of_further.
Qed.

Lemma dict_append_last (k v : string) (d : list (string * list string))
      (vs : list string) :
  k ∉ fst <$> d -> dict_append k v (d ++ [(k, vs)]) = d ++ [(k, vs ++ [v])].
Proof.
  induction d as [|[k' vs'] d IH]; cbn; intros Hk.
  - by rewrite String.eqb_refl.
  - destruct (String.eqb_spec k' k) as [->|_].
    + exfalso. apply Hk, list_elem_of_here.
    + f_equal. apply IH. intros Hin. by apply Hk, list_elem_of_further.
Qed.

Lemma sorted_tail (x : string * string) (l : list (string * string)) :
  sorted (x :: l) = true -> sorted l = true /\ starts_from (fst x) l.
Proof.
  destruct l as [|y l]; [done|]. intros [Hxy Hl]%andb_true_iff. split; [done|].
  cbn. unfold pair_leb in Hxy. by destruct (String.compare (fst x) (fst y)).
Qed.

(** Adding sorted pairs to a dictionary whose names are sorted, the last
    one not above them, appends them to its pairs. *)
Lemma group_sorted (l : list (string * string)) :
  forall (d : list (string * list string)) (k : string) (vs : list string),
    sorted l = true -> starts_from k l ->
    (forall k', k' ∈ fst <$> d -> klt k' k) ->
    flatten (foldl add_pair (d ++ [(k, vs)]) l) = flatten (d ++ [(k, vs)]) ++ l.
Proof.
  induction l as [|[n v] l IH]; intros d k vs Hsorted Hfrom Hbelow.
  - by rewrite app_nil_r.
  - destruct (sorted_tail _ _ Hsorted) as [Hl Hnext]. cbn [fst] in Hnext, Hfrom.
    cbn [foldl]. unfold add_pair at 2. cbn [fst snd].
    destruct (String.compare k n) eqn:Ekn; [| |done].
    + apply String.compare_eq_iff in Ekn as <-.
      rewrite dict_append_last.
      2:{ intros Hin. by apply (klt_neq _ _ (Hbelow _ Hin)). }
      rewrite (IH d k (vs ++ [v]) Hl Hnext Hbelow).
      rewrite !flatten_app. cbn. rewrite !app_nil_r, map_app. cbn.
      by rewrite <- !app_assoc.
    + rewrite dict_append_new.
      2:{ rewrite fmap_app. intros [Hin|Hin%list_elem_of_singleton]%elem_of_app.
          - by apply (klt_neq _ _ (klt_trans _ _ _ (Hbelow _ Hin) Ekn)).
          - cbn in Hin. subst n. by apply (klt_neq _ _ Ekn). }
      rewrite (IH (d ++ [(k, vs)]) n [v] Hl Hnext).
      * rewrite !flatten_app. cbn. by rewrite !app_nil_r, <- !app_assoc.
      * intros k'. rewrite fmap_app.
        intros [Hin|Hin%list_elem_of_singleton]%elem_of_app.
        -- exact (klt_trans _ _ _ (Hbelow _ Hin) Ekn).
        -- cbn in Hin. by subst k'.
Qed.

Lemma group_flatten (l : list (string * string)) :
  sorted l = true -> flatten (foldl add_pair [] l) = l.
Proof.
  destruct l as [|[n v] l]; [done|]. intros Hsorted.
  destruct (sorted_tail _ _ Hsorted) as [Hl Hnext].
  change (foldl add_pair [] ((n, v) :: l)) with (foldl add_pair ([] ++ [(n, [v])]) l).
  rewrite (group_sorted l [] n [v] Hl Hnext); [reflexivity|].
  intros k' Hin. by apply elem_of_nil in Hin.
Qed.

(** *** The query of a normalized URL *)

Lemma filter_params_kept (d : list (string * list string)) (kv : string * string) :
  kv ∈ filter_params d -> kept kv.
Proof.
  induction d as [|[key values] d IH]; cbn; [by intros ?%elem_of_nil|].
  intros [Hin|Hin]%elem_of_app; [|by apply IH].
  destruct (bool_decide (lower key ∈ tracking_params)) eqn:Etrack;
    [by apply elem_of_nil in Hin|].
  apply list_elem_of_fmap in Hin as (v & -> & Hv).
  apply list_elem_of_In, filter_In in Hv as [_ Hv]. by split.
Qed.

Lemma filter_all {A} (f : A -> bool) (l : list A) :
  (forall x, x ∈ l -> f x = true) -> List.filter f l = l.
Proof.
  induction l as [|x l IH]; [done|]. intros Hall. cbn.
  rewrite (Hall x) by apply list_elem_of_here. f_equal.
  apply IH. intros y Hy. by apply Hall, list_elem_of_further.
Qed.

Lemma filter_params_flatten (d : list (string * list string)) :
  (forall kv, kv ∈ flatten d -> kept kv) -> filter_params d = flatten d.
Proof.
  induction d as [|[key values] d IH]; [done|]. intros Hkept.
  change (filter_params ((key, values) :: d))
    with ((if bool_decide (lower key ∈ tracking_params) then []
           else List.map (fun v => (key, v))
                         (List.filter (fun v => truthy (strip v)) values))
          ++ filter_params d).
  change (flatten ((key, values) :: d)) with (List.map (pair key) values ++ flatten d).
  change (flatten ((key, values) :: d))
    with (List.map (pair key) values ++ flatten d) in Hkept.
  rewrite IH by (intros kv Hin; apply Hkept, elem_of_app; by right).
  f_equal. destruct values as [|v values]; [by destruct (bool_decide _)|].
  destruct (Hkept (key, v)) as [Htrack _];
    [apply elem_of_app; left; apply list_elem_of_here|].
  cbn [fst] in Htrack. rewrite Htrack.
  rewrite filter_all; [done|].
  intros v' Hv'. apply (Hkept (key, v')), elem_of_app. left.
  apply list_elem_of_fmap. eauto.
Qed.

Lemma query_pairs_sorted (q : string) : sorted (query_pairs q) = true.
Proof. unfold query_pairs. destruct (truthy q); [apply sort_pairs_sorted|done]. Qed.

Lemma query_pairs_kept (q : string) (kv : string * string) :
  kv ∈ query_pairs q -> kept kv.
Proof.
  unfold query_pairs. destruct (truthy q); [|by intros ?%elem_of_nil].
  intros Hin%elem_of_sort_pairs. by eapply filter_params_kept.
Qed.

Lemma kept_value (kv : string * string) : kept kv -> truthy (snd kv) = true.
Proof. intros [_ Hv]. by destruct (snd kv). Qed.

(** The retained parameters are read back unchanged from their encoding. *)
Lemma query_pairs_urlencode (l : list (string * string)) :
  sorted l = true -> (forall kv, kv ∈ l -> kept kv) ->
  query_pairs (urlencode l) = l.
Proof.
  intros Hsorted Hkept. unfold query_pairs.
  destruct (truthy (urlencode l)) eqn:E.
  - rewrite parse_qs_group, parse_qsl_urlencode
      by (intros kv Hin; by apply kept_value, Hkept).
    rewrite filter_params_flatten; rewrite (group_flatten _ Hsorted); [|done].
    by apply sort_pairs_fixed.
  - destruct l as [|[k v] l]; [done|]. exfalso.
    rewrite urlencode_join in E. cbn [List.map] in E.
    assert (Hpiece : truthy (encode_pair (k, v)) = true).
    { unfold encode_pair. cbn [fst snd]. by destruct (quote_plus k). }
    destruct (encode_pair (k, v)) as [|c piece]; [done|].
    destruct l; cbn in E; [done|]. by rewrite app_cons in E.
Qed.

Lemma app_assoc_s (a b c : string) : (a +:+ b) +:+ c = a +:+ (b +:+ c).
Proof. induction a as [|x a IH]; rewrite ?app_cons, ?app_nil_l; [done|]. by rewrite IH. Qed.

Lemma app_nil_r_s (a : string) : a +:+ EmptyString = a.
Proof. induction a as [|x a IH]; rewrite ?app_cons, ?app_nil_l; [done|]. by rewrite IH. Qed.

Lemma query_char_facts (c : ascii) :
  query_char c = true -> ascii_eqb "#" c = false /\ is_unsafe c = false.
Proof.
  unfold query_char. intros [H1 H2]%andb_true_iff.
  by apply negb_true_iff in H1, H2.
Qed.

Lemma is_query_suffix (oq : option string) :
  is_query (default EmptyString oq) = true ->
  all_chars query_char (query_suffix oq) = true.
Proof. destruct oq as [q|]; [|done]. intros Hq. cbn. exact Hq. Qed.

(** [urlparse] on a web URL gives back its parts. *)
Lemma urlparse_web (s h p : string) (oq : option string) :
  is_web_scheme s = true -> is_host h = true -> is_path p = true ->
  is_query (default EmptyString oq) = true ->
  urlparse (web_url s h p oq)
  = Ok (mkParseResult (lower s) h p EmptyString (default EmptyString oq) EmptyString).
Proof.
  intros Hs Hh Hp Hq.
  pose proof (web_scheme_alpha _ Hs) as Halpha.
  destruct (web_scheme_nonempty _ Hs) as (c0 & s' & ->).
  apply andb_true_iff in Hp as [Hpc Hp0].
  pose proof (is_query_suffix _ Hq) as Hsuffix.
  assert (Hsafe : all_chars (fun c => negb (is_unsafe c))
                            (web_url (String c0 s') h p oq) = true).
  { unfold web_url. rewrite !all_chars_app, !andb_true_iff.
    split; [|split; [|split; [|split]]].
    - eapply all_chars_impl; [|exact Halpha].
      intros c Hc. by destruct (alpha_scheme_char c Hc) as (_ & _ & -> & _).
    - reflexivity.
    - eapply all_chars_impl; [|exact Hh].
      intros c Hc. by destruct (host_char_facts c Hc) as (_ & _ & _ & _ & -> & _).
    - eapply all_chars_impl; [|exact Hpc].
      intros c Hc. by destruct (path_char_facts c Hc) as (_ & _ & _ & ->).
    - eapply all_chars_impl; [|exact Hsuffix].
      intros c Hc. by destruct (query_char_facts c Hc) as (_ & ->). }
  assert (Hc0 : is_alpha c0 = true).
  { cbn in Halpha. by apply andb_true_iff in Halpha as [? _]. }
  unfold urlparse, urlsplit.
  (* nothing to strip on the left, nothing unsafe to remove *)
  replace (lstrip_c0 (web_url (String c0 s') h p oq))
    with (web_url (String c0 s') h p oq).
  2:{ unfold web_url. rewrite app_cons. cbn.
      by destruct (alpha_scheme_char c0 Hc0) as (_ & _ & _ & ->). }
  rewrite (filter_chars_id _ _ Hsafe).
  (* the scheme *)
  assert (Hsplit : split_scheme (web_url (String c0 s') h p oq)
                   = (lower (String c0 s'), "//" +:+ h +:+ p +:+ query_suffix oq)).
  { unfold split_scheme, web_url.
    change (String c0 s' +:+ "://" +:+ h +:+ p +:+ query_suffix oq)
      with (String c0 s' +:+ String ":" ("//" +:+ h +:+ p +:+ query_suffix oq)).
    rewrite partition_first.
    - rewrite Hc0. cbn [andb].
      replace (all_chars is_scheme_char (String c0 s')) with true; [done|].
      symmetry. eapply all_chars_impl; [|exact Halpha].
      intros c Hc. by destruct (alpha_scheme_char c Hc) as (-> & _).
    - apply mem_char_false_all. eapply all_chars_impl; [|exact Halpha].
      intros c Hc. by destruct (alpha_scheme_char c Hc) as (_ & -> & _). }
  rewrite Hsplit.
  (* the network location *)
  change (startswith ("//" +:+ h +:+ p +:+ query_suffix oq) "//") with true. cbn iota.
  unfold _splitnetloc.
  change (skip 2 ("//" +:+ h +:+ p +:+ query_suffix oq))
    with (h +:+ p +:+ query_suffix oq).
  rewrite (span_app _ h (p +:+ query_suffix oq)).
  2:{ eapply all_chars_impl; [|exact Hh].
      intros c Hc. by destruct (host_char_facts c Hc) as (-> & _). }
  2:{ destruct p as [|c p].
      - rewrite app_nil_l. by destruct oq.
      - rewrite app_cons. by rewrite (path_first_slash _ _ Hp0). }
  assert (Hopen : mem_char "[" h = false).
  { apply mem_char_false_all. eapply all_chars_impl; [|exact Hh].
    intros c Hc. by destruct (host_char_facts c Hc) as (_ & -> & _). }
  assert (Hclose : mem_char "]" h = false).
  { apply mem_char_false_all. eapply all_chars_impl; [|exact Hh].
    intros c Hc. by destruct (host_char_facts c Hc) as (_ & _ & -> & _). }
  unfold check_brackets. rewrite Hopen, Hclose. cbn [andb orb negb bind].
  (* no fragment *)
  rewrite (partition_none "#" (p +:+ query_suffix oq)).
  2:{ apply mem_char_false_all. rewrite all_chars_app. apply andb_true_iff. split.
      - eapply all_chars_impl; [|exact Hpc].
        intros c Hc. by destruct (path_char_facts c Hc) as (-> & _).
      - eapply all_chars_impl; [|exact Hsuffix].
        intros c Hc. by destruct (query_char_facts c Hc) as (-> & _). }
  (* the query, no parameters *)
  assert (Hnoq : mem_char "?" p = false).
  { apply mem_char_false_all. eapply all_chars_impl; [|exact Hpc].
    intros c Hc. by destruct (path_char_facts c Hc) as (_ & -> & _). }
  assert (Hnosemi : mem_char ";" p = false).
  { apply mem_char_false_all. eapply all_chars_impl; [|exact Hpc].
    intros c Hc. by destruct (path_char_facts c Hc) as (_ & _ & -> & _). }
  destruct oq as [q|]; cbn [query_suffix default].
  - change (p +:+ "?" +:+ q) with (p +:+ String "?" q).
    rewrite (partition_first "?" p q Hnoq). cbn [bind scheme path].
    by rewrite Hnosemi, andb_false_r.
  - rewrite app_nil_r_s, (partition_none "?" p Hnoq). cbn [bind scheme path].
    by rewrite Hnosemi, andb_false_r.
Qed.

(** A web URL is normalized part by part: the scheme and the host are
    lower-cased, one leading ["www."] and one trailing slash go, and the
    query is rewritten from the parameters that are kept. *)
Lemma normalize_web (s h p : string) (oq : option string) :
  is_web_scheme s = true -> is_host h = true -> is_path p = true ->
  is_query (default EmptyString oq) = true ->
  normalize_url (web_url s h p oq)
  = web_url (lower s) (strip_www (lower h)) (strip_slash p)
            (encoded (query_pairs (default EmptyString oq))).
Proof.
  intros Hs Hh Hp Hq. unfold normalize_url.
  rewrite (urlparse_web _ _ _ _ Hs Hh Hp Hq). cbn [scheme netloc path query].
  rewrite lower_idem. fold (strip_www (lower h)). fold (strip_slash p).
  fold (query_pairs (default EmptyString oq)).
  pose proof (host_no_colon _ (is_host_strip_www _ (is_host_lower _ Hh))) as Hcolon.
  rewrite !(contains_false _ ":" _ Hcolon), !andb_false_r.
  unfold web_url.
  destruct (query_pairs (default EmptyString oq)) as [|kv l]; cbn [encoded query_suffix].
  - by rewrite app_nil_r_s.
  - by rewrite !app_assoc_s.
Qed.

Lemma all_chars_join (f : ascii -> bool) (sep : string) (pieces : list string) :
  all_chars f sep = true -> (forall p, p ∈ pieces -> all_chars f p = true) ->
  all_chars f (join sep pieces) = true.
Proof.
  intros Hsep. induction pieces as [|p rest IH]; [done|]. intros Hall.
  destruct rest as [|q rest]; [apply Hall, list_elem_of_here|].
  change (join sep (p :: q :: rest)) with (p +:+ sep +:+ join sep (q :: rest)).
  rewrite !all_chars_app, Hsep, (Hall p) by apply list_elem_of_here.
  cbn [andb]. apply IH. intros p' Hin. by apply Hall, list_elem_of_further.
Qed.

Lemma is_query_urlencode (l : list (string * string)) : is_query (urlencode l) = true.
Proof.
  assert (Henc : forall c, enc_char c = true -> query_char c = true).
  { intros c Hc. unfold query_char.
    by destruct (enc_char_facts c Hc) as (_ & _ & -> & ->). }
  rewrite urlencode_join. apply all_chars_join; [reflexivity|].
  intros p [kv [-> _]]%list_elem_of_fmap. unfold encode_pair.
  rewrite !all_chars_app, !andb_true_iff. split; [|split]; [|reflexivity|];
    (eapply all_chars_impl; [exact Henc|apply quote_plus_chars]).
Qed.

Lemma is_query_encoded (l : list (string * string)) :
  is_query (default EmptyString (encoded l)) = true.
Proof. destruct l; [reflexivity|apply is_query_urlencode]. Qed.

Lemma query_pairs_encoded (q : string) :
  query_pairs (default EmptyString (encoded (query_pairs q))) = query_pairs q.
Proof.
  pose proof (query_pairs_sorted q) as Hsorted.
  pose proof (query_pairs_kept q) as Hkept.
  destruct (query_pairs q) as [|kv l] eqn:E; [reflexivity|].
  cbn [encoded default]. by apply query_pairs_urlencode.
Qed.

(** C7 (on web URLs). Normalization is idempotent on every URL
    [scheme://host path] or [scheme://host path?query] whose scheme is http
    or https in any case, whose host is made of ASCII letters, digits, dots
    and hyphens and, lower-cased, does not start with ["www.www."], whose
    path is empty or starts with a slash, has no [';'], ['?'], ['#'], tab,
    carriage return or newline and does not end with two slashes, and whose
    query has no ['#'], tab, carriage return or newline and is ASCII text
    once its percent-escapes are decoded. *)
Theorem normalize_url_idempotent_web (s h p : string) (oq : option string) :
  is_web_scheme s = true -> is_host h = true -> is_path p = true ->
  is_query (default EmptyString oq) = true ->
  is_ascii_query (default EmptyString oq) = true ->
  startswith (lower h) "www.www." = false ->
  endswith p "//" = false ->
  normalize_url (normalize_url (web_url s h p oq)) = normalize_url (web_url s h p oq).
Proof.
  intros Hs Hh Hp Hq _ Hww Hss.
  rewrite (normalize_web _ _ _ _ Hs Hh Hp Hq).
  rewrite normalize_web.
  - by rewrite lower_idem, strip_www_lower, (strip_www_once _ Hww),
               (strip_slash_once _ Hss), query_pairs_encoded.
  - by apply web_scheme_lower.
  - by apply is_host_strip_www, is_host_lower.
  - by apply is_path_strip_slash.
  - apply is_query_encoded.
Qed.

Lemma normalize_url_idempotent_web_witness :
  normalize_url "HTTPS://WWW.Example.COM/Blog/Post-1/?utm_source=mail&b=2&a=x%20y&c="
  = "https://example.com/Blog/Post-1?a=x+y&b=2" /\
  normalize_url (normalize_url
    "HTTPS://WWW.Example.COM/Blog/Post-1/?utm_source=mail&b=2&a=x%20y&c=")
  = normalize_url "HTTPS://WWW.Example.COM/Blog/Post-1/?utm_source=mail&b=2&a=x%20y&c=".
Proof.
  split; [vm_compute; reflexivity|].
  apply (normalize_url_idempotent_web "HTTPS" "WWW.Example.COM" "/Blog/Post-1/"
           (Some "utm_source=mail&b=2&a=x%20y&c="));
    vm_compute; reflexivity.
Defined.

(** Normalization is not idempotent on every string: only one leading
    ["www."] goes at each pass. *)
Lemma normalize_url_not_idempotent :
  normalize_url "http://www.www.example.com/" = "http://www.example.com/" /\
  normalize_url (normalize_url "http://www.www.example.com/") = "http://example.com/" /\
  normalize_url (normalize_url "http://www.www.example.com/")
  <> normalize_url "http://www.www.example.com/".
Proof. repeat split; vm_compute; [reflexivity..|discriminate]. Qed.

(** Nor is it on paths ending in several slashes, or on strings without a
    scheme. *)
Example normalize_url_slashes :
  normalize_url "https://example.com/a//" = "https://example.com/a/" /\
  normalize_url "https://example.com/a/" = "https://example.com/a".
Proof. split; vm_compute; reflexivity. Qed.

Example normalize_url_no_scheme :
  normalize_url "example.com" = "://example.com" /\
  normalize_url "://example.com" = "://://example.com".
Proof. split; vm_compute; reflexivity. Qed.

End NormalizeProps.

(** ** The crawl worker (parsing_worker.py) *)

Module FrontierProps.
Import Frontier FrontierExamples.

Section Worker.
Variable time : nat -> Z.
Variable load_raw_html : string -> result string.
Variable parse : ParserConfig.t -> string -> result string.
Variable anchor_hrefs : string -> result (list string).
Variable urljoin : string -> string -> result string.

Local Abbreviation process :=
  (process_url_queue_item time load_raw_html parse anchor_hrefs urljoin).
Local Abbreviation due := (FrontierSpec.due time).
Local Abbreviation no_parser_yet := FrontierSpec.no_parser_yet.

Lemma process_due (queue_item : URLQueueItem.t) (w : World) :
  due queue_item w ->
  process queue_item w =
  let url := URL.url (URLQueueItem.url queue_item) in
  let w' := mkWorld (redis w) (S (readings w)) in
  match Db.find_prefix_for_url url (redis w) with
  | Some p =>
      let url_count := length (Db.find_urls_with_prefix (URLPrefix.prefix p) (redis w)) in
      if (20 <=? url_count)%nat
      then (Dropped url (URLPrefix.prefix p) url_count, w')
      else match URLPrefix.parser_config p with
           | Some parser_config =>
               process_with_parser time load_raw_html parse anchor_hrefs urljoin
                                   queue_item p parser_config w'
           | None => process_without_parser time load_raw_html queue_item w'
           end
  | None => process_without_parser time load_raw_html queue_item w'
  end.
Proof.
  intros Hdue. unfold FrontierSpec.due in Hdue. unfold process_url_queue_item, read_time.
  cbn [redis readings].
  destruct (Z.ltb_spec (time (readings w))
              (URLQueueItem.process_from_unix_timestamp queue_item)) as [Hlt|_];
    [lia|].
  cbn zeta. by destruct (Db.find_prefix_for_url _ _).
Qed.

(** C9. An item dequeued before its scheduled time is put back as it is:
    the result is ["deferred"], the item pushed on the queue is the dequeued
    one, with the same [process_from_unix_timestamp], [times_queued] and
    URL, and the stored models and the prefix queue are untouched. *)
Theorem deferred_item_is_requeued_unchanged (queue_item : URLQueueItem.t) (w : World) :
  (time (readings w) < URLQueueItem.process_from_unix_timestamp queue_item)%Z ->
  exists o w',
    process queue_item w = (o, w') /\
    status o = "deferred" /\
    Db.queue_urlqueueitem (redis w') = queue_item :: Db.queue_urlqueueitem (redis w) /\
    (forall pushed, head (Db.queue_urlqueueitem (redis w')) = Some pushed ->
       URLQueueItem.process_from_unix_timestamp pushed
         = URLQueueItem.process_from_unix_timestamp queue_item /\
       URLQueueItem.times_queued pushed = URLQueueItem.times_queued queue_item /\
       URLQueueItem.url pushed = URLQueueItem.url queue_item) /\
    Db.urls (redis w') = Db.urls (redis w) /\
    Db.prefixes (redis w') = Db.prefixes (redis w) /\
    Db.queue_urlprefix (redis w') = Db.queue_urlprefix (redis w).
Proof.
  intros Hearly. unfold process_url_queue_item, read_time. cbn [redis readings].
  destruct (Z.ltb_spec (time (readings w))
              (URLQueueItem.process_from_unix_timestamp queue_item)) as [_|Hge];
    [|lia].
  eexists _, _. split; [reflexivity|]. cbn.
  repeat split; try reflexivity.
  all: by inversion H.
Qed.

(** C6 (with the order of the checks). A due item whose URL resolves to a
    prefix that already has 20 or more stored URL rows is dropped: the
    result is ["dropped"] and the Redis instance is left as it was, so no
    URL is saved and nothing is enqueued. *)
Theorem capped_prefix_drops_due_item
        (queue_item : URLQueueItem.t) (w : World) (p : URLPrefix.t) :
  due queue_item w ->
  Db.find_prefix_for_url (URL.url (URLQueueItem.url queue_item)) (redis w) = Some p ->
  20 <= length (Db.find_urls_with_prefix (URLPrefix.prefix p) (redis w)) ->
  exists o w',
    process queue_item w = (o, w') /\
    status o = "dropped" /\
    redis w' = redis w.
Proof.
  intros Hdue Hfind Hcap. rewrite (process_due _ _ Hdue). cbn zeta. rewrite Hfind.
  destruct (Nat.leb_spec 20
              (length (Db.find_urls_with_prefix (URLPrefix.prefix p) (redis w))))
    as [_|Hlt]; [|lia].
  eexists _, _. split; [reflexivity|]. split; reflexivity.
Qed.

Lemma process_no_parser (queue_item : URLQueueItem.t) (w : World) :
  due queue_item w -> no_parser_yet queue_item w ->
  process queue_item w =
  process_without_parser time load_raw_html queue_item
                         (mkWorld (redis w) (S (readings w))).
Proof.
  intros Hdue Hno. rewrite (process_due _ _ Hdue). unfold FrontierSpec.no_parser_yet in Hno.
  cbn zeta.
  destruct (Db.find_prefix_for_url _ _) as [p|]; [|reflexivity].
  destruct Hno as [Hcfg Hlt]. rewrite Hcfg.
  destruct (Nat.leb_spec 20
              (length (Db.find_urls_with_prefix (URLPrefix.prefix p) (redis w))))
    as [Hge|_]; [lia|reflexivity].
Qed.

(** C3 (as the code has it). On the branch without a parser a failed fetch
    ends the item: the result is ["error"] and the Redis instance is left as
    it was, the item is not put back.  The item is put back, 30 seconds
    ahead and with [times_queued] incremented, when the fetch succeeds. *)
Theorem no_parser_fetch_outcomes (queue_item : URLQueueItem.t) (w : World) :
  due queue_item w -> no_parser_yet queue_item w ->
  (forall e, load_raw_html (URL.url (URLQueueItem.url queue_item)) = Raise e ->
     exists o w',
       process queue_item w = (o, w') /\
       status o = "error" /\ redis w' = redis w) /\
  (forall raw_content,
     load_raw_html (URL.url (URLQueueItem.url queue_item)) = Ok raw_content ->
     exists o w',
       process queue_item w = (o, w') /\
       status o = "requeued" /\
       Db.queue_urlqueueitem (redis w') =
         URLQueueItem.mk (URLQueueItem.url queue_item)
                         (time (S (readings w)) + 30)
                         (URLQueueItem.times_queued queue_item + 1)
         :: Db.queue_urlqueueitem (redis w)).
Proof.
  intros Hdue Hno. rewrite (process_no_parser _ _ Hdue Hno).
  unfold process_without_parser. split.
  - intros e ->. eexists _, _. split; [reflexivity|]. split; reflexivity.
  - intros raw_content ->. eexists _, _. split; [reflexivity|]. split; reflexivity.
Qed.

End Worker.

(** *** Concrete runs *)

Lemma deferred_item_is_requeued_unchanged_witness :
  exists o w',
    process_url_queue_item clock online engine no_anchors join_absolute
                           (item 5000) (mkWorld Db.empty 0) = (o, w') /\
    status o = "deferred" /\
    Db.queue_urlqueueitem (redis w') = [item 5000].
Proof.
  destruct (deferred_item_is_requeued_unchanged clock online engine no_anchors
              join_absolute (item 5000) (mkWorld Db.empty 0))
    as (o & w' & Hrun & Hst & Hq & _); [reflexivity|].
  exists o, w'. auto.
Defined.

Lemma capped_prefix_drops_due_item_witness :
  exists o w',
    process_url_queue_item clock online engine no_anchors join_absolute
                           (item 0) (mkWorld full_redis 0) = (o, w') /\
    status o = "dropped" /\ redis w' = full_redis.
Proof.
  apply (capped_prefix_drops_due_item clock online engine no_anchors join_absolute
           (item 0) (mkWorld full_redis 0) blog_prefix).
  - unfold FrontierSpec.due. apply Z.leb_le. reflexivity.
  - vm_compute. reflexivity.
  - apply Nat.leb_le. vm_compute. reflexivity.
Defined.

(** The cap does not reach an item that is not due yet: with twenty pages
    stored for its prefix it is deferred and put back on the queue. *)
Lemma capped_prefix_early_item_deferred :
  let run := process_url_queue_item clock online engine no_anchors join_absolute
                                    (item 5000) (mkWorld full_redis 0) in
  Db.find_prefix_for_url (blog +:+ "/post") full_redis = Some blog_prefix /\
  length (Db.find_urls_with_prefix blog full_redis) = 20 /\
  status (fst run) = "deferred" /\
  Db.queue_urlqueueitem (redis (snd run)) = [item 5000].
Proof. vm_compute. repeat split. Qed.

Lemma no_parser_fetch_outcomes_witness :
  (exists o w',
     process_url_queue_item clock offline engine no_anchors join_absolute
                            (item 0) (mkWorld Db.empty 0) = (o, w') /\
     status o = "error" /\ redis w' = Db.empty) /\
  (exists o w',
     process_url_queue_item clock online engine no_anchors join_absolute
                            (item 0) (mkWorld Db.empty 0) = (o, w') /\
     status o = "requeued" /\
     Db.queue_urlqueueitem (redis w') =
       [URLQueueItem.mk (URLQueueItem.url (item 0)) 1031 3]).
Proof.
  split.
  - apply (proj1 (no_parser_fetch_outcomes clock offline engine no_anchors
                    join_absolute (item 0) (mkWorld Db.empty 0)
                    ltac:(unfold FrontierSpec.due; apply Z.leb_le; reflexivity) ltac:(vm_compute; exact I))
             (Exn HTTPError "503 Server Error")).
    reflexivity.
  - apply (proj2 (no_parser_fetch_outcomes clock online engine no_anchors
                    join_absolute (item 0) (mkWorld Db.empty 0)
                    ltac:(unfold FrontierSpec.due; apply Z.leb_le; reflexivity) ltac:(vm_compute; exact I))
             "<html><body><p>page</p></body></html>").
    reflexivity.
Defined.

(** On the branch without a parser a failed fetch discards the item: it is
    not on the queue afterwards. *)
Lemma no_parser_fetch_error_discards :
  let run := process_url_queue_item clock offline engine no_anchors join_absolute
                                    (item 0) (mkWorld Db.empty 0) in
  Db.find_prefix_for_url (blog +:+ "/post") Db.empty = None /\
  fst run = Error (blog +:+ "/post") "Failed to create URLPrefix: 503 Server Error" /\
  Db.queue_urlqueueitem (redis (snd run)) = [].
Proof. vm_compute. repeat split. Qed.

End FrontierProps.

(** ** The parser generator (parser.py) *)

Module SynthProps.
Import Synth SynthExamples ReflectionExamples.

Section Generator.
Variable provider_state : Type.
Variable create : Request -> provider_state -> result string * provider_state.
Variable model_validate_json : string -> result ParserParameters.t.
Variable clean_html : option string -> result string.
Variable parse : ParserConfig.t -> option string -> result string.
Variable config : ParserGeneratorConfig.t.

Local Abbreviation attempt_ :=
  (attempt provider_state create model_validate_json clean_html parse config).
Local Abbreviation generate_loop_ :=
  (generate_loop provider_state create model_validate_json clean_html parse config).
Local Abbreviation generate_parser_ :=
  (generate_parser provider_state create model_validate_json clean_html parse config).
Local Abbreviation overflows := SynthSpec.overflows.
Local Abbreviation generation_request := (SynthSpec.generation_request config).

Lemma html_snippets_firstn (samples : list SampleURL.t) (cleaned : list string) (k : nat) :
  html_snippets clean_html samples = Ok cleaned ->
  html_snippets clean_html (firstn k samples) = Ok (firstn k cleaned).
Proof.
  revert cleaned k. induction samples as [|s samples IH]; intros cleaned k.
  - cbn. intros [= <-]. by destruct k.
  - cbn. destruct (clean_html (SampleURL.raw_content s)) as [c|e] eqn:Ec; [|done].
    cbn. destruct (html_snippets clean_html samples) as [cs|e] eqn:Ecs; [|done].
    cbn. intros [= <-]. destruct k as [|k]; [done|].
    cbn. rewrite Ec. cbn. rewrite (IH cs k eq_refl). reflexivity.
Qed.

(** One iteration on an overflow: the provider's exception leaves the
    [try] body as it is. *)
Lemma attempt_overflow (url_prefix : URLPrefix.t) (cleaned : list string)
      (k : nat) (st st' : provider_state) (e : exn) :
  html_snippets clean_html (URLPrefix.sample_urls url_prefix) = Ok cleaned ->
  create (generation_request cleaned k) st = (Raise e, st') ->
  attempt_ url_prefix k st = (Raise e, st').
Proof.
  intros Hclean Hcreate. unfold attempt, _generate_parser_num_examples,
    _generate_input_prompt, request_parameters.
  rewrite (html_snippets_firstn _ _ k Hclean). cbn [bind].
  fold (SynthSpec.generation_request config cleaned k). by rewrite Hcreate.
Qed.

Lemma validate_ok (c : ParserConfig.t) (samples : list SampleURL.t) :
  (forall s, s ∈ samples -> is_ok (parse c (SampleURL.raw_content s)) = true) ->
  _validate_parser parse (AParser c) samples = None.
Proof.
  induction samples as [|s samples IH]; intros Hok; [reflexivity|].
  cbn. pose proof (Hok s (list_elem_of_here _ _)) as Hs.
  destruct (parse c (SampleURL.raw_content s)); [|discriminate].
  apply IH. intros s' Hin. apply Hok. by apply list_elem_of_further.
Qed.

Lemma attempt_success (url_prefix : URLPrefix.t) (cleaned : list string)
      (k : nat) (st st' : provider_state) (text : string) (pp : ParserParameters.t) :
  html_snippets clean_html (URLPrefix.sample_urls url_prefix) = Ok cleaned ->
  create (generation_request cleaned k) st = (Ok text, st') ->
  model_validate_json text = Ok pp ->
  (forall s, s ∈ URLPrefix.sample_urls url_prefix ->
     is_ok (parse (ParserConfig.mk pp (URLPrefix.prefix url_prefix))
                  (SampleURL.raw_content s)) = true) ->
  attempt_ url_prefix k st
  = (Ok (Some (AParser (ParserConfig.mk pp (URLPrefix.prefix url_prefix)))), st').
Proof.
  intros Hclean Hcreate Hjson Hvalid. unfold attempt, _generate_parser_num_examples,
    _generate_input_prompt, request_parameters.
  rewrite (html_snippets_firstn _ _ k Hclean). cbn [bind].
  fold (SynthSpec.generation_request config cleaned k). rewrite Hcreate, Hjson.
  by rewrite (validate_ok _ _ Hvalid).
Qed.

(** The loop on an overflow: one example less, and again. *)
Lemma loop_overflow (fuel : nat) (url_prefix : URLPrefix.t) (k : nat)
      (st st' : provider_state) (e : exn) :
  attempt_ url_prefix (S k) st = (Raise e, st') -> overflows e ->
  generate_loop_ (S fuel) url_prefix (S k) st = generate_loop_ fuel url_prefix k st'.
Proof. intros Hat Hov. cbn. by rewrite Hat, Hov. Qed.

Lemma loop_success (fuel : nat) (url_prefix : URLPrefix.t) (k : nat)
      (st st' : provider_state) (parser : parser_obj) :
  attempt_ url_prefix (S k) st = (Ok (Some parser), st') ->
  generate_loop_ (S fuel) url_prefix (S k) st = Some (Ok (Succeeded parser), st').
Proof. intros Hat. cbn. by rewrite Hat. Qed.

(** When every attempt overflows the loop runs down to zero examples. *)
Lemma loop_exhausted (url_prefix : URLPrefix.t) :
  (forall k st, exists e st', attempt_ url_prefix k st = (Raise e, st') /\ overflows e) ->
  forall n fuel st, n <= fuel ->
    exists st', generate_loop_ fuel url_prefix n st = Some (Ok Exhausted, st').
Proof.
  intros Hall. induction n as [|n IH]; intros fuel st Hfuel.
  - exists st. by destruct fuel.
  - destruct fuel as [|fuel]; [lia|].
    destruct (Hall (S n) st) as (e & st' & Hat & Hov).
    rewrite (loop_overflow _ _ _ _ _ _ Hat Hov). apply IH. lia.
Qed.

(** An iteration never falls through without progress: the repaired
    config has no [parse], so its validation fails on the first sample. *)
Lemma attempt_progress (url_prefix : URLPrefix.t) (k : nat) (st : provider_state) :
  URLPrefix.sample_urls url_prefix <> [] ->
  forall st', attempt_ url_prefix k st <> (Ok None, st').
Proof.
  intros Hsamples st'. unfold attempt.
  destruct (_generate_parser_num_examples _ _ _ _ _ _ _ _) as [[parser|e] st1];
    [|discriminate].
  destruct (_validate_parser parse parser _) as [[sample_url error_message]|];
    [|discriminate].
  destruct (ParserGeneratorConfig.error_prompt config) as [error_prompt|];
    [|discriminate].
  destruct (_generate_parser_with_parsing_mistake _ _ _ _ _ _ _ _ _ _)
    as [[repaired|e] st2]; [|discriminate].
  destruct (URLPrefix.sample_urls url_prefix) as [|s rest]; [done|].
  discriminate.
Qed.

(** The loop ends within as many iterations as it has examples. *)
Lemma loop_total (url_prefix : URLPrefix.t) :
  URLPrefix.sample_urls url_prefix <> [] ->
  forall n fuel st, n <= fuel ->
    exists r, generate_loop_ fuel url_prefix n st = Some r.
Proof.
  intros Hsamples. induction n as [|n IH]; intros fuel st Hfuel.
  - destruct fuel; cbn; eauto.
  - destruct fuel as [|fuel]; [lia|]. cbn.
    pose proof (attempt_progress url_prefix (S n) st Hsamples) as Hprogress.
    destruct (attempt_ url_prefix (S n) st) as [[[parser|]|e] st'].
    + eauto.
    + by destruct (Hprogress st').
    + destruct (Py.contains (exn_str e) context_overflow); [|eauto].
      apply IH. lia.
Qed.

(** [generate_parser] returns or raises: with fuel for one iteration per
    sample it never runs out. *)
Lemma generate_parser_total (url_prefix : URLPrefix.t) (fuel : nat) (st : provider_state) :
  length (URLPrefix.sample_urls url_prefix) <= fuel ->
  exists r, generate_parser_ fuel url_prefix st = Some r.
Proof.
  intros Hfuel. unfold generate_parser.
  destruct (URLPrefix.sample_urls url_prefix) as [|s rest] eqn:Esamples.
  - destruct fuel; cbn; eauto.
  - assert (Hne : URLPrefix.sample_urls url_prefix <> []) by (by rewrite Esamples).
    rewrite <- Esamples in *.
    destruct (loop_total url_prefix Hne _ fuel st Hfuel) as [[[[parser|]|e] st'] ->].
    + destruct (ParserGeneratorConfig.reflection_prompt config); [|eauto].
      destruct (_reflect_on_parser _ _ _ _ _ _ _ _ _ _ _) as [[merged|e] st'']; eauto.
    + eauto.
    + eauto.
Qed.

(** C4 (for a generator without reflection prompt). Adaptive degradation
    of [generate_parser]:
    - when the provider raises a context overflow on the request built from
      the first [n] samples, the loop goes on with [n - 1] examples;
    - with five samples and a provider that overflows on the requests built
      from the first 5, 4 and 3 samples and answers the request built from
      the first 2 with parameters that parse every sample, the loop ends
      with the parser of these parameters, which passes validation, and,
      when the generator has no reflection prompt, this parser is what
      [generate_parser] returns, without an exception;
    - when every attempt overflows, the number of examples reaches zero and
      [generate_parser] raises. *)
Theorem adaptive_degradation (url_prefix : URLPrefix.t) :
  (forall cleaned fuel k st st' e,
     html_snippets clean_html (URLPrefix.sample_urls url_prefix) = Ok cleaned ->
     create (generation_request cleaned (S k)) st = (Raise e, st') -> overflows e ->
     generate_loop_ (S fuel) url_prefix (S k) st = generate_loop_ fuel url_prefix k st') /\
  (forall cleaned st0 st1 st2 st3 st4 e5 e4 e3 text pp fuel,
     length (URLPrefix.sample_urls url_prefix) = 5 ->
     html_snippets clean_html (URLPrefix.sample_urls url_prefix) = Ok cleaned ->
     create (generation_request cleaned 5) st0 = (Raise e5, st1) -> overflows e5 ->
     create (generation_request cleaned 4) st1 = (Raise e4, st2) -> overflows e4 ->
     create (generation_request cleaned 3) st2 = (Raise e3, st3) -> overflows e3 ->
     create (generation_request cleaned 2) st3 = (Ok text, st4) ->
     model_validate_json text = Ok pp ->
     (forall s, s ∈ URLPrefix.sample_urls url_prefix ->
        is_ok (parse (ParserConfig.mk pp (URLPrefix.prefix url_prefix))
                     (SampleURL.raw_content s)) = true) ->
     4 <= fuel ->
     let parser := AParser (ParserConfig.mk pp (URLPrefix.prefix url_prefix)) in
     generate_loop_ fuel url_prefix 5 st0 = Some (Ok (Succeeded parser), st4) /\
     _validate_parser parse parser (URLPrefix.sample_urls url_prefix) = None /\
     (ParserGeneratorConfig.reflection_prompt config = None ->
      generate_parser_ fuel url_prefix st0 = Some (Ok parser, st4))) /\
  ((forall k st, exists e st', attempt_ url_prefix k st = (Raise e, st') /\ overflows e) ->
   forall fuel st, length (URLPrefix.sample_urls url_prefix) <= fuel ->
     exists st', generate_parser_ fuel url_prefix st
                 = Some (Raise (Exn Exception "Failed to generate parser"), st')).
Proof.
  split; [|split].
  - intros cleaned fuel k st st' e Hclean Hcreate Hov.
    exact (loop_overflow _ _ _ _ _ _ (attempt_overflow _ _ _ _ _ _ Hclean Hcreate) Hov).
  - intros cleaned st0 st1 st2 st3 st4 e5 e4 e3 text pp fuel
           Hlen Hclean H5 O5 H4 O4 H3 O3 H2 Hjson Hvalid Hfuel parser.
    assert (Hloop : generate_loop_ fuel url_prefix 5 st0
                    = Some (Ok (Succeeded parser), st4)).
    { do 4 (destruct fuel as [|fuel]; [lia|]).
      rewrite (loop_overflow _ _ _ _ _ _ (attempt_overflow _ _ _ _ _ _ Hclean H5) O5).
      rewrite (loop_overflow _ _ _ _ _ _ (attempt_overflow _ _ _ _ _ _ Hclean H4) O4).
      rewrite (loop_overflow _ _ _ _ _ _ (attempt_overflow _ _ _ _ _ _ Hclean H3) O3).
      apply loop_success.
      exact (attempt_success _ _ _ _ _ _ _ Hclean H2 Hjson Hvalid). }
    split; [exact Hloop|]. split; [by apply validate_ok|].
    intros Hrefl. unfold generate_parser. by rewrite Hlen, Hloop, Hrefl.
  - intros Hall fuel st Hfuel. unfold generate_parser.
    destruct (loop_exhausted _ Hall _ _ st Hfuel) as (st' & ->). by exists st'.
Qed.

(** With a reflection prompt the parser that comes out of the loop is not
    returned as it is: the result is the merge of the per-sample
    reflections, or their exception. *)
Lemma generate_parser_reflects (url_prefix : URLPrefix.t) (fuel : nat)
      (st st' : provider_state) (parser : parser_obj) (reflection_prompt : string) :
  generate_loop_ fuel url_prefix (length (URLPrefix.sample_urls url_prefix)) st
  = Some (Ok (Succeeded parser), st') ->
  ParserGeneratorConfig.reflection_prompt config = Some reflection_prompt ->
  generate_parser_ fuel url_prefix st
  = match _reflect_on_parser provider_state create model_validate_json clean_html parse
                             config reflection_prompt parser
                             (URLPrefix.sample_urls url_prefix)
                             (URLPrefix.prefix url_prefix) st' with
    | (Raise e, st'') => Some (Raise e, st'')
    | (Ok merged, st'') => Some (Ok (AParser merged), st'')
    end.
Proof. intros Hloop Hrefl. unfold generate_parser. by rewrite Hloop, Hrefl. Qed.

End Generator.

(** *** A concrete run: a provider whose context holds two pages. *)

Lemma adaptive_degradation_witness :
  generate_parser (list nat) small_provider validate_json cleaned_page engine
                  generator_config 4 blog_prefix []
  = Some (Ok (AParser (ParserConfig.mk answer "https://example.com/blog")), [5; 4; 3; 2]).
Proof.
  refine (proj2 (proj2
            (proj1 (proj2 (adaptive_degradation (list nat) small_provider validate_json
                             cleaned_page engine generator_config blog_prefix))
               (List.map page ["one"; "two"; "three"; "four"; "five"])
               [] [5] [5; 4] [5; 4; 3] [5; 4; 3; 2]
               (Exn APIError ("Error code: 400 - " +:+ context_overflow +:+ "."))
               (Exn APIError ("Error code: 400 - " +:+ context_overflow +:+ "."))
               (Exn APIError ("Error code: 400 - " +:+ context_overflow +:+ "."))
               "main" answer 4 _ _ _ _ _ _ _ _ _ _ _ _)) _);
    try (vm_compute; reflexivity).
  intros s Hs. unfold blog_prefix, samples in Hs. cbn in Hs.
  rewrite !elem_of_cons, elem_of_nil in Hs.
  destruct Hs as [-> | [-> | [-> | [-> | [-> | []]]]]]; vm_compute; reflexivity.
Defined.

(** With a reflection prompt the same run does not end as the loop does.
    The provider overflows on the requests of 5, 4 and 3 samples and answers
    the request of the first 2 with parameters that parse every sample;
    then
    - when it refuses the reflection requests, its exception is what
      [generate_parser] raises to the caller;
    - when it answers them, [generate_parser] returns the merge of the five
      answers, each to a request built from one sample, and this parser,
      which was never validated, raises on the first sample. *)
Lemma reflection_after_degradation :
  generate_parser (list nat) rate_limited_provider validate_json cleaned_page engine
                  reflecting_config 4 blog_prefix []
  = Some (Raise rate_limit, [5; 4; 3; 2; 0]) /\
  generate_parser (list nat) careless_provider reflection_json cleaned_page engine
                  reflecting_config 4 blog_prefix []
  = Some (Ok (AParser (ParserConfig.mk careless_answer "https://example.com/blog")),
          [5; 4; 3; 2; 1; 1; 1; 1; 1]) /\
  is_Some (_validate_parser engine
             (AParser (ParserConfig.mk careless_answer "https://example.com/blog"))
             samples) /\
  generate_loop (list nat) careless_provider reflection_json cleaned_page engine
                reflecting_config 4 blog_prefix 5 []
  = Some (Ok (Succeeded (AParser (ParserConfig.mk answer "https://example.com/blog"))),
          [5; 4; 3; 2]).
Proof. repeat split; vm_compute; eauto. Qed.

(** The same provider with samples that never fit: the loop runs out of
    examples and [generate_parser] raises. *)
Example never_fits :
  generate_parser (list nat)
                  (fun req log =>
                     (Raise (Exn APIError context_overflow), log ++ [0]))
                  validate_json cleaned_page engine generator_config 5 blog_prefix []
  = Some (Raise (Exn Exception "Failed to generate parser"), [0; 0; 0; 0; 0]).
Proof. vm_compute. reflexivity. Qed.

End SynthProps.

(** ** The generation worker (parser_generation_worker.py) *)

Module GenWorkerProps.
Import GenWorker GenWorkerExamples.

Section Worker.
Variable from_config : string -> result ParserGeneratorConfig.t.
Variable generate_parser : ParserGeneratorConfig.t -> URLPrefix.t -> result ParserConfig.t.

Lemma load_after_save (p : URLPrefix.t) (w : World) :
  Db.load_prefix (URLPrefix.prefix p) (redis (save p w)) = Some p.
Proof. unfold Db.load_prefix, save. cbn. apply lookup_insert_eq. Qed.

(** Up to the call of the generator: a prefix stored as failed is saved
    with no status, then as in progress, and the job goes on with the stored
    prefix. *)
Lemma begin_job_failed (url_prefix existing : URLPrefix.t) (w : World) :
  Db.load_prefix (URLPrefix.prefix url_prefix) (redis w) = Some existing ->
  URLPrefix.processing_status existing = Some "failed" ->
  let reset := URLPrefix.set_processing_status None existing in
  let started := URLPrefix.set_processing_status (Some "in_progress") existing in
  begin_job url_prefix w = (Some started, save started (save reset w)).
Proof.
  intros Hload Hfailed. unfold begin_job. rewrite Hload, Hfailed.
  rewrite bool_decide_eq_false_2 by discriminate.
  rewrite bool_decide_eq_true_2 by reflexivity.
  reflexivity.
Qed.

(** The job ends with one more save, of the status "completed" or
    "failed". *)
Lemma job_after_begin (url_prefix started : URLPrefix.t) (w w1 : World) :
  begin_job url_prefix w = (Some started, w1) ->
  exists o final,
    process_url_prefix_job from_config generate_parser url_prefix w
    = (o, save final (mkWorld (redis w1) (trace w1 ++ [Generating started]))) /\
    URLPrefix.prefix final = URLPrefix.prefix started /\
    ((URLPrefix.processing_status final = Some "completed" /\ status o = "success") \/
     (URLPrefix.processing_status final = Some "failed" /\ status o = "error")).
Proof.
  intros Hbegin. unfold process_url_prefix_job. rewrite Hbegin.
  unfold generate_parser_for_url_prefix.
  destruct (get_production_generator_config from_config _) as [generator_config|e].
  - destruct (generate_parser generator_config started) as [parser_config|e].
    + eexists _, _. split; [reflexivity|]. split; [reflexivity|]. left. by split.
    + eexists _, _. split; [reflexivity|]. split; [reflexivity|]. right. by split.
  - eexists _, _. split; [reflexivity|]. split; [reflexivity|]. right. by split.
Qed.

(** C8. A prefix whose stored status is "failed", once the worker dequeues
    it again, is saved with its status reset to none, then saved as
    "in_progress", and only then is the generator called; the job ends by
    saving it as "completed" or, when generation fails again, as
    "failed".  So the stored status leaves "failed" every time the prefix
    is dequeued. *)
Theorem failed_prefix_recovery (url_prefix existing : URLPrefix.t) (w : World) :
  Db.is_system_running (redis w) = true ->
  last (Db.queue_urlprefix (redis w)) = Some url_prefix ->
  Db.load_prefix (URLPrefix.prefix url_prefix) (redis w) = Some existing ->
  URLPrefix.prefix existing = URLPrefix.prefix url_prefix ->
  URLPrefix.processing_status existing = Some "failed" ->
  let reset := URLPrefix.set_processing_status None existing in
  let started := URLPrefix.set_processing_status (Some "in_progress") existing in
  exists o w' final,
    step from_config generate_parser w = (Some o, w') /\
    trace w' = trace w ++ [Saved reset; Saved started; Generating started; Saved final] /\
    URLPrefix.processing_status reset = None /\
    URLPrefix.processing_status started = Some "in_progress" /\
    ((URLPrefix.processing_status final = Some "completed" /\ status o = "success") \/
     (URLPrefix.processing_status final = Some "failed" /\ status o = "error")) /\
    Db.load_prefix (URLPrefix.prefix url_prefix) (redis w') = Some final.
Proof.
  intros Hrun Hlast Hload Hid Hfailed reset started.
  unfold step. rewrite Hrun. cbn [negb].
  unfold Db.get_from_queue_prefix. rewrite Hlast.
  set (w0 := mkWorld _ (trace w)).
  assert (Hload0 : Db.load_prefix (URLPrefix.prefix url_prefix) (redis w0) = Some existing)
    by exact Hload.
  pose proof (begin_job_failed url_prefix existing w0 Hload0 Hfailed) as Hbegin.
  cbn zeta in Hbegin. fold reset started in Hbegin.
  destruct (job_after_begin url_prefix started w0 _ Hbegin)
    as (o & final & Hjob & Hfinal & Hstatus).
  rewrite Hjob. eexists o, _, final. split; [reflexivity|].
  split; [|split; [reflexivity|split; [reflexivity|split; [exact Hstatus|]]]].
  - cbn. by rewrite <- !app_assoc.
  - rewrite <- Hid. change (URLPrefix.prefix existing) with (URLPrefix.prefix started).
    rewrite <- Hfinal. apply load_after_save.
Qed.

End Worker.

(** *** A concrete run *)

Lemma failed_prefix_recovery_witness :
  exists o w' final,
    step default_config (fun _ _ => Ok generated) (mkWorld running []) = (Some o, w') /\
    trace w' = [Saved (URLPrefix.set_processing_status None failed_prefix);
                Saved (URLPrefix.set_processing_status (Some "in_progress") failed_prefix);
                Generating (URLPrefix.set_processing_status (Some "in_progress") failed_prefix);
                Saved final] /\
    Db.load_prefix blog (redis w') = Some final.
Proof.
  destruct (failed_prefix_recovery default_config (fun _ _ => Ok generated)
              failed_prefix failed_prefix (mkWorld running []))
    as (o & w' & final & Hstep & Htrace & _ & _ & _ & Hload);
    try (vm_compute; reflexivity).
  exists o, w', final. auto.
Defined.

(** The same prefix, when generation fails again, is back to "failed"
    after having been reset and marked in progress. *)
Example failed_again :
  trace (snd (step default_config
                   (fun _ _ => Raise (Exn Exception "Failed to generate parser"))
                   (mkWorld running [])))
  = [Saved (URLPrefix.set_processing_status None failed_prefix);
     Saved (URLPrefix.set_processing_status (Some "in_progress") failed_prefix);
     Generating (URLPrefix.set_processing_status (Some "in_progress") failed_prefix);
     Saved failed_prefix].
Proof. vm_compute. reflexivity. Qed.

End GenWorkerProps.

(* ===================================================================== *)
(** * Further properties of the code *)
(* ===================================================================== *)

(** ** The queues (redis_queue.py) *)

Module QueueProps.
Import Db QueueSpec.

Lemma push_items_queue (xs : list URLQueueItem.t) (R : Redis) :
  push_items xs R =
  mkRedis (urls R) (prefixes R) (strings R)
          (rev xs ++ queue_urlqueueitem R) (queue_urlprefix R).
Proof.
  revert R. induction xs as [|x xs IH]; intros R.
  - now destruct R.
  - cbn [push_items foldl]. fold (push_items xs (add_to_queue_item x R)).
    rewrite IH. cbn. now rewrite <- app_assoc.
Qed.

Lemma get_from_snoc (q : list URLQueueItem.t) (x : URLQueueItem.t) m1 m2 m3 p :
  get_from_queue_item (mkRedis m1 m2 m3 (q ++ [x]) p) =
  (Some x, mkRedis m1 m2 m3 q p).
Proof.
  unfold get_from_queue_item. cbn. rewrite last_snoc.
  now rewrite removelast_last.
Qed.

Lemma pop_items_all (q : list URLQueueItem.t) m1 m2 m3 p :
  pop_items (length q) (mkRedis m1 m2 m3 q p) =
  (Some <$> rev q, mkRedis m1 m2 m3 [] p).
Proof.
  induction q as [|x q IH] using rev_ind.
  - reflexivity.
  - rewrite length_app, Nat.add_comm. cbn [length Nat.add pop_items].
    rewrite get_from_snoc, IH, rev_unit. reflexivity.
Qed.

(** X1. The URL queue is first in, first out: after [add_to_queue] on the
    items [xs] in order, as many [get_from_queue] as the queue is long
    return what it held before, oldest first, and then [xs] in the order
    they were added, and leave the queue as [clear_queue] would. *)
Theorem queue_is_fifo (xs : list URLQueueItem.t) (R : Redis) :
  pop_items (queue_length_item R + length xs) (push_items xs R) =
  (Some <$> (rev (queue_urlqueueitem R) ++ xs), snd (clear_queue_item R)).
Proof.
  rewrite push_items_queue. unfold queue_length_item.
  replace (length (queue_urlqueueitem R) + length xs)
    with (length (rev xs ++ queue_urlqueueitem R))
    by (rewrite length_app, length_rev; lia).
  rewrite pop_items_all, rev_app_distr, rev_involutive. reflexivity.
Qed.

Lemma last_is_none {A} (l : list A) : last l = None <-> length l = 0.
Proof.
  destruct l as [|x l] using rev_ind; [easy|].
  rewrite last_snoc, length_app. cbn. split; [easy|lia].
Qed.

Lemma length_removelast {A} (l : list A) : length (removelast l) = pred (length l).
Proof.
  destruct l as [|x l] using rev_ind; [easy|].
  rewrite removelast_last, length_app. cbn. lia.
Qed.

(** X2. [get_from_queue] returns the item [peek_from_queue] shows and
    shortens the queue by one; it returns [None] exactly when
    [queue_length] is 0, and then leaves the store as it is; after
    [clear_queue] it returns [None]. *)
Theorem get_from_queue_accounting (R : Redis) :
  fst (get_from_queue_item R) = peek_from_queue_item R /\
  queue_length_item (snd (get_from_queue_item R)) = pred (queue_length_item R) /\
  (fst (get_from_queue_item R) = None <-> queue_length_item R = 0) /\
  (queue_length_item R = 0 -> snd (get_from_queue_item R) = R) /\
  fst (get_from_queue_item (snd (clear_queue_item R))) = None.
Proof.
  unfold get_from_queue_item, peek_from_queue_item, queue_length_item.
  destruct (last (queue_urlqueueitem R)) as [it|] eqn:Hlast; cbn.
  - repeat split; try easy.
    + apply length_removelast.
    + intros H0. apply last_is_none in H0. congruence.
    + intros H0. apply last_is_none in H0. congruence.
  - apply last_is_none in Hlast. rewrite Hlast. repeat split; easy.
Qed.

End QueueProps.

(** ** The store (db.py) *)

Module StoreProps.
Import Db StoreSpec.

Lemma size_delete_some {A} (m : gmap string A) (k : string) (v : A) :
  m !! k = Some v -> length (map_to_list (base.delete k m)) = pred (length (map_to_list m)).
Proof.
  intros Hk. rewrite <- (insert_delete_id m k v) at 2 by done.
  rewrite map_to_list_insert by apply lookup_delete_eq. reflexivity.
Qed.

Lemma delete_url_count (id_ : string) (R : Redis) :
  count_urls (snd (delete_url id_ R)) + (if fst (delete_url id_ R) then 1 else 0)
  = count_urls R.
Proof.
  unfold delete_url, count_urls, keys_urls.
  destruct (urls R !! id_) as [u|] eqn:Hu; cbn; [|lia].
  rewrite !length_fmap, (size_delete_some _ _ _ Hu).
  assert (length (map_to_list (urls R)) <> 0); [|lia].
  intros H0. apply length_zero_iff_nil, map_to_list_empty_iff in H0.
  by rewrite H0, lookup_empty in Hu.
Qed.

(** X3. [delete(URL, id_)] returns [True] exactly when the id is stored;
    afterwards the id is not stored, every other id loads what it loaded
    before, [count(URL)] has gone down by one if something was deleted, and
    the prefixes are untouched. *)
Theorem delete_url_spec (id_ : string) (R : Redis) :
  fst (delete_url id_ R) = bool_decide (is_Some (load_url id_ R)) /\
  load_url id_ (snd (delete_url id_ R)) = None /\
  (forall other, other <> id_ ->
     load_url other (snd (delete_url id_ R)) = load_url other R) /\
  count_urls (snd (delete_url id_ R)) + (if fst (delete_url id_ R) then 1 else 0)
    = count_urls R /\
  prefixes (snd (delete_url id_ R)) = prefixes R.
Proof.
  split; [|split; [|split; [|split; [apply delete_url_count|]]]];
    unfold delete_url, load_url; destruct (urls R !! id_) as [u|] eqn:Hu; cbn; try done.
  - apply lookup_delete_eq.
  - intros other Hne. by apply lookup_delete_ne.
Qed.

Lemma lookup_delete_list {A} (ks : list string) (m : gmap string A) (i : string) :
  foldl (fun m k => base.delete k m) m ks !! i =
  if bool_decide (i ∈ ks) then None else m !! i.
Proof.
  revert m. induction ks as [|k ks IH]; intros m; cbn.
  - reflexivity.
  - rewrite IH. destruct (decide (i = k)) as [->|Hne].
    + rewrite lookup_delete_eq.
      rewrite (bool_decide_eq_true_2 (k ∈ k :: ks)) by apply list_elem_of_here.
      now destruct (bool_decide _).
    + rewrite lookup_delete_ne by done.
      destruct (bool_decide (i ∈ ks)) eqn:Hin.
      * apply bool_decide_eq_true in Hin.
        rewrite bool_decide_eq_true_2; [done|]. now apply list_elem_of_further.
      * apply bool_decide_eq_false in Hin.
        rewrite bool_decide_eq_false_2; [done|].
        rewrite elem_of_cons. tauto.
Qed.

Lemma delete_all_keys {A} (m : gmap string A) :
  foldl (fun m k => base.delete k m) m (fst <$> map_to_list m) = ∅.
Proof.
  apply map_eq. intros i. rewrite lookup_delete_list, lookup_empty.
  destruct (bool_decide _) eqn:Hin; [done|].
  apply bool_decide_eq_false in Hin.
  destruct (m !! i) as [v|] eqn:Hi; [|done].
  exfalso. apply Hin. apply list_elem_of_fmap. exists (i, v). split; [done|].
  now apply elem_of_map_to_list.
Qed.

(** X4. [delete_all(URL)] returns [count(URL)]; afterwards [count(URL)] is
    0, [scan(URL)] is empty and no id loads, while the prefixes and the URL
    queue are untouched. *)
Theorem delete_all_urls_spec (R : Redis) :
  fst (delete_all_urls R) = count_urls R /\
  count_urls (snd (delete_all_urls R)) = 0 /\
  scan_urls (snd (delete_all_urls R)) = [] /\
  (forall id_, load_url id_ (snd (delete_all_urls R)) = None) /\
  prefixes (snd (delete_all_urls R)) = prefixes R /\
  queue_urlqueueitem (snd (delete_all_urls R)) = queue_urlqueueitem R.
Proof.
  assert (Hempty : urls (snd (delete_all_urls R)) = ∅).
  { unfold delete_all_urls, keys_urls. cbn [snd].
    destruct (fst <$> map_to_list (urls R)) eqn:Hkeys.
    - apply fmap_nil_inv in Hkeys. now apply map_to_list_empty_iff in Hkeys.
    - rewrite <- Hkeys. cbn. apply delete_all_keys. }
  unfold count_urls, keys_urls, scan_urls, load_url. rewrite Hempty.
  rewrite map_to_list_empty. repeat split; try easy.
  all: unfold delete_all_urls, keys_urls; cbn [snd];
    now destruct (fst <$> map_to_list (urls R)).
Qed.

(** The production config is read back as it was set, except that the
    empty name reads back as no config; setting it leaves the system state
    as it was, and setting the system state leaves it as it was. *)
Lemma production_config_roundtrip (config_name : string) (R : Redis) :
  get_production_config (set_production_config config_name R) =
    (if Py.truthy config_name then Some config_name else None) /\
  get_system_state (set_production_config config_name R) = get_system_state R /\
  (forall state R', set_system_state state R = Ok R' ->
     get_production_config R' = get_production_config R).
Proof.
  unfold get_production_config, get_system_state, set_production_config,
    set_system_state, set_string. cbn [strings]. repeat split.
  - by rewrite lookup_insert_eq.
  - by rewrite lookup_insert_ne.
  - intros state R'. destruct (bool_decide _); [|done]. intros [= <-]. cbn [strings].
    by rewrite lookup_insert_ne.
Qed.

(** *** The invariants of the store *)

Lemma keyed_empty : keyed empty.
Proof. split; intros k x; cbn; by rewrite lookup_empty. Qed.

Lemma keyed_save_prefix (p : URLPrefix.t) (R : Redis) :
  keyed R -> keyed (save_prefix p R).
Proof.
  intros [Hu Hp]. split; [done|]. unfold save_prefix. cbn.
  intros k q [[<- <-]|[_ Hq]]%lookup_insert_Some; [done|by apply Hp].
Qed.

Lemma keyed_save_url (u : URL.t) (R : Redis) :
  keyed R -> keyed (save_url u R).
Proof.
  intros [Hu Hp]. split; [|done]. unfold save_url. cbn.
  intros k q [[<- <-]|[_ Hq]]%lookup_insert_Some; [done|by apply Hu].
Qed.

Lemma capped_small (R : Redis) : count_urls R <= 20 -> capped R.
Proof.
  intros Hcount prefix. etransitivity; [|exact Hcount].
  unfold find_urls_with_prefix, scan_urls, count_urls, keys_urls.
  rewrite length_fmap, <- (length_fmap snd). apply length_filter.
Qed.

Lemma elem_of_scan_urls (u : URL.t) (R : Redis) :
  u ∈ scan_urls R <-> exists k, urls R !! k = Some u.
Proof.
  unfold scan_urls. rewrite list_elem_of_fmap. split.
  - intros ([k v] & -> & Hkv). exists k. by apply elem_of_map_to_list.
  - intros (k & Hk). exists (k, u). split; [done|]. by apply elem_of_map_to_list.
Qed.

Lemma elem_of_find_urls (u : URL.t) (prefix : string) (R : Redis) :
  u ∈ find_urls_with_prefix prefix R <->
  URL.prefix u = Some prefix /\ exists k, urls R !! k = Some u.
Proof.
  unfold find_urls_with_prefix. by rewrite list_elem_of_filter, elem_of_scan_urls.
Qed.

Lemma no_urls_with_prefix (prefix : string) (R : Redis) :
  (forall k u, urls R !! k = Some u -> URL.prefix u <> Some prefix) ->
  find_urls_with_prefix prefix R = [].
Proof.
  intros Hnone. destruct (find_urls_with_prefix prefix R) as [|u l] eqn:Hl; [done|].
  assert (Hu : u ∈ find_urls_with_prefix prefix R) by (rewrite Hl; apply list_elem_of_here).
  apply elem_of_find_urls in Hu as (Hp & k & Hk). by destruct (Hnone k u Hk).
Qed.

Lemma count_depends_on_urls (prefix : string) (R R' : Redis) :
  urls R' = urls R ->
  find_urls_with_prefix prefix R' = find_urls_with_prefix prefix R.
Proof. unfold find_urls_with_prefix, scan_urls. by intros ->. Qed.

Lemma count_after_save (prefix : string) (u : URL.t) (R : Redis) :
  length (find_urls_with_prefix prefix (save_url u R)) <=
  (if decide (URL.prefix u = Some prefix) then 1 else 0)
  + length (find_urls_with_prefix prefix R).
Proof.
  unfold find_urls_with_prefix, scan_urls, save_url. cbn [urls].
  set (P := fun url_obj : URL.t => URL.prefix url_obj = Some prefix).
  set (m := urls R). set (k := URL.id u).
  assert (Hnew : length (filter P (snd <$> map_to_list (<[k:=u]> m))) =
                 (if decide (P u) then 1 else 0)
                 + length (filter P (snd <$> map_to_list (base.delete k m)))).
  { rewrite <- insert_delete_eq.
    rewrite (map_to_list_insert (base.delete k m) k u (lookup_delete_eq m k)).
    cbn [fmap list_fmap snd]. rewrite filter_cons. by destruct (decide (P u)). }
  rewrite Hnew. apply Nat.add_le_mono_l.
  destruct (m !! k) as [v|] eqn:Hk.
  - rewrite <- (insert_delete_id m k v Hk) at 2.
    rewrite (map_to_list_insert (base.delete k m) k v (lookup_delete_eq m k)).
    cbn [fmap list_fmap snd]. rewrite filter_cons.
    destruct (decide (P v)); cbn [length]; lia.
  - by rewrite delete_id.
Qed.

End StoreProps.

(** ** Prefix lookup (db.py) and the deepest prefix (parsing_worker.py) *)

Module PrefixProps.
Import Py Db Frontier PrefixSpec StrFacts.

Lemma split_nonempty (c : ascii) (s : string) : split c s <> [].
Proof.
  induction s as [|d s IH]; cbn; [done|].
  destruct (ascii_eqb c d); [done|]. by destruct (split c s).
Qed.

Lemma join_cons (sep p : string) (l : list string) :
  l <> [] -> join sep (p :: l) = p +:+ sep +:+ join sep l.
Proof. by destruct l. Qed.

Lemma join_split (c : ascii) (s : string) :
  join (String c EmptyString) (split c s) = s.
Proof.
  induction s as [|d s IH]; cbn [split]; [done|].
  pose proof (split_nonempty c s) as Hne.
  destruct (Ascii.eqb_spec c d) as [<-|Hcd].
  - unfold ascii_eqb. rewrite Ascii.eqb_refl.
    rewrite join_cons by done. rewrite IH. reflexivity.
  - unfold ascii_eqb. apply Ascii.eqb_neq in Hcd. rewrite Hcd.
    destruct (split c s) as [|piece rest] eqn:Hs; [done|].
    destruct rest as [|q rest].
    + cbn in *. by rewrite IH.
    + rewrite join_cons in * by done. rewrite app_cons. by rewrite IH.
Qed.

Lemma startswith_refl (s : string) : startswith s s = true.
Proof. induction s as [|c s IH]; cbn; [done|]. by rewrite ascii_eqb_refl. Qed.

Lemma startswith_same (a x y : string) :
  startswith (a +:+ x) (a +:+ y) = startswith x y.
Proof. induction a as [|c a IH]; str; [done|]. by rewrite ascii_eqb_refl. Qed.

Lemma startswith_trans (a b c : string) :
  startswith a b = true -> startswith b c = true -> startswith a c = true.
Proof.
  revert a b. induction c as [|x c IH]; intros a b; [by destruct a|].
  destruct b as [|y b]; [done|]. destruct a as [|z a]; [done|]. cbn.
  intros [H1 H2]%andb_true_iff [H3 H4]%andb_true_iff.
  apply Ascii.eqb_eq in H1 as ->. rewrite H3. cbn. by apply (IH a b).
Qed.

Lemma join_firstn_prefix (sep : string) (l : list string) (i : nat) :
  startswith (join sep l) (join sep (firstn i l)) = true.
Proof.
  revert i. induction l as [|p l IH]; intros [|i]; try done.
  cbn [firstn]. destruct l as [|q l].
  - rewrite firstn_nil. cbn. apply startswith_refl.
  - rewrite (join_cons sep p (q :: l)) by done.
    destruct i as [|i].
    + cbn. apply startswith_prefix.
    + cbn [firstn]. rewrite (join_cons sep p (q :: firstn i l)) by done.
      rewrite !startswith_same. apply (IH (S i)).
Qed.

Lemma candidate_prefix (url : string) (i : nat) :
  startswith url (candidate url i) = true.
Proof.
  unfold candidate. rewrite <- (join_split "/" url) at 1.
  apply join_firstn_prefix.
Qed.

Lemma candidate_full (url : string) : candidate url (segments url) = url.
Proof.
  unfold candidate, segments. rewrite firstn_all. apply join_split.
Qed.

Lemma find_prefix_from_spec (parts : list string) (n : nat) (R : Redis) :
  match find_prefix_from parts n R with
  | Some p =>
      exists i, 1 <= i <= n /\
        load_prefix (join "/" (firstn i parts)) R = Some p /\
        forall j, i < j <= n -> load_prefix (join "/" (firstn j parts)) R = None
  | None =>
      forall i, 1 <= i <= n -> load_prefix (join "/" (firstn i parts)) R = None
  end.
Proof.
  induction n as [|n IH]; cbn [find_prefix_from].
  - intros i Hi. lia.
  - destruct (load_prefix (join "/" (firstn (S n) parts)) R) as [p|] eqn:Hload.
    + exists (S n). split; [lia|]. split; [done|]. intros j Hj. lia.
    + destruct (find_prefix_from parts n R) as [p|].
      * destruct IH as (i & Hi & Hp & Hmax). exists i.
        split; [lia|]. split; [done|].
        intros j Hj. destruct (decide (j = S n)) as [->|]; [done|].
        apply Hmax. lia.
      * intros i Hi. destruct (decide (i = S n)) as [->|]; [done|].
        apply IH. lia.
Qed.

(** X5. [find_prefix_for_url] returns the most specific stored prefix: the
    prefix it returns is stored under a candidate of the URL (the URL cut
    after some of its segments, a prefix of the URL as a string) and no
    longer candidate is stored; it returns [None] exactly when no candidate
    is stored. *)
Theorem find_prefix_most_specific (url : string) (R : Redis) :
  match find_prefix_for_url url R with
  | Some p =>
      exists i, 1 <= i <= segments url /\
        load_prefix (candidate url i) R = Some p /\
        startswith url (candidate url i) = true /\
        forall j, i < j <= segments url -> load_prefix (candidate url j) R = None
  | None =>
      forall i, 1 <= i <= segments url -> load_prefix (candidate url i) R = None
  end.
Proof.
  unfold find_prefix_for_url, candidate, segments.
  pose proof (find_prefix_from_spec (split "/" url) (length (split "/" url)) R) as H.
  destruct (find_prefix_from _ _ R) as [p|]; [|done].
  destruct H as (i & Hi & Hp & Hmax). exists i.
  repeat split; try done; try lia. apply candidate_prefix.
Qed.

(** X6. A prefix stored under the URL itself is the one
    [find_prefix_for_url] returns for it. *)
Theorem exact_prefix_owns_url (url : string) (p : URLPrefix.t) (R : Redis) :
  load_prefix url R = Some p -> find_prefix_for_url url R = Some p.
Proof.
  intros Hload. unfold find_prefix_for_url.
  pose proof (split_nonempty "/" url) as Hne.
  destruct (split "/" url) as [|part parts] eqn:Hs; [done|].
  cbn [length find_prefix_from]. rewrite <- Hs.
  replace (firstn (S (length parts)) (split "/" url)) with (split "/" url).
  - rewrite join_split. by rewrite Hload.
  - rewrite Hs. symmetry. apply (firstn_all (part :: parts)).
Qed.

Lemma hd_split_prefix (c : ascii) (s : string) :
  startswith s (hd EmptyString (split c s)) = true.
Proof.
  induction s as [|d s IH]; cbn [split]; [done|].
  destruct (ascii_eqb c d); [done|].
  destruct (split c s) as [|piece rest]; cbn in *.
  - by rewrite ascii_eqb_refl.
  - by rewrite ascii_eqb_refl.
Qed.

Lemma pop_empty_drop (l : list string) : exists k, pop_empty l = skipn k l.
Proof.
  induction l as [|p l IH]; [by exists 0|]. cbn.
  destruct (truthy p); [by exists 0|].
  destruct IH as [k Hk]. by exists (S k).
Qed.

Lemma deepest_parts (parts : list string) :
  exists k, rev (match pop_empty (rev parts) with [] => [] | _ :: rest => rest end)
            = firstn k parts.
Proof.
  destruct (pop_empty_drop (rev parts)) as [k Hk]. rewrite Hk.
  exists (length parts - S k).
  replace (match skipn k (rev parts) with [] => [] | _ :: rest => rest end)
    with (skipn (S k) (rev parts)).
  - rewrite skipn_rev, rev_involutive. reflexivity.
  - change (S k) with (1 + k). rewrite <- (skipn_skipn 1 k).
    by destruct (skipn k (rev parts)).
Qed.

Lemma cut_prefix (c : ascii) (url : string) :
  startswith url (if mem_char c url then hd EmptyString (split c url) else url) = true.
Proof.
  destruct (mem_char c url); [apply hd_split_prefix|apply startswith_refl].
Qed.

(** The deepest prefix as a candidate of the URL without query and
    fragment. *)
Lemma deepest_candidate (url : string) :
  exists k,
    get_deepest_prefix url =
    candidate (let url := if mem_char "?" url then hd EmptyString (split "?" url) else url in
               if mem_char "#" url then hd EmptyString (split "#" url) else url) k.
Proof.
  unfold get_deepest_prefix, candidate. cbn zeta.
  set (u := if mem_char "#" _ then _ else _).
  destruct (3 <? length (split "/" u))%nat.
  - destruct (deepest_parts (split "/" u)) as [k Hk]. exists k. by rewrite Hk.
  - exists (length (split "/" u)). by rewrite firstn_all.
Qed.

(** X7. [get_deepest_prefix] returns a prefix of the URL it is given, as
    a string. *)
Theorem deepest_prefix_is_prefix (url : string) :
  startswith url (get_deepest_prefix url) = true.
Proof.
  destruct (deepest_candidate url) as [k ->]. cbn zeta.
  eapply startswith_trans; [apply (cut_prefix "?")|].
  eapply startswith_trans; [apply (cut_prefix "#")|].
  apply candidate_prefix.
Qed.

Lemma find_prefix_candidate (url : string) (i : nat) (p : URLPrefix.t) (R : Redis) :
  1 <= i <= segments url ->
  load_prefix (candidate url i) R = Some p ->
  is_Some (find_prefix_for_url url R).
Proof.
  intros Hi Hload. unfold find_prefix_for_url.
  pose proof (find_prefix_from_spec (split "/" url) (length (split "/" url)) R) as H.
  destruct (find_prefix_from _ _ R) as [q|]; [by eexists|].
  unfold candidate in Hload. rewrite (H i Hi) in Hload. done.
Qed.

(** A prefix stored at the deepest prefix of a URL is found for it. *)
Lemma deepest_prefix_is_found (url : string) (p : URLPrefix.t) (R : Redis) :
  mem_char "?" url = false ->
  mem_char "#" url = false ->
  get_deepest_prefix url <> EmptyString ->
  load_prefix (get_deepest_prefix url) R = Some p ->
  exists q, find_prefix_for_url url R = Some q.
Proof.
  intros Hq Hf Hne Hload.
  destruct (deepest_candidate url) as [k Hk]. cbn zeta in Hk.
  rewrite Hq, Hf in Hk. rewrite Hk in Hne, Hload.
  destruct (decide (k <= segments url)) as [Hle|Hgt].
  - apply (find_prefix_candidate url k p); [|done].
    split; [|done]. destruct k; [done|lia].
  - pose proof (split_nonempty "/" url) as Hs.
    apply (find_prefix_candidate url (segments url) p).
    + split; [|done]. unfold segments. destruct (split "/" url); [done|cbn; lia].
    + unfold candidate, segments in *.
      rewrite firstn_all. rewrite firstn_all2 in Hload by lia. done.
Qed.

Lemma exact_prefix_owns_url_witness :
  find_prefix_for_url FrontierExamples.blog FrontierExamples.full_redis
  = Some FrontierExamples.blog_prefix.
Proof.
  apply exact_prefix_owns_url. vm_compute. reflexivity.
Defined.

End PrefixProps.

(** ** The crawl worker, further (parsing_worker.py) *)

Module FrontierExtra.
Import Frontier StoreSpec StoreProps FrontierExamples CrawlExamples.

Lemma not_among (s : string) (l : list string) :
  bool_decide (s ∈ l) = false -> s ∈ l -> False.
Proof. intros H Hin. by apply bool_decide_eq_false in H. Qed.

Section Worker.
Variable time : nat -> Z.
Variable load_raw_html : string -> result string.
Variable parse : ParserConfig.t -> string -> result string.
Variable anchor_hrefs : string -> result (list string).
Variable urljoin : string -> string -> result string.

Local Abbreviation process :=
  (process_url_queue_item time load_raw_html parse anchor_hrefs urljoin).
Local Abbreviation with_parser :=
  (process_with_parser time load_raw_html parse anchor_hrefs urljoin).
Local Abbreviation without_parser := (process_without_parser time load_raw_html).
Local Abbreviation enqueue := (enqueue_links time).

(** What the loop over the links does to the world. *)
Lemma enqueue_links_spec (prefix : string) (links : list string) (added : nat) (w : World) :
  exists new,
    Db.queue_urlqueueitem (redis (snd (enqueue prefix links added w))) =
      new ++ Db.queue_urlqueueitem (redis w) /\
    fst (enqueue prefix links added w) = added + length new /\
    Db.urls (redis (snd (enqueue prefix links added w))) = Db.urls (redis w) /\
    Db.prefixes (redis (snd (enqueue prefix links added w))) = Db.prefixes (redis w) /\
    Db.strings (redis (snd (enqueue prefix links added w))) = Db.strings (redis w) /\
    Db.queue_urlprefix (redis (snd (enqueue prefix links added w))) =
      Db.queue_urlprefix (redis w) /\
    Forall (fun it =>
              URLQueueItem.times_queued it = 0%Z /\
              URL.prefix (URLQueueItem.url it) = Some prefix /\
              URL.url (URLQueueItem.url it) ∈ links /\
              URL.parsed_content (URLQueueItem.url it) = None /\
              already_parsed
                (Db.load_url (URL.url (URLQueueItem.url it)) (redis w)) = false)
           new.
Proof.
  revert added w. induction links as [|link_url rest IH]; intros added w.
  - exists []. cbn. repeat split; try done; lia.
  - cbn [enqueue_links].
    destruct (already_parsed (Db.load_url link_url (redis w))) eqn:Hparsed.
    + destruct (IH added w) as (new & Hq & Hn & Hu & Hp & Hs & Hqp & Hall).
      exists new. repeat split; try done.
      eapply Forall_impl; [exact Hall|]. cbn. intros it (?&?&?&?&?).
      repeat split; try done. by apply list_elem_of_further.
    + unfold read_time. cbn zeta.
      set (it := URLQueueItem.mk _ _ _).
      set (w1 := with_redis _ _).
      destruct (IH (S added) w1) as (new & Hq & Hn & Hu & Hp & Hs & Hqp & Hall).
      exists (new ++ [it]). rewrite Hq, Hn, Hu, Hp, Hs, Hqp. subst w1. cbn.
      rewrite <- app_assoc, length_app. cbn.
      repeat split; try done; try lia.
      apply Forall_app. split.
      * eapply Forall_impl; [exact Hall|]. cbn. intros x (?&?&?&?&?).
        repeat split; try done. by apply list_elem_of_further.
      * apply Forall_singleton. subst it. cbn. repeat split; try done.
        apply list_elem_of_here.
Qed.

(** X8. An item whose processing ends as ["dropped"], ["skipped"] or
    ["error"] leaves no trace: the Redis instance is as it was before, so
    the item is on no queue and nothing was saved. *)
Theorem discarded_item_leaves_no_trace (queue_item : URLQueueItem.t) (w : World) :
  status (fst (process queue_item w)) ∈ ["dropped"; "skipped"; "error"] ->
  redis (snd (process queue_item w)) = redis w.
Proof.
  unfold process_url_queue_item, read_time. cbn [redis readings].
  destruct (_ <? _)%Z; cbn zeta.
  { cbn. intros H. exfalso. revert H. by apply not_among. }
  assert (Hwithout : forall w1,
            status (fst (without_parser queue_item w1)) ∈ ["dropped"; "skipped"; "error"] ->
            redis (snd (without_parser queue_item w1)) = redis w1).
  { intros w1. unfold process_without_parser.
    destruct (load_raw_html _); cbn; [|done].
    intros H. exfalso. revert H. by apply not_among. }
  destruct (Db.find_prefix_for_url _ _) as [p|]; [|exact (Hwithout (mkWorld (redis w) (S (readings w))))].
  destruct (20 <=? _)%nat; [done|].
  destruct (URLPrefix.parser_config p) as [parser_config|]; [|exact (Hwithout (mkWorld (redis w) (S (readings w))))].
  unfold process_with_parser. cbn [redis].
  destruct (already_parsed _); [done|].
  destruct (load_raw_html _) as [raw_content|e]; [|done].
  destruct (parse _ _) as [parsed_content|e]; [|done].
  destruct (enqueue_links _ _ _ _ _) as [added w2]. cbn.
  intros H. exfalso. revert H. by apply not_among.
Qed.

Lemma unique_spec (seen : gset string) (links : list string) :
  NoDup (unique seen links) /\
  forall x, x ∈ unique seen links -> x ∈ links /\ x ∉ seen.
Proof.
  revert seen. induction links as [|link rest IH]; intros seen; cbn.
  - split; [constructor|]. intros x Hx. by apply elem_of_nil in Hx.
  - destruct (bool_decide (link ∈ seen)) eqn:Hseen.
    + destruct (IH seen) as [Hnd Hin]. split; [done|].
      intros x Hx. destruct (Hin x Hx). split; [by apply list_elem_of_further|done].
    + apply bool_decide_eq_false in Hseen.
      destruct (IH ({[link]} ∪ seen)) as [Hnd Hin]. split.
      * constructor; [|done]. intros Hx. destruct (Hin link Hx) as [_ Hnot].
        apply Hnot. apply elem_of_union. left. by apply elem_of_singleton.
      * intros x [->|Hx]%elem_of_cons.
        -- split; [apply list_elem_of_here|done].
        -- destruct (Hin x Hx) as [? Hnot]. split; [by apply list_elem_of_further|].
           intros Hs. apply Hnot. apply elem_of_union. by right.
Qed.

Lemma link_of_spec (base_url target_prefix href link : string) :
  link_of urljoin base_url target_prefix href = Some link ->
  Py.startswith link target_prefix = true /\
  link <> normalize_url base_url /\
  exists parsed,
    Urllib.urlparse link = Ok parsed /\ Urllib.scheme parsed ∈ ["http"; "https"].
Proof.
  unfold link_of. destruct (negb (Py.truthy href)); [done|].
  destruct (urljoin base_url href) as [absolute_url|]; [|done]. cbn zeta.
  set (normalized_url := normalize_url _).
  destruct (Urllib.urlparse normalized_url) as [parsed|] eqn:Hparse; [|done].
  destruct (bool_decide (Urllib.scheme parsed ∈ ["http"; "https"])) eqn:Hscheme;
    [|done].
  cbn [negb]. destruct (String.eqb_spec normalized_url (normalize_url base_url));
    [done|].
  destruct (Py.startswith normalized_url target_prefix) eqn:Hstarts; [|done].
  intros [= <-]. repeat split; try done.
  exists parsed. split; [done|]. by apply bool_decide_eq_true in Hscheme.
Qed.

Lemma extracted_link (html_content base_url target_prefix link : string) :
  link ∈ extract_links_from_html anchor_hrefs urljoin html_content base_url target_prefix ->
  exists href, link_of urljoin base_url target_prefix href = Some link.
Proof.
  unfold extract_links_from_html.
  destruct (anchor_hrefs html_content) as [hrefs|]; [|by intros ?%elem_of_nil].
  intros Hlink. apply unique_spec in Hlink as [Hlink _].
  apply list_elem_of_In, in_flat_map in Hlink as (href & _ & Hlink).
  exists href.
  destruct (link_of urljoin base_url target_prefix href) as [l|]; [|done].
  cbn in Hlink. by destruct Hlink as [->|[]].
Qed.

(** X9. [extract_links_from_html] returns no link twice, and every link
    it returns starts with the target prefix, differs from the normalized
    base URL and parses with scheme http or https.  (When the HTML cannot
    be parsed it returns the empty list, for which this holds.) *)
Theorem extracted_links_spec (html_content base_url target_prefix : string) :
  NoDup (extract_links_from_html anchor_hrefs urljoin html_content base_url target_prefix) /\
  Forall (fun link =>
            Py.startswith link target_prefix = true /\
            link <> normalize_url base_url /\
            exists parsed,
              Urllib.urlparse link = Ok parsed /\
              Urllib.scheme parsed ∈ ["http"; "https"])
         (extract_links_from_html anchor_hrefs urljoin html_content base_url target_prefix).
Proof.
  split.
  - unfold extract_links_from_html.
    destruct (anchor_hrefs html_content) as [hrefs|]; [|constructor].
    apply unique_spec.
  - apply Forall_forall. intros link [href Hlink]%extracted_link.
    by apply (link_of_spec _ _ href).
Qed.

(** X10. When processing ends as ["success"], the URL resolved to a prefix
    with a parser config, the page was fetched and parsed with it, and the
    URL is stored with that prefix, the raw page and the parsed text; the
    URL queue grew by exactly [urls_added_to_queue] items, each with
    [times_queued] 0, the prefix of the page and a URL that starts with
    it; the prefixes and the prefix queue are untouched. *)
Theorem success_stores_page (queue_item : URLQueueItem.t) (w : World)
        (url parsed_content prefix : string) (urls_added_to_queue : nat) :
  fst (process queue_item w) = Success url parsed_content prefix urls_added_to_queue ->
  let w' := snd (process queue_item w) in
  url = URL.url (URLQueueItem.url queue_item) /\
  (exists p parser_config raw_content,
     Db.find_prefix_for_url url (redis w) = Some p /\
     URLPrefix.prefix p = prefix /\
     URLPrefix.parser_config p = Some parser_config /\
     load_raw_html url = Ok raw_content /\
     parse parser_config raw_content = Ok parsed_content /\
     Db.load_url url (redis w') =
       Some (URL.mk url (Some prefix) (Some raw_content) (Some parsed_content))) /\
  (exists new,
     Db.queue_urlqueueitem (redis w') = new ++ Db.queue_urlqueueitem (redis w) /\
     length new = urls_added_to_queue /\
     Forall (fun it =>
               URLQueueItem.times_queued it = 0%Z /\
               URL.prefix (URLQueueItem.url it) = Some prefix /\
               Py.startswith (URL.url (URLQueueItem.url it)) prefix = true)
            new) /\
  Db.prefixes (redis w') = Db.prefixes (redis w) /\
  Db.queue_urlprefix (redis w') = Db.queue_urlprefix (redis w).
Proof.
  unfold process_url_queue_item, read_time. cbn [redis readings].
  destruct (_ <? _)%Z; cbn zeta; [done|].
  assert (Hwithout : forall w1 o, fst (without_parser queue_item w1) <> Success url o prefix urls_added_to_queue).
  { intros w1 o. unfold process_without_parser. by destruct (load_raw_html _). }
  destruct (Db.find_prefix_for_url _ _) as [p|] eqn:Hfind;
    [|intros H; by apply Hwithout in H].
  destruct (20 <=? _)%nat; [done|].
  destruct (URLPrefix.parser_config p) as [parser_config|] eqn:Hcfg;
    [|intros H; by apply Hwithout in H].
  unfold process_with_parser. cbn [redis].
  destruct (already_parsed _); [done|].
  destruct (load_raw_html _) as [raw_content|e] eqn:Hload; [|done].
  destruct (parse _ _) as [parsed|e] eqn:Hparse; [|done].
  set (links := extract_links_from_html _ _ _ _ _).
  set (w1 := with_redis _ _).
  destruct (enqueue_links_spec (URLPrefix.prefix p) links 0 w1)
    as (new & Hq & Hn & Hu & Hp & _ & Hqp & Hall).
  destruct (enqueue_links _ _ _ _ _) as [added w2]. cbn [fst snd] in *.
  intros [= <- <- <- <-]. split; [done|]. split; [|split; [|split]].
  - exists p, parser_config, raw_content. repeat split; try done.
    unfold Db.load_url. rewrite Hu. subst w1. cbn. apply lookup_insert_eq.
  - exists new. split; [by rewrite Hq|]. split; [lia|].
    eapply Forall_impl; [exact Hall|]. cbn. intros it (Ht & Hpre & Hin & _).
    repeat split; try done.
    apply extracted_link in Hin as [href Hin]. by apply link_of_spec in Hin as [? _].
  - by rewrite Hp.
  - by rewrite Hqp.
Qed.

(** X11. The cap is an invariant of [process_url_queue_item]: when no
    prefix has more than 20 stored URLs before an item is processed, none
    has afterwards. *)
Theorem cap_is_kept (queue_item : URLQueueItem.t) (w : World) :
  capped (redis w) -> capped (redis (snd (process queue_item w))).
Proof.
  intros Hcap prefix.
  assert (Hsame : forall w', Db.urls (redis w') = Db.urls (redis w) ->
            length (Db.find_urls_with_prefix prefix (redis w')) <= 20).
  { intros w' Hu. rewrite (count_depends_on_urls _ _ _ Hu). apply Hcap. }
  unfold process_url_queue_item, read_time. cbn [redis readings].
  destruct (_ <? _)%Z; cbn zeta; [by apply Hsame|].
  assert (Hwithout : forall n,
            length (Db.find_urls_with_prefix prefix
                      (redis (snd (without_parser queue_item (mkWorld (redis w) n))))) <= 20).
  { intros n. apply Hsame. unfold process_without_parser.
    by destruct (load_raw_html _). }
  destruct (Db.find_prefix_for_url _ _) as [p|]; [|apply Hwithout].
  destruct (Nat.leb_spec 20 (length (Db.find_urls_with_prefix (URLPrefix.prefix p) (redis w))))
    as [_|Hbelow]; [by apply Hsame|].
  destruct (URLPrefix.parser_config p) as [parser_config|]; [|apply Hwithout].
  unfold process_with_parser. cbn [redis].
  destruct (already_parsed _); [by apply Hsame|].
  destruct (load_raw_html _) as [raw_content|e]; [|by apply Hsame].
  destruct (parse _ _) as [parsed|e]; [|by apply Hsame].
  set (links := extract_links_from_html _ _ _ _ _).
  set (w1 := with_redis _ _).
  destruct (enqueue_links_spec (URLPrefix.prefix p) links 0 w1)
    as (new & _ & _ & Hu & _).
  destruct (enqueue_links _ _ _ _ _) as [added w2]. cbn [fst snd] in *.
  rewrite (count_depends_on_urls _ _ _ Hu). subst w1. cbn [with_redis redis].
  etransitivity; [apply count_after_save|]. cbn [URL.prefix URL.set_prefix].
  destruct (decide (Some (URLPrefix.prefix p) = Some prefix)) as [[= <-]|_].
  - lia.
  - apply (Hcap prefix).
Qed.

(** X12. [process_url_queue_item] keeps every URL and every prefix stored
    under its own id. *)
Theorem keys_are_kept (queue_item : URLQueueItem.t) (w : World) :
  keyed (redis w) -> keyed (redis (snd (process queue_item w))).
Proof.
  intros [Hurls Hprefixes].
  assert (Hsame : forall w', Db.urls (redis w') = Db.urls (redis w) ->
            Db.prefixes (redis w') = Db.prefixes (redis w) -> keyed (redis w')).
  { intros w' Hu Hp. split; [by rewrite Hu|by rewrite Hp]. }
  unfold process_url_queue_item, read_time. cbn [redis readings].
  destruct (_ <? _)%Z; cbn zeta; [by apply Hsame|].
  assert (Hwithout : forall n,
            keyed (redis (snd (without_parser queue_item (mkWorld (redis w) n))))).
  { intros n. unfold process_without_parser.
    destruct (load_raw_html _); [|by apply Hsame].
    set (queued_prefix := match Db.load_prefix _ _ with Some _ => _ | None => _ end).
    unfold Db.add_to_queue_item, Db.add_to_queue_prefix, Db.save_prefix.
    split; cbn; [done|].
    intros k q [[<- <-]|[_ Hq]]%lookup_insert_Some; [done|by apply Hprefixes]. }
  destruct (Db.find_prefix_for_url _ _) as [p|]; [|apply Hwithout].
  destruct (20 <=? _)%nat; [by apply Hsame|].
  destruct (URLPrefix.parser_config p) as [parser_config|]; [|apply Hwithout].
  unfold process_with_parser. cbn [redis].
  destruct (already_parsed _); [by apply Hsame|].
  destruct (load_raw_html _) as [raw_content|e]; [|by apply Hsame].
  destruct (parse _ _) as [parsed|e]; [|by apply Hsame].
  set (links := extract_links_from_html _ _ _ _ _).
  set (w1 := with_redis _ _).
  destruct (enqueue_links_spec (URLPrefix.prefix p) links 0 w1)
    as (new & _ & _ & Hu & Hp & _).
  destruct (enqueue_links _ _ _ _ _) as [added w2]. cbn [fst snd] in *.
  split; [rewrite Hu|rewrite Hp]; subst w1; unfold Db.save_url; cbn; [|done].
  intros k u [[<- <-]|[_ Hq]]%lookup_insert_Some; [done|by apply Hurls].
Qed.

(** X13. In a store that holds every model under its id, when an item
    whose URL has no query or fragment and a deepest prefix that is not
    empty is requeued for lack of a parser: the page was fetched, the
    deepest prefix of the URL is stored with that page as its last sample,
    the same prefix is at the head of the prefix queue, and
    [find_prefix_for_url] now finds a prefix for the URL. *)
Theorem requeued_url_gets_prefix (queue_item : URLQueueItem.t) (w : World) :
  let url := URL.url (URLQueueItem.url queue_item) in
  let R' := redis (snd (process queue_item w)) in
  keyed (redis w) ->
  status (fst (process queue_item w)) = "requeued" ->
  Py.mem_char "?" url = false ->
  Py.mem_char "#" url = false ->
  get_deepest_prefix url <> EmptyString ->
  exists raw_content deepest,
    load_raw_html url = Ok raw_content /\
    Db.load_prefix (get_deepest_prefix url) R' = Some deepest /\
    last (URLPrefix.sample_urls deepest) = Some (SampleURL.mk url (Some raw_content) None) /\
    head (Db.queue_urlprefix R') = Some deepest /\
    is_Some (Db.find_prefix_for_url url R').
Proof.
  intros url R' [_ Hkeyed]. subst R'.
  unfold process_url_queue_item, read_time. cbn [redis readings].
  destruct (_ <? _)%Z; cbn zeta; [done|].
  assert (Hwithout : forall n,
    let R' := redis (snd (without_parser queue_item (mkWorld (redis w) n))) in
    status (fst (without_parser queue_item (mkWorld (redis w) n))) = "requeued" ->
    Py.mem_char "?" url = false ->
    Py.mem_char "#" url = false ->
    get_deepest_prefix url <> EmptyString ->
    exists raw_content deepest,
      load_raw_html url = Ok raw_content /\
      Db.load_prefix (get_deepest_prefix url) R' = Some deepest /\
      last (URLPrefix.sample_urls deepest) = Some (SampleURL.mk url (Some raw_content) None) /\
      head (Db.queue_urlprefix R') = Some deepest /\
      is_Some (Db.find_prefix_for_url url R')).
  { intros n. unfold process_without_parser. fold url. cbn [redis].
    destruct (load_raw_html url) as [raw_content|e]; [|done].
    set (sample := SampleURL.mk url (Some raw_content) None).
    set (queued_prefix := match Db.load_prefix _ _ with Some _ => _ | None => _ end).
    unfold Db.add_to_queue_item, Db.add_to_queue_prefix, Db.save_prefix.
    cbn. intros _ Hq Hf Hne.
    assert (Hid : URLPrefix.id queued_prefix = get_deepest_prefix url).
    { subst queued_prefix.
      destruct (Db.load_prefix (get_deepest_prefix url) (redis w)) as [e|] eqn:He;
        [|done].
      by apply Hkeyed in He. }
    assert (Hload : Db.load_prefix (get_deepest_prefix url)
                      (Db.mkRedis (Db.urls (redis w))
                         (<[URLPrefix.id queued_prefix:=queued_prefix]> (Db.prefixes (redis w)))
                         (Db.strings (redis w))
                         (URLQueueItem.mk (URLQueueItem.url queue_item) (time n + 30)
                            (URLQueueItem.times_queued queue_item + 1)
                          :: Db.queue_urlqueueitem (redis w))
                         (queued_prefix :: Db.queue_urlprefix (redis w)))
                    = Some queued_prefix).
    { unfold Db.load_prefix. cbn. rewrite Hid. apply lookup_insert_eq. }
    exists raw_content, queued_prefix. repeat split; try done.
    - subst queued_prefix.
      destruct (Db.load_prefix (get_deepest_prefix url) (redis w)); [|done].
      cbn. apply last_snoc.
    - destruct (PrefixProps.deepest_prefix_is_found url queued_prefix _ Hq Hf Hne Hload)
        as [q Hfound].
      by exists q. }
  destruct (Db.find_prefix_for_url _ _) as [p|]; [|apply Hwithout].
  destruct (20 <=? _)%nat; [done|].
  destruct (URLPrefix.parser_config p) as [parser_config|]; [|apply Hwithout].
  unfold process_with_parser. cbn [redis].
  destruct (already_parsed _); [done|].
  destruct (load_raw_html _) as [raw_content|e]; [|done].
  destruct (parse _ _) as [parsed|e]; [|done].
  by destruct (enqueue_links _ _ _ _ _) as [added w2].
Qed.

(** X14. One turn of the loop of [run] on a running system whose oldest
    item is not due: the item is taken from the tail of the queue and put
    back at its head, so the queue keeps its length and the stored models
    and the prefix queue are untouched. *)
Theorem early_item_goes_to_the_back (queue_item : URLQueueItem.t) (w : World) :
  Db.is_system_running (redis w) = true ->
  Db.peek_from_queue_item (redis w) = Some queue_item ->
  (time (readings w) < URLQueueItem.process_from_unix_timestamp queue_item)%Z ->
  exists o w',
    step time load_raw_html parse anchor_hrefs urljoin w = (Some o, w') /\
    status o = "deferred" /\
    Db.queue_urlqueueitem (redis w') =
      queue_item :: removelast (Db.queue_urlqueueitem (redis w)) /\
    Db.queue_length_item (redis w') = Db.queue_length_item (redis w) /\
    Db.urls (redis w') = Db.urls (redis w) /\
    Db.prefixes (redis w') = Db.prefixes (redis w) /\
    Db.queue_urlprefix (redis w') = Db.queue_urlprefix (redis w).
Proof.
  intros Hrun Hpeek Hearly. unfold step. rewrite Hrun. cbn [negb].
  unfold Db.get_from_queue_item. unfold Db.peek_from_queue_item in Hpeek.
  rewrite Hpeek. unfold process_url_queue_item, read_time. cbn [redis readings].
  destruct (Z.ltb_spec (time (readings w))
              (URLQueueItem.process_from_unix_timestamp queue_item)) as [_|Hge];
    [|lia].
  eexists _, _. split; [reflexivity|]. cbn. repeat split.
  unfold Db.queue_length_item.
  destruct (Db.queue_urlqueueitem (redis w)) as [|x q] using rev_ind; [done|].
  rewrite removelast_last, length_app. cbn. lia.
Qed.

End Worker.

Lemma discarded_item_leaves_no_trace_witness :
  redis (snd (process_url_queue_item clock offline engine no_anchors join_absolute
                (item 0) (mkWorld Db.empty 0))) = Db.empty.
Proof.
  apply (discarded_item_leaves_no_trace clock offline engine no_anchors join_absolute
           (item 0) (mkWorld Db.empty 0)).
  vm_compute. do 2 apply list_elem_of_further. apply list_elem_of_here.
Defined.

Lemma success_stores_page_witness :
  let w' := snd (process_url_queue_item clock online engine three_anchors join_absolute
                   (item 0) (mkWorld ready_redis 0)) in
  (exists p parser_config raw_content,
     Db.find_prefix_for_url (blog +:+ "/post") ready_redis = Some p /\
     URLPrefix.prefix p = blog /\
     URLPrefix.parser_config p = Some parser_config /\
     online (blog +:+ "/post") = Ok raw_content /\
     engine parser_config raw_content = Ok "page" /\
     Db.load_url (blog +:+ "/post") (redis w') =
       Some (URL.mk (blog +:+ "/post") (Some blog) (Some raw_content) (Some "page"))) /\
  (exists new,
     Db.queue_urlqueueitem (redis w') = new ++ [] /\
     length new = 1 /\
     Forall (fun it =>
               URLQueueItem.times_queued it = 0%Z /\
               URL.prefix (URLQueueItem.url it) = Some blog /\
               Py.startswith (URL.url (URLQueueItem.url it)) blog = true)
            new).
Proof.
  destruct (success_stores_page clock online engine three_anchors join_absolute
              (item 0) (mkWorld ready_redis 0) (blog +:+ "/post") "page" blog 1)
    as (_ & Hpage & Hnew & _); [vm_compute; reflexivity|].
  split; [exact Hpage|exact Hnew].
Defined.

Lemma cap_is_kept_witness :
  capped (redis (snd (process_url_queue_item clock online engine three_anchors
                        join_absolute (item 0) (mkWorld ready_redis 0)))).
Proof.
  apply (cap_is_kept clock online engine three_anchors join_absolute
           (item 0) (mkWorld ready_redis 0)).
  apply capped_small. apply Nat.leb_le. vm_compute. reflexivity.
Defined.

Lemma keys_are_kept_witness :
  keyed (redis (snd (process_url_queue_item clock online engine three_anchors
                       join_absolute (item 0) (mkWorld ready_redis 0)))).
Proof.
  apply (keys_are_kept clock online engine three_anchors join_absolute
           (item 0) (mkWorld ready_redis 0)).
  apply keyed_save_prefix, keyed_empty.
Defined.

Lemma requeued_url_gets_prefix_witness :
  exists raw_content deepest,
    online (blog +:+ "/post") = Ok raw_content /\
    Db.load_prefix blog
      (redis (snd (process_url_queue_item clock online engine no_anchors join_absolute
                     (item 0) (mkWorld Db.empty 0)))) = Some deepest /\
    last (URLPrefix.sample_urls deepest) =
      Some (SampleURL.mk (blog +:+ "/post") (Some raw_content) None) /\
    head (Db.queue_urlprefix
            (redis (snd (process_url_queue_item clock online engine no_anchors
                           join_absolute (item 0) (mkWorld Db.empty 0))))) = Some deepest /\
    is_Some (Db.find_prefix_for_url (blog +:+ "/post")
               (redis (snd (process_url_queue_item clock online engine no_anchors
                              join_absolute (item 0) (mkWorld Db.empty 0))))).
Proof.
  apply (requeued_url_gets_prefix clock online engine no_anchors join_absolute
           (item 0) (mkWorld Db.empty 0)).
  - apply keyed_empty.
  - vm_compute. reflexivity.
  - vm_compute. reflexivity.
  - vm_compute. reflexivity.
  - vm_compute. discriminate.
Defined.

Lemma early_item_goes_to_the_back_witness :
  exists o w',
    step clock online engine no_anchors join_absolute (mkWorld waiting_redis 0)
      = (Some o, w') /\
    status o = "deferred" /\
    Db.queue_urlqueueitem (redis w') = [item 5000].
Proof.
  destruct (early_item_goes_to_the_back clock online engine no_anchors join_absolute
              (item 5000) (mkWorld waiting_redis 0))
    as (o & w' & Hstep & Hst & Hq & _).
  - vm_compute. reflexivity.
  - vm_compute. reflexivity.
  - apply Z.ltb_lt. vm_compute. reflexivity.
  - exists o, w'. auto.
Defined.

End FrontierExtra.

(** ** URL normalization, further (parsing_worker.py) *)

Module NormalizeExtra.
Import Py Urllib Frontier WebUrl StrFacts NormalizeProps.

Lemma elem_of_insert_sorted_iff (z x : string * string) (l : list (string * string)) :
  z ∈ insert_sorted x l <-> z = x \/ z ∈ l.
Proof.
  induction l as [|y l IH]; cbn [insert_sorted].
  - rewrite list_elem_of_singleton. split; [by left|]. intros [H|H]; [done|].
    by apply elem_of_nil in H.
  - destruct (pair_leb x y); rewrite !elem_of_cons; [done|]. rewrite IH. tauto.
Qed.

Lemma elem_of_sort_pairs_iff (z : string * string) (l : list (string * string)) :
  z ∈ sort_pairs l <-> z ∈ l.
Proof.
  induction l as [|x l IH]; [done|]. cbn.
  by rewrite elem_of_insert_sorted_iff, elem_of_cons, IH.
Qed.

Lemma elem_of_flatten_cons (kv : string * string) (k : string) (vs : list string)
      (d : list (string * list string)) :
  kv ∈ flatten ((k, vs) :: d) <-> (fst kv = k /\ snd kv ∈ vs) \/ kv ∈ flatten d.
Proof.
  unfold flatten. cbn [flat_map fst snd]. rewrite elem_of_app.
  apply or_iff_compat_r. rewrite list_elem_of_In, in_map_iff. split.
  - intros (v & <- & Hv). split; [done|]. by apply list_elem_of_In.
  - intros [<- Hv]. exists (snd kv). split; [by destruct kv|]. by apply list_elem_of_In.
Qed.

Lemma elem_of_dict_append (kv : string * string) (k v : string)
      (d : list (string * list string)) :
  kv ∈ flatten (dict_append k v d) <-> kv = (k, v) \/ kv ∈ flatten d.
Proof.
  induction d as [|[k' vs] d IH]; cbn [dict_append].
  - rewrite elem_of_flatten_cons, list_elem_of_singleton. destruct kv as [a b]. cbn.
    split; [intros [[-> ->]|H]; [by left|by right]|].
    intros [[= -> ->]|H]; [by left|by right].
  - destruct (String.eqb_spec k' k) as [->|Hne].
    + rewrite !elem_of_flatten_cons, elem_of_app, list_elem_of_singleton.
      destruct kv as [a b]. cbn. split.
      * intros [[-> [H| ->]]|H]; [right; left|left|right; right]; done.
      * intros [[= -> ->]|[[-> H]|H]]; [left|left|right]; try done.
        -- split; [done|by right].
        -- split; [done|by left].
    + rewrite !elem_of_flatten_cons, IH. tauto.
Qed.

Lemma elem_of_group (kv : string * string) (l : list (string * string))
      (d : list (string * list string)) :
  kv ∈ flatten (foldl add_pair d l) <-> kv ∈ flatten d \/ kv ∈ l.
Proof.
  revert d. induction l as [|[k v] l IH]; intros d; cbn [foldl].
  - split; [by left|]. intros [H|H]; [done|]. by apply elem_of_nil in H.
  - rewrite IH. unfold add_pair at 1. cbn [fst snd].
    rewrite elem_of_dict_append, elem_of_cons. tauto.
Qed.

Lemma elem_of_filter_params (kv : string * string) (d : list (string * list string)) :
  kv ∈ filter_params d <-> kv ∈ flatten d /\ kept kv.
Proof.
  split.
  - intros H. split; [|by apply (filter_params_kept d)].
    induction d as [|[key values] d IH]; [done|]. cbn in H.
    apply elem_of_app in H as [H|H]; apply elem_of_flatten_cons; [left|right; by apply IH].
    destruct (bool_decide (lower key ∈ tracking_params)); [by apply elem_of_nil in H|].
    apply list_elem_of_fmap in H as (v & -> & Hv).
    apply list_elem_of_In, filter_In in Hv as [Hv _]. split; [done|].
    by apply list_elem_of_In.
  - intros [H [Htrack Hvalue]]. induction d as [|[key values] d IH];
      [done|]. cbn. apply elem_of_app.
    apply elem_of_flatten_cons in H as [[<- Hv]|H]; [left|right; by apply IH].
    rewrite Htrack. apply list_elem_of_fmap. exists (snd kv). split; [by destruct kv|].
    apply list_elem_of_In, filter_In. split; [by apply list_elem_of_In|done].
Qed.

Lemma parse_qsl_empty : parse_qsl EmptyString = [].
Proof. reflexivity. Qed.

(** X15. On a web URL [scheme://host path?query] (scheme http or https in
    any case, host of ASCII letters, digits, dots and hyphens, path empty
    or starting with a slash and without [';'], ['?'], ['#'], tab, carriage
    return or newline, query without ['#'], tab, carriage return or newline
    that is ASCII text once its percent-escapes are decoded),
    [normalize_url] returns the lower-cased scheme and host without one
    leading ["www."], the path without one trailing slash (the path ["/"]
    is kept), and a query made of exactly the parameters of the original
    query that are not tracking parameters and whose value is not blank,
    sorted. *)
Theorem normalized_query_keeps_exactly (s h p q : string) :
  is_web_scheme s = true -> is_host h = true -> is_path p = true ->
  is_query q = true -> is_ascii_query q = true ->
  exists pairs,
    normalize_url (web_url s h p (Some q))
    = web_url (lower s) (strip_www (lower h)) (strip_slash p) (encoded pairs) /\
    sorted pairs = true /\
    forall kv, kv ∈ pairs <-> kv ∈ parse_qsl q /\ kept kv.
Proof.
  intros Hs Hh Hp Hq _. exists (query_pairs q). split; [|split].
  - by apply (normalize_web s h p (Some q)).
  - apply query_pairs_sorted.
  - intros kv. unfold query_pairs. destruct (truthy q) eqn:Hq0.
    + rewrite elem_of_sort_pairs_iff, elem_of_filter_params, parse_qs_group, elem_of_group.
      split; [intros [[H|H] Hk]; [by apply elem_of_nil in H|done]|].
      intros [H Hk]. split; [by right|done].
    + destruct q; [|done]. rewrite parse_qsl_empty. split; [by intros ?%elem_of_nil|].
      by intros [?%elem_of_nil _].
Qed.

Lemma normalized_query_keeps_exactly_witness :
  exists pairs,
    normalize_url (web_url "HTTPS" "WWW.Example.COM" "/Blog/"
                           (Some "utm_source=mail&b=2&a=x%20y&c=&REF=z"))
    = web_url "https" "example.com" "/Blog" (encoded pairs) /\
    sorted pairs = true /\
    forall kv, kv ∈ pairs <->
               kv ∈ parse_qsl "utm_source=mail&b=2&a=x%20y&c=&REF=z" /\ kept kv.
Proof.
  apply (normalized_query_keeps_exactly "HTTPS" "WWW.Example.COM" "/Blog/"
           "utm_source=mail&b=2&a=x%20y&c=&REF=z"); vm_compute; reflexivity.
Defined.

End NormalizeExtra.

(** ** Cleaning and text extraction, further (clean_html.py, parser.py) *)

Module CleanProps.
Import Engine CleanSpec.

Lemma node_tree_ind (P : node -> Prop) :
  (forall cls text, P (Str cls text)) ->
  (forall uid name attrs contents, Forall P contents -> P (Tag uid name attrs contents)) ->
  forall n, P n.
Proof.
  intros Hstr Htag. fix IH 1. intros [cls text|uid name attrs contents].
  - apply Hstr.
  - apply Htag. induction contents as [|c contents IHc]; constructor; [apply IH|apply IHc].
Qed.

Lemma find_all_app (s t : soup) : find_all (s ++ t) = find_all s ++ find_all t.
Proof. unfold find_all. by rewrite flat_map_app, List.filter_app. Qed.

Lemma find_all_cons (n : node) (s : soup) : find_all (n :: s) = find_all [n] ++ find_all s.
Proof. apply (find_all_app [n] s). Qed.

Lemma find_all_tag uid name attrs contents :
  find_all [Tag uid name attrs contents] = Tag uid name attrs contents :: find_all contents.
Proof. unfold find_all. cbn. by rewrite app_nil_r. Qed.

Lemma find_all_flat_map (t : node -> list node) (s : soup) (el : node) :
  el ∈ find_all (flat_map t s) <-> exists n, n ∈ s /\ el ∈ find_all (t n).
Proof.
  induction s as [|n s IH]; cbn [flat_map].
  - split; [by intros ?%elem_of_nil|]. by intros (n & ?%elem_of_nil & _).
  - rewrite find_all_app, elem_of_app, IH. split.
    + intros [H|(m & Hm & H)].
      * exists n. split; [apply list_elem_of_here|done].
      * exists m. split; [by apply list_elem_of_further|done].
    + intros (m & [->|Hm]%elem_of_cons & H); [by left|]. right. by exists m.
Qed.

Lemma find_all_member (n : node) (s : soup) (el : node) :
  n ∈ s -> el ∈ find_all [n] -> el ∈ find_all s.
Proof.
  intros Hn Hel. induction s as [|m s IH]; [by apply elem_of_nil in Hn|].
  rewrite find_all_cons, elem_of_app.
  apply elem_of_cons in Hn as [->|Hn]; [by left|right; by apply IH].
Qed.

Lemma decompose_in_removes (u : nat) : removes u (decompose_in u).
Proof.
  intros n. induction n as [cls text|v name attrs contents IH] using node_tree_ind;
    intros el'; cbn [decompose_in].
  - by intros ?%elem_of_nil.
  - destruct (Nat.eqb_spec v u) as [->|Hne]; [by intros ?%elem_of_nil|].
    rewrite find_all_tag. intros [->|Hel]%elem_of_cons.
    + split; [done|]. eexists. split; [rewrite find_all_tag; apply list_elem_of_here|done].
    + apply find_all_flat_map in Hel as (c & Hc & Hel).
      rewrite Forall_forall in IH. destruct (IH c Hc el' Hel) as (Hu & el & Hin & Hsame).
      split; [done|]. exists el. split; [|done].
      rewrite find_all_tag. apply list_elem_of_further. by apply (find_all_member c).
Qed.

Lemma replace_with_in_removes (u : nat) (cls : string_class) (text : string) :
  removes u (replace_with_in u (Str cls text)).
Proof.
  intros n. induction n as [cls' text'|v name attrs contents IH] using node_tree_ind;
    intros el'; cbn [replace_with_in].
  - by intros ?%elem_of_nil.
  - destruct (Nat.eqb_spec v u) as [->|Hne]; [by intros ?%elem_of_nil|].
    rewrite find_all_tag. intros [->|Hel]%elem_of_cons.
    + split; [done|]. eexists. split; [rewrite find_all_tag; apply list_elem_of_here|done].
    + apply find_all_flat_map in Hel as (c & Hc & Hel).
      rewrite Forall_forall in IH. destruct (IH c Hc el' Hel) as (Hu & el & Hin & Hsame).
      split; [done|]. exists el. split; [|done].
      rewrite find_all_tag. apply list_elem_of_further. by apply (find_all_member c).
Qed.

Lemma same_tag_trans (a b c : node) : same_tag a b -> same_tag b c -> same_tag a c.
Proof. intros (?&?&?) (?&?&?). repeat split; congruence. Qed.

(** The loop [for el in els: soup = mutate(el)] over such a mutation. *)
Lemma removes_each (mutate : nat -> node -> list node) :
  (forall u, removes u (mutate u)) ->
  forall (els : list node) (s : soup) (el' : node),
    el' ∈ find_all (foldl (fun cur el => flat_map (mutate (tag_uid el)) cur) s els) ->
    (forall e, e ∈ els -> tag_uid el' <> tag_uid e) /\
    exists el, el ∈ find_all s /\ same_tag el el'.
Proof.
  intros Hmutate. induction els as [|e els IH]; intros s el' Hel; cbn [foldl] in Hel.
  - split; [by intros e ?%elem_of_nil|]. by exists el'.
  - destruct (IH _ _ Hel) as (Hothers & el1 & Hel1 & Hsame1).
    apply find_all_flat_map in Hel1 as (n & Hn & Hel1).
    destruct (Hmutate _ _ _ Hel1) as (Hu & el & Hin & Hsame).
    split.
    + intros e' [->|He']%elem_of_cons; [|by apply Hothers].
      destruct Hsame1 as (<- & _). done.
    + exists el. split; [by apply (find_all_member n)|by apply (same_tag_trans _ el1)].
Qed.

Lemma hidden_same_tag (el el' : node) : same_tag el el' -> hidden el = hidden el'.
Proof. intros (_ & _ & Hattrs). unfold hidden, attr. by rewrite Hattrs. Qed.

Lemma find_all_named_member (names : list string) (s : soup) (el : node) :
  el ∈ find_all s -> tag_name el ∈ names -> el ∈ find_all_named names s.
Proof.
  intros Hel Hname. unfold find_all_named.
  apply list_elem_of_In, List.filter_In. split; [by apply list_elem_of_In|].
  by apply bool_decide_eq_true.
Qed.

(** X16. [clean_html] leaves no element named style, svg, canvas,
    template, head, meta or noscript, no hidden element and no [br], and
    every element it leaves was in the tree it was given, with the same
    name and attributes. *)
Theorem clean_html_removes (s : soup) :
  Forall (fun el' =>
            (tag_name el' ∉ non_content) /\
            hidden el' = false /\
            tag_name el' <> "br" /\
            exists el, el ∈ find_all s /\ same_tag el el')
         (find_all (clean_html s)).
Proof.
  apply Forall_forall. intros el3 Hel3. unfold clean_html in Hel3. cbn zeta in Hel3.
  set (s1 := decompose_each (find_all_named non_content s) s) in *.
  set (s2 := decompose_each (List.filter hidden (find_all s1)) s1) in *.
  destruct (removes_each (fun u => replace_with_in u (Str NavigableString newline))
              (fun u => replace_with_in_removes u _ _) _ _ _ Hel3)
    as (Hbr & el2 & Hel2 & Hsame2).
  destruct (removes_each decompose_in decompose_in_removes _ _ _ Hel2)
    as (Hhidden & el1 & Hel1 & Hsame1).
  destruct (removes_each decompose_in decompose_in_removes _ _ _ Hel1)
    as (Hnon & el & Hel & Hsame).
  pose proof (same_tag_trans _ _ _ Hsame1 Hsame2) as Hsame13.
  pose proof (same_tag_trans _ _ _ Hsame Hsame13) as Hsame03.
  repeat split.
  - intros Hname. destruct Hsame03 as (Hu & Hn & _), Hsame13 as (Hu1 & _).
    apply (Hnon el).
    + apply find_all_named_member; [done|]. by rewrite Hn.
    + congruence.
  - destruct (hidden el3) eqn:Hh; [|done]. exfalso.
    rewrite <- (hidden_same_tag _ _ Hsame13) in Hh.
    apply (Hhidden el1); [|by destruct Hsame1].
    apply list_elem_of_In, List.filter_In. split; [by apply list_elem_of_In|done].
  - intros Hname. destruct Hsame2 as (Hu & Hn & _).
    apply (Hbr el2); [|done].
    apply find_all_named_member; [done|]. rewrite Hn, Hname. apply list_elem_of_here.
  - by exists el.
Qed.

End CleanProps.

Module TrimProps.
Import Engine CleanSpec TrimSpec CleanProps EngineExamples.

Lemma unwrap_in_removes (u : nat) : removes u (unwrap_in u).
Proof.
  intros n. induction n as [cls text|v name attrs contents IH] using node_tree_ind;
    intros el'; cbn [unwrap_in].
  - by intros ?%elem_of_nil.
  - assert (Hinside : el' ∈ find_all (flat_map (unwrap_in u) contents) ->
              tag_uid el' <> u /\
              exists el, el ∈ find_all [Tag v name attrs contents] /\ same_tag el el').
    { intros Hel. apply find_all_flat_map in Hel as (c & Hc & Hel).
      rewrite Forall_forall in IH. destruct (IH c Hc el' Hel) as (Hu & el & Hin & Hsame).
      split; [done|]. exists el. split; [|done].
      rewrite find_all_tag. apply list_elem_of_further. by apply (find_all_member c). }
    destruct (Nat.eqb_spec v u) as [->|Hne]; [done|].
    rewrite find_all_tag. intros [->|Hel]%elem_of_cons; [|by apply Hinside].
    split; [done|]. eexists. split; [rewrite find_all_tag; apply list_elem_of_here|done].
Qed.

Lemma same_tag_refl (el : node) : same_tag el el.
Proof. by repeat split. Qed.

(** The loop [for el in els: f(el)] over such a mutation, by identity. *)
Lemma removes_ids (mutate : nat -> node -> list node) :
  (forall u, removes u (mutate u)) ->
  forall (ids : list nat) (s : soup) (el' : node),
    el' ∈ find_all (foldl (fun cur u => flat_map (mutate u) cur) s ids) ->
    (forall u, u ∈ ids -> tag_uid el' <> u) /\
    exists el, el ∈ find_all s /\ same_tag el el'.
Proof.
  intros Hmutate. induction ids as [|u ids IH]; intros s el' Hel; cbn [foldl] in Hel.
  - split; [by intros e ?%elem_of_nil|]. exists el'. split; [done|apply same_tag_refl].
  - destruct (IH _ _ Hel) as (Hothers & el1 & Hel1 & Hsame1).
    apply find_all_flat_map in Hel1 as (n & Hn & Hel1).
    destruct (Hmutate _ _ _ Hel1) as (Hu & el & Hin & Hsame).
    split.
    + intros u' [->|Hu']%elem_of_cons; [|by apply Hothers].
      destruct Hsame1 as (<- & _). done.
    + exists el. split; [by apply (find_all_member n)|by apply (same_tag_trans _ el1)].
Qed.

(** The loop of the pruning over any list of elements. *)
Lemma prune_loop (keep_set : gset nat) (els : list node) (s : soup) (el' : node) :
  el' ∈ find_all
        (foldl (fun cur el =>
                  if bool_decide (tag_name el ∈ ["html"; "head"; "body"]) then cur
                  else if bool_decide (tag_uid el ∉ keep_set)
                       then decompose (tag_uid el) cur
                       else cur)
               s els) ->
  (forall el, el ∈ els -> tag_name el ∉ protected -> tag_uid el ∉ keep_set ->
              tag_uid el' <> tag_uid el) /\
  exists el, el ∈ find_all s /\ same_tag el el'.
Proof.
  revert s. induction els as [|e els IH]; intros s Hel; cbn [foldl] in Hel.
  - split; [by intros e ?%elem_of_nil|]. exists el'. split; [done|apply same_tag_refl].
  - destruct (IH _ Hel) as (Hothers & el1 & Hel1 & Hsame1).
    destruct (bool_decide (tag_name e ∈ ["html"; "head"; "body"])) eqn:Hprot.
    { apply bool_decide_eq_true in Hprot. split; [|by exists el1].
      intros el [->|Hin]%elem_of_cons; [done|by apply Hothers]. }
    destruct (bool_decide (tag_uid e ∉ keep_set)) eqn:Hkeep.
    + apply find_all_flat_map in Hel1 as (n & Hn & Hel1).
      destruct (decompose_in_removes _ _ _ Hel1) as (Hu & el & Hin & Hsame).
      split.
      * intros el0 [->|Hin0]%elem_of_cons; [|by apply Hothers].
        intros _ _. destruct Hsame1 as (<- & _). done.
      * exists el. split; [by apply (find_all_member n)|by apply (same_tag_trans _ el1)].
    + apply bool_decide_eq_false in Hkeep. split; [|by exists el1].
      intros el [->|Hin]%elem_of_cons; [done|by apply Hothers].
Qed.

Lemma prune_spec (keep_set : gset nat) (s : soup) (el' : node) :
  el' ∈ find_all (prune keep_set s) ->
  (tag_name el' ∈ protected \/ tag_uid el' ∈ keep_set) /\
  exists el, el ∈ find_all s /\ same_tag el el'.
Proof.
  intros Hel. destruct (prune_loop keep_set (find_all s) s el' Hel) as (Hloop & el & Hin & Hsame).
  split; [|by exists el].
  destruct (decide (tag_name el' ∈ protected)) as [|Hname]; [by left|].
  destruct (decide (tag_uid el' ∈ keep_set)) as [|Huid]; [by right|].
  exfalso. destruct Hsame as (Hu & Hn & _). apply (Hloop el Hin); congruence.
Qed.

Lemma elem_of_keep_set (u : nat) (els : list nat) (s : soup) (acc : gset nat) :
  u ∈ foldl (fun keep_set r =>
               keep_set ∪ {[r]} ∪ list_to_set (descendant_ids r s)
                        ∪ list_to_set (parents r s))
            acc els <->
  u ∈ acc \/
  exists r, r ∈ els /\ (u = r \/ u ∈ descendant_ids r s \/ u ∈ parents r s).
Proof.
  revert acc. induction els as [|r els IH]; intros acc; cbn [foldl].
  - split; [by left|]. intros [H|(r & Hr%elem_of_nil & _)]; done.
  - rewrite IH, !elem_of_union, elem_of_singleton, !elem_of_list_to_set. split.
    + intros [[[[H|H]|H]|H]|(r' & Hr' & H)]; [by left|right; exists r..|].
      * split; [apply list_elem_of_here|by left].
      * split; [apply list_elem_of_here|right; by left].
      * split; [apply list_elem_of_here|right; by right].
      * right. exists r'. split; [by apply list_elem_of_further|done].
    + intros [H|(r' & [->|Hr']%elem_of_cons & H)].
      * left. left. left. by left.
      * left. destruct H as [H|[H|H]]; [left; left; by right|left; by right|by right].
      * right. by exists r'.
Qed.

Section Parser.
Variable select : string -> soup -> result (list nat).

(** X17. When the root selectors match, the root step leaves only html,
    head and body, the matched elements, their descendants and their
    ancestors, each as it was in the tree (same identity, name and
    attributes). *)
Theorem matched_root_leaves_only_kept (p : ParserParameters.t) (s s' : soup)
        (roots : list nat) :
  select_all select (ParserParameters.root p) s = Ok roots ->
  roots <> [] ->
  root_step select p s = Ok s' ->
  Forall (survivor s roots) (find_all s').
Proof.
  intros Hselect Hroots. unfold root_step.
  destruct (ParserParameters.root p) as [|sel sels] eqn:Hp.
  { cbn in Hselect. by injection Hselect as <-. }
  rewrite Hselect. cbn [bind]. destruct roots as [|r roots]; [done|].
  intros [= <-]. apply Forall_forall. intros el' Hel.
  apply prune_spec in Hel as [Hkept Hwas]. split; [|done].
  destruct Hkept as [Hname|Huid]; [by left|]. right.
  unfold keep_set_of in Huid. apply elem_of_keep_set in Huid as [Huid|Huid]; [|done].
  by apply elem_of_empty in Huid.
Qed.

Lemma for_each_selected_subset (mutate : nat -> node -> list node) :
  (forall u, removes u (mutate u)) ->
  forall (selectors : list string) (s s' : soup) (el' : node),
    for_each_selected select (fun u cur => flat_map (mutate u) cur) selectors s = Ok s' ->
    el' ∈ find_all s' ->
    exists el, el ∈ find_all s /\ same_tag el el'.
Proof.
  intros Hmutate. induction selectors as [|sel sels IH]; intros s s' el'; cbn.
  - intros [= <-] Hel. exists el'. split; [done|apply same_tag_refl].
  - destruct (select sel s) as [els|e]; [|done]. cbn [bind]. intros Hrest Hel.
    destruct (IH _ _ _ Hrest Hel) as (el1 & Hel1 & Hsame1).
    destruct (removes_ids mutate Hmutate _ _ _ Hel1) as (_ & el & Hin & Hsame).
    exists el. split; [done|by apply (same_tag_trans _ el1)].
Qed.

Lemma restriction_subset (selectors : list string) (s s' : soup) (el' : node) :
  match selectors with
  | [] => Ok s
  | _ =>
      bind (select_all select selectors s) (fun els =>
      match els with
      | [] => Ok s
      | _ => Ok (prune (keep_set_of els s) s)
      end)
  end = Ok s' ->
  el' ∈ find_all s' ->
  exists el, el ∈ find_all s /\ same_tag el el'.
Proof.
  assert (Hsame : Ok s = Ok s' -> el' ∈ find_all s' ->
            exists el, el ∈ find_all s /\ same_tag el el').
  { intros [= <-] Hel. exists el'. split; [done|apply same_tag_refl]. }
  destruct selectors as [|sel sels]; [done|].
  destruct (select_all select (sel :: sels) s) as [els|e]; [|done]. cbn [bind].
  destruct els as [|r els]; [done|]. intros [= <-] Hel.
  by apply prune_spec in Hel as [_ Hwas].
Qed.

(** X18. [_trim_soup] only removes: every element of the tree it returns
    was in the tree it was given, with the same identity, name and
    attributes. *)
Theorem trim_soup_only_removes (p : ParserParameters.t) (s s' : soup) :
  _trim_soup select p s = Ok s' ->
  Forall (fun el' => exists el, el ∈ find_all s /\ same_tag el el') (find_all s').
Proof.
  unfold _trim_soup, keep_step, unwrap_step, drop_step.
  destruct (root_step select p s) as [s1|e] eqn:Hroot; [|done]. cbn [bind].
  destruct (for_each_selected select decompose (ParserParameters.drop p) s1)
    as [s2|e] eqn:Hdrop; [|done]. cbn [bind].
  destruct (for_each_selected select unwrap (ParserParameters.unwrap p) s2)
    as [s3|e] eqn:Hunwrap; [|done]. cbn [bind].
  intros Hkeep. apply Forall_forall. intros el4 Hel4.
  destruct (restriction_subset _ _ _ _ Hkeep Hel4) as (el3 & Hel3 & Hsame3).
  destruct (for_each_selected_subset unwrap_in unwrap_in_removes _ _ _ _ Hunwrap Hel3)
    as (el2 & Hel2 & Hsame2).
  destruct (for_each_selected_subset decompose_in decompose_in_removes _ _ _ _ Hdrop Hel2)
    as (el1 & Hel1 & Hsame1).
  destruct (restriction_subset _ _ _ _ Hroot Hel1) as (el & Hel & Hsame).
  exists el. split; [done|].
  eauto using same_tag_trans.
Qed.

End Parser.

(** *** On the example document *)

Lemma matched_root_leaves_only_kept_witness :
  Forall (survivor example_soup [4])
         (find_all
            [Tag 1 "html" []
               [Tag 2 "body" []
                  [Tag 4 "main" []
                     [Tag 5 "p" [] [Str NavigableString "Hello"];
                      Tag 6 "script" [] [Str Script "bad"]]]]]).
Proof.
  apply (matched_root_leaves_only_kept Html.select
           (ParserParameters.mk ["main"] [] [] []) example_soup).
  - vm_compute. reflexivity.
  - discriminate.
  - vm_compute. reflexivity.
Defined.

Lemma trim_soup_only_removes_witness :
  Forall (fun el' => exists el, el ∈ find_all example_soup /\ same_tag el el')
         (find_all
            [Tag 1 "html" []
               [Tag 2 "body" []
                  [Tag 4 "main" [] [Tag 5 "p" [] [Str NavigableString "Hello"]]]]]).
Proof.
  apply (trim_soup_only_removes Html.select (ParserConfig.parameters example_config)
           example_soup).
  vm_compute. reflexivity.
Defined.

End TrimProps.

Module TextProps.
Import Py Urllib Engine TextSpec StrFacts.

Local Abbreviation nl := (ascii_of_nat 10).

Ltac by_cases_on c := destruct c as [[] [] [] [] [] [] [] []]; vm_compute; try done.

Lemma space_is_blank (c : ascii) : ascii_eqb " " c = true -> is_blank c = true.
Proof. by_cases_on c. Qed.

Lemma tab_is_blank (c : ascii) : ascii_eqb tab c = true -> is_blank c = true.
Proof. by_cases_on c. Qed.

Lemma newline_not_blank (c : ascii) : ascii_eqb c nl = true -> is_blank c = false.
Proof. by_cases_on c. Qed.

Lemma newline_sym (c : ascii) : ascii_eqb nl c = ascii_eqb c nl.
Proof. apply Ascii.eqb_sym. Qed.

Lemma space_not_newline (c : ascii) : ascii_eqb " " c = true -> ascii_eqb c nl = false.
Proof. by_cases_on c. Qed.

(** *** Characters survive, never appear *)

Lemma all_chars_collapse_newlines (f : ascii -> bool) (n : nat) (s : string) :
  all_chars f s = true -> all_chars f (collapse_newlines n s) = true.
Proof.
  revert n. induction s as [|c s IH]; intros n; cbn [collapse_newlines all_chars]; [done|].
  intros [Hc Hs]%andb_true_iff.
  destruct (ascii_eqb c nl); [destruct (n <? 2)%nat|]; cbn [all_chars];
    rewrite ?Hc, ?IH; done.
Qed.

Lemma all_chars_lstrip (f : ascii -> bool) (s : string) :
  all_chars f s = true -> all_chars f (lstrip s) = true.
Proof.
  induction s as [|c s IH]; cbn [lstrip all_chars]; [done|].
  intros [Hc Hs]%andb_true_iff.
  destruct (isspace c); [by apply IH|]. cbn [all_chars]. by rewrite Hc, Hs.
Qed.

Lemma all_chars_rstrip (f : ascii -> bool) (s : string) :
  all_chars f s = true -> all_chars f (rstrip s) = true.
Proof.
  induction s as [|c s IH]; cbn [rstrip all_chars]; [done|].
  intros [Hc Hs]%andb_true_iff. specialize (IH Hs).
  destruct (rstrip s) as [|d t].
  - destruct (isspace c); [done|]. cbn [all_chars]. by rewrite Hc.
  - change (f c && all_chars f (String d t) = true). by rewrite Hc, IH.
Qed.

Lemma no_tab_collapse_blanks (b : bool) (s : string) :
  all_chars (fun d => negb (ascii_eqb tab d)) (collapse_blanks b s) = true.
Proof.
  revert b. induction s as [|c s IH]; intros b; cbn [collapse_blanks]; [done|].
  destruct (is_blank c) eqn:Hblank.
  - destruct b; [apply IH|]. cbn [all_chars]. by rewrite IH.
  - cbn [all_chars]. rewrite IH.
    destruct (ascii_eqb tab c) eqn:Htab; [|done].
    apply tab_is_blank in Htab. congruence.
Qed.

(** *** Substrings of a prefix or a suffix *)

Lemma startswith_app_r (a t sub : string) :
  startswith a sub = true -> startswith (a +:+ t) sub = true.
Proof.
  revert a. induction sub as [|x sub IH]; intros a; [done|].
  destruct a as [|y a]; [done|]. rewrite app_cons. cbn [startswith].
  intros [-> H]%andb_true_iff. by rewrite (IH _ H).
Qed.

Lemma contains_tail (c : ascii) (s sub : string) :
  contains (String c s) sub = false -> contains s sub = false.
Proof. cbn [contains]. by intros [_ H]%orb_false_iff. Qed.

Lemma contains_prefix (a t sub : string) :
  contains (a +:+ t) sub = false -> contains a sub = false.
Proof.
  induction a as [|c a IH].
  - rewrite app_nil_l. intros H. cbn [contains]. rewrite orb_false_r.
    destruct (startswith EmptyString sub) eqn:Hs; [|done].
    pose proof (startswith_app_r EmptyString t sub Hs) as Ht. rewrite app_nil_l in Ht.
    destruct t; cbn [contains] in H; by rewrite Ht in H.
  - rewrite app_cons. cbn [contains]. intros [Hs H]%orb_false_iff.
    rewrite (IH H), orb_false_r.
    destruct (startswith (String c a) sub) eqn:Hc; [|done].
    pose proof (startswith_app_r (String c a) t sub Hc) as Ht.
    rewrite app_cons in Ht. congruence.
Qed.

Lemma contains_lstrip (s sub : string) :
  contains s sub = false -> contains (lstrip s) sub = false.
Proof.
  induction s as [|c s IH]; [done|]. intros H. cbn [lstrip].
  destruct (isspace c); [|done]. apply IH. by apply contains_tail in H.
Qed.

Lemma rstrip_prefix (s : string) : exists t, s = rstrip s +:+ t.
Proof.
  induction s as [|c s [t IH]]; [by exists EmptyString|]. cbn [rstrip].
  destruct (rstrip s) as [|d r].
  - destruct (isspace c).
    + by exists (String c s).
    + exists s. by rewrite app_cons, app_nil_l.
  - exists t. rewrite app_cons. by f_equal.
Qed.

Lemma contains_rstrip (s sub : string) :
  contains s sub = false -> contains (rstrip s) sub = false.
Proof.
  destruct (rstrip_prefix s) as [t Ht]. rewrite Ht at 1. apply contains_prefix.
Qed.

Lemma contains_strip (s sub : string) :
  contains s sub = false -> contains (strip s) sub = false.
Proof. intros H. by apply contains_rstrip, contains_lstrip. Qed.

(** *** Runs of blanks *)

Lemma collapse_blanks_runs (b : bool) (s : string) :
  contains (collapse_blanks b s) two_blanks = false /\
  (b = true -> startswith (collapse_blanks b s) " " = false).
Proof.
  revert b. induction s as [|c s IH]; intros b; cbn [collapse_blanks]; [by destruct b|].
  destruct (is_blank c) eqn:Hblank.
  - destruct (IH true) as [Hruns Hstart]. destruct b; [done|]. split; [|done].
    cbn [contains]. rewrite Hruns, orb_false_r.
    unfold two_blanks. cbn [startswith].
    change (ascii_eqb " " " ") with true. cbn [andb].
    specialize (Hstart eq_refl).
    destruct (collapse_blanks true s) as [|d r]; [done|].
    cbn [startswith] in *. by rewrite andb_true_r in *.
  - destruct (IH false) as [Hruns _].
    assert (Hc : ascii_eqb " " c = false).
    { destruct (ascii_eqb " " c) eqn:E; [|done]. apply space_is_blank in E. congruence. }
    split.
    + cbn [contains]. rewrite Hruns, orb_false_r.
      unfold two_blanks. cbn [startswith]. by rewrite Hc.
    + intros _. cbn [startswith]. by rewrite Hc.
Qed.

Lemma collapse_newlines_head (s : string) :
  startswith (collapse_newlines 0 s) " " = startswith s " ".
Proof.
  destruct s as [|c s]; [done|]. cbn [collapse_newlines].
  destruct (ascii_eqb c nl) eqn:Hc; [|done].
  change (0 <? 2)%nat with true. cbn iota. cbn [startswith].
  reflexivity.
Qed.

Lemma collapse_newlines_blanks (n : nat) (s : string) :
  contains s two_blanks = false ->
  contains (collapse_newlines n s) two_blanks = false.
Proof.
  revert n. induction s as [|c s IH]; intros n; [done|]. intros H.
  pose proof (contains_tail _ _ _ H) as Htail.
  cbn [collapse_newlines]. destruct (ascii_eqb c nl) eqn:Hc.
  - destruct (n <? 2)%nat; [|by apply IH].
    cbn [contains]. rewrite (IH _ Htail), orb_false_r.
    unfold two_blanks. cbn [startswith].
    destruct (ascii_eqb " " c) eqn:E; [|done].
    apply space_not_newline in E. congruence.
  - cbn [contains]. rewrite (IH _ Htail), orb_false_r.
    cbn [contains] in H. apply orb_false_iff in H as [H _].
    unfold two_blanks in *. cbn [startswith] in *.
    destruct (ascii_eqb " " c); [|done]. cbn [andb] in *.
    fold (startswith (collapse_newlines 0 s) " ").
    fold (startswith s " ") in H. by rewrite collapse_newlines_head.
Qed.

(** *** Runs of newlines *)

Lemma collapse_newlines_runs (n : nat) (s : string) :
  contains (collapse_newlines n s) three_newlines = false /\
  (1 <= n -> startswith (collapse_newlines n s) (Engine.newline +:+ Engine.newline) = false) /\
  (2 <= n -> startswith (collapse_newlines n s) Engine.newline = false).
Proof.
  revert n. induction s as [|c s IH]; intros n; cbn [collapse_newlines]; [done|].
  destruct (ascii_eqb c nl) eqn:Hc.
  - destruct (Nat.ltb_spec n 2) as [Hn|Hn].
    + destruct (IH (S n)) as (Hruns & Hone & Htwo).
      rewrite <- newline_sym in Hc. split; [|split].
      * cbn [contains]. rewrite Hruns, orb_false_r.
        unfold three_newlines, Engine.newline. cbn [startswith]. rewrite ?app_cons, ?app_nil_l.
        cbn [startswith]. rewrite Hc. cbn [andb].
        apply Hone. lia.
      * intros Hn1. unfold Engine.newline. rewrite ?app_cons, ?app_nil_l.
        cbn [startswith]. rewrite Hc. cbn [andb]. apply Htwo. lia.
      * lia.
    + destruct (IH (S n)) as (Hruns & Hone & Htwo).
      split; [done|]. split; intros _; [apply Hone|apply Htwo]; lia.
  - destruct (IH 0) as (Hruns & _ & _). rewrite <- newline_sym in Hc.
    split; [|split].
    + cbn [contains]. rewrite Hruns, orb_false_r.
      unfold three_newlines, Engine.newline. rewrite ?app_cons, ?app_nil_l.
      cbn [startswith]. by rewrite Hc.
    + intros _. unfold Engine.newline. rewrite ?app_cons, ?app_nil_l.
      cbn [startswith]. by rewrite Hc.
    + intros _. unfold Engine.newline. cbn [startswith]. by rewrite Hc.
Qed.

(** *** strip twice *)

Lemma rstrip_idem (s : string) : rstrip (rstrip s) = rstrip s.
Proof.
  induction s as [|c s IH]; [done|]. cbn [rstrip].
  destruct (rstrip s) as [|d r] eqn:Hr.
  - destruct (isspace c) eqn:Hc; [done|]. cbn [rstrip]. by rewrite Hc.
  - change (rstrip (String c (String d r))) with
      (match rstrip (String d r) with
       | EmptyString => if isspace c then EmptyString else String c EmptyString
       | t => String c t
       end).
    by rewrite IH.
Qed.

Lemma lstrip_head (s : string) :
  match lstrip s with
  | EmptyString => True
  | String c _ => isspace c = false
  end.
Proof.
  induction s as [|c s IH]; [done|]. cbn [lstrip].
  by destruct (isspace c) eqn:Hc.
Qed.

Lemma strip_idem (s : string) : strip (strip s) = strip s.
Proof.
  unfold strip. pose proof (lstrip_head s) as Hhead.
  destruct (lstrip s) as [|c r]; [done|].
  assert (Hz : exists z, rstrip (String c r) = String c z).
  { cbn [rstrip]. destruct (rstrip r); [rewrite Hhead|]; by eexists. }
  destruct Hz as [z Hz]. rewrite Hz. cbn [lstrip]. rewrite Hhead.
  rewrite <- Hz. apply rstrip_idem.
Qed.

(** X19. The text [_soup_to_text] returns has no tab, no two blanks in a
    row and no three newlines in a row, and is stripped: stripping it again
    changes nothing. *)
Theorem soup_to_text_is_normalized (s : soup) :
  mem_char tab (_soup_to_text s) = false /\
  contains (_soup_to_text s) two_blanks = false /\
  contains (_soup_to_text s) three_newlines = false /\
  strip (_soup_to_text s) = _soup_to_text s.
Proof.
  unfold _soup_to_text. cbn zeta.
  set (text := get_text _).
  split; [|split; [|split]].
  - apply mem_char_false_all. unfold strip.
    apply all_chars_rstrip, all_chars_lstrip, all_chars_collapse_newlines,
      no_tab_collapse_blanks.
  - apply contains_strip, collapse_newlines_blanks, collapse_blanks_runs.
  - apply contains_strip, collapse_newlines_runs.
  - apply strip_idem.
Qed.

End TextProps.

(** ** The parser generator, further (parser.py) *)

Module SynthExtra.
Import Synth SynthExamples RepairExamples.

Section Generator.
Variable provider_state : Type.
Variable create : Request -> provider_state -> result string * provider_state.
Variable model_validate_json : string -> result ParserParameters.t.
Variable clean_html : option string -> result string.
Variable parse : ParserConfig.t -> option string -> result string.
Variable config : ParserGeneratorConfig.t.

Local Abbreviation attempt_ :=
  (attempt provider_state create model_validate_json clean_html parse config).
Local Abbreviation generate_loop_ :=
  (generate_loop provider_state create model_validate_json clean_html parse config).
Local Abbreviation generate_parser_ :=
  (generate_parser provider_state create model_validate_json clean_html parse config).
Local Abbreviation generate_num_ :=
  (_generate_parser_num_examples provider_state create model_validate_json clean_html config).
Local Abbreviation repair_ :=
  (_generate_parser_with_parsing_mistake provider_state create model_validate_json
                                         clean_html config).
Local Abbreviation reflect_each_ :=
  (reflect_each provider_state create model_validate_json clean_html parse config).
Local Abbreviation reflect_ :=
  (_reflect_on_parser provider_state create model_validate_json clean_html parse config).
Local Abbreviation parses parser :=
  (fun s : SampleURL.t => is_ok (call_parse parse parser (SampleURL.raw_content s)) = true).

(** X20. [_validate_parser] reports the first sample on which parsing
    raises, with the message of that exception: every sample before it
    parses; it returns [None] exactly when every sample parses. *)
Theorem validation_reports_first_failure (parser : parser_obj) (samples : list SampleURL.t) :
  match _validate_parser parse parser samples with
  | Some (sample_url, error_message) =>
      exists before after e,
        samples = before ++ sample_url :: after /\
        Forall (parses parser) before /\
        call_parse parse parser (SampleURL.raw_content sample_url) = Raise e /\
        error_message = exn_str e
  | None => Forall (parses parser) samples
  end.
Proof.
  induction samples as [|s samples IH]; cbn; [constructor|].
  destruct (call_parse parse parser (SampleURL.raw_content s)) as [text|e] eqn:Hs.
  - destruct (_validate_parser parse parser samples) as [[sample_url error_message]|].
    + destruct IH as (before & after & e & -> & Hbefore & He & ->).
      exists (s :: before), after, e. repeat split; try done.
      constructor; [by rewrite Hs|done].
    + constructor; [by rewrite Hs|done].
  - exists [], samples, e. repeat split; try done; constructor.
Qed.

Lemma validate_none (parser : parser_obj) (samples : list SampleURL.t) :
  _validate_parser parse parser samples = None -> Forall (parses parser) samples.
Proof.
  induction samples as [|s samples IH]; cbn; [constructor|].
  destruct (call_parse parse parser (SampleURL.raw_content s)) as [text|e] eqn:Hs;
    [|done].
  intros H. constructor; [by rewrite Hs|by apply IH].
Qed.

Lemma validate_config_fails (c : ParserConfig.t) (samples : list SampleURL.t) :
  samples <> [] -> _validate_parser parse (AConfig c) samples <> None.
Proof. by destruct samples. Qed.

Lemma validate_some_nonempty (parser : parser_obj) (samples : list SampleURL.t) r :
  _validate_parser parse parser samples = Some r -> samples <> [].
Proof. by destruct samples. Qed.

(** X21. When the generated parser fails validation the attempt raises,
    whatever the repair step returns: the exception is the provider's, from
    the repair request, or ["Failed to generate parser with error: ..."]
    with the message of the first validation.  (The repaired value is a
    bare config, which has no [parse]; it never passes validation.) *)
Theorem failed_validation_never_recovers (url_prefix : URLPrefix.t) (k : nat)
        (st st1 : provider_state) (parser : parser_obj)
        (sample_url : SampleURL.t) (error_message : string) :
  generate_num_ url_prefix k st = (Ok parser, st1) ->
  _validate_parser parse parser (URLPrefix.sample_urls url_prefix)
    = Some (sample_url, error_message) ->
  exists e st2,
    attempt_ url_prefix k st = (Raise e, st2) /\
    (e = Exn Exception ("Failed to generate parser with error: " +:+ error_message) \/
     exists error_prompt,
       ParserGeneratorConfig.error_prompt config = Some error_prompt /\
       repair_ error_prompt sample_url (config_of parser) error_message st1
         = (Raise e, st2)).
Proof.
  intros Hgen Hvalid. unfold attempt. rewrite Hgen, Hvalid.
  destruct (ParserGeneratorConfig.error_prompt config) as [error_prompt|];
    [|eexists _, _; split; [reflexivity|by left]].
  destruct (repair_ error_prompt sample_url (config_of parser) error_message st1)
    as [[repaired|e] st2] eqn:Hrepair.
  - pose proof (validate_config_fails repaired _
                  (validate_some_nonempty _ _ _ Hvalid)) as Hfails.
    destruct (_validate_parser parse (AConfig repaired) _); [|done].
    eexists _, _. split; [reflexivity|by left].
  - exists e, st2. split; [done|]. right. by exists error_prompt.
Qed.

(** More fuel does not change the result of the loop. *)
Lemma loop_fuel_mono (url_prefix : URLPrefix.t) (fuel fuel' : nat) :
  fuel <= fuel' ->
  forall n st r,
    generate_loop_ fuel url_prefix n st = Some r ->
    generate_loop_ fuel' url_prefix n st = Some r.
Proof.
  revert fuel'. induction fuel as [|fuel IH]; intros fuel' Hle n st r.
  - destruct n; cbn; [|done]. intros <-. by destruct fuel'.
  - destruct fuel' as [|fuel']; [lia|]. destruct n as [|n]; [done|]. cbn.
    destruct (attempt_ url_prefix (S n) st) as [[[parser|]|e] st']; [done| |].
    + apply IH. lia.
    + destruct (Py.contains (exn_str e) context_overflow); [|done].
      apply IH. lia.
Qed.

Lemma attempt_never_idles (url_prefix : URLPrefix.t) (k : nat) (st st' : provider_state) :
  attempt_ url_prefix k st <> (Ok None, st').
Proof.
  unfold attempt.
  destruct (generate_num_ url_prefix k st) as [[parser|e] st1]; [|done].
  destruct (_validate_parser parse parser _) as [[sample_url error_message]|] eqn:Hvalid;
    [|done].
  destruct (ParserGeneratorConfig.error_prompt config) as [error_prompt|]; [|done].
  destruct (repair_ _ _ _ _ _) as [[repaired|e] st2]; [|done].
  pose proof (validate_config_fails repaired _
                (validate_some_nonempty _ _ _ Hvalid)) as Hfails.
  by destruct (_validate_parser parse (AConfig repaired) _).
Qed.

Lemma loop_ends (url_prefix : URLPrefix.t) (n : nat) (st : provider_state) :
  exists r, generate_loop_ n url_prefix n st = Some r.
Proof.
  revert st. induction n as [|n IH]; intros st; [by eexists|]. cbn.
  pose proof (attempt_never_idles url_prefix (S n) st) as Hidle.
  destruct (attempt_ url_prefix (S n) st) as [[[parser|]|e] st'].
  - by eexists.
  - by destruct (Hidle st').
  - destruct (Py.contains (exn_str e) context_overflow); [|by eexists].
    apply IH.
Qed.

(** X22. The loop of [generate_parser] ends within as many iterations as
    the prefix has samples: with that much fuel it returns or raises, and
    more fuel gives the same result. *)
Theorem generation_ends_within_samples (url_prefix : URLPrefix.t) (fuel : nat)
        (st : provider_state) :
  length (URLPrefix.sample_urls url_prefix) <= fuel ->
  exists r,
    generate_parser_ (length (URLPrefix.sample_urls url_prefix)) url_prefix st = Some r /\
    generate_parser_ fuel url_prefix st = Some r.
Proof.
  intros Hfuel. unfold generate_parser.
  destruct (loop_ends url_prefix (length (URLPrefix.sample_urls url_prefix)) st)
    as [r Hr].
  rewrite Hr, (loop_fuel_mono url_prefix _ fuel Hfuel _ _ _ Hr).
  destruct r as [[[parser|]|e] st']; [|by eexists|by eexists].
  destruct (ParserGeneratorConfig.reflection_prompt config); [|by eexists].
  destruct (_reflect_on_parser _ _ _ _ _ _ _ _ _ _ _) as [[merged|e] st'']; by eexists.
Qed.

Lemma attempt_validated (url_prefix : URLPrefix.t) (k : nat) (st st' : provider_state)
      (parser : parser_obj) :
  attempt_ url_prefix k st = (Ok (Some parser), st') ->
  (exists parameters,
     parser = AParser (ParserConfig.mk parameters (URLPrefix.prefix url_prefix))) /\
  Forall (parses parser) (URLPrefix.sample_urls url_prefix).
Proof.
  unfold attempt, _generate_parser_num_examples.
  destruct (_generate_input_prompt _ _ _ _ _) as [input_prompt|]; [|done].
  destruct (request_parameters _ _ _ _ _) as [[parameters|e] st1]; [|done].
  destruct (_validate_parser parse _ _) as [[sample_url error_message]|] eqn:Hvalid.
  - destruct (ParserGeneratorConfig.error_prompt config) as [error_prompt|]; [|done].
    destruct (_generate_parser_with_parsing_mistake _ _ _ _ _ _ _ _ _ _)
      as [[repaired|e] st2]; [|done].
    by destruct (_validate_parser parse (AConfig repaired) _).
  - intros [= <- <-]. split; [by eexists|by apply validate_none].
Qed.

Lemma loop_validated (url_prefix : URLPrefix.t) (fuel n : nat) (st st' : provider_state)
      (parser : parser_obj) :
  generate_loop_ fuel url_prefix n st = Some (Ok (Succeeded parser), st') ->
  (exists parameters,
     parser = AParser (ParserConfig.mk parameters (URLPrefix.prefix url_prefix))) /\
  Forall (parses parser) (URLPrefix.sample_urls url_prefix).
Proof.
  revert n st. induction fuel as [|fuel IH]; intros [|n] st; cbn; try done.
  destruct (attempt_ url_prefix (S n) st) as [[[p|]|e] st1] eqn:Hattempt.
  - intros [= <- <-]. by apply (attempt_validated _ _ _ _ _ Hattempt).
  - apply IH.
  - destruct (Py.contains (exn_str e) context_overflow); [apply IH|done].
Qed.

(** X23. Without a reflection prompt, a parser that [generate_parser]
    returns carries the prefix of the URL prefix and has parsed every sample
    without an exception; there is at least one sample. *)
Theorem returned_parser_is_validated (url_prefix : URLPrefix.t) (fuel : nat)
        (st st' : provider_state) (parser : parser_obj) :
  ParserGeneratorConfig.reflection_prompt config = None ->
  generate_parser_ fuel url_prefix st = Some (Ok parser, st') ->
  exists parameters,
    parser = AParser (ParserConfig.mk parameters (URLPrefix.prefix url_prefix)) /\
    URLPrefix.sample_urls url_prefix <> [] /\
    Forall (fun s => is_ok (parse (ParserConfig.mk parameters (URLPrefix.prefix url_prefix))
                                  (SampleURL.raw_content s)) = true)
           (URLPrefix.sample_urls url_prefix).
Proof.
  intros Hnone. unfold generate_parser. rewrite Hnone.
  destruct (generate_loop_ fuel url_prefix _ st) as [[[[p|]|e] st1]|] eqn:Hloop;
    try done.
  intros [= <- <-].
  destruct (loop_validated _ _ _ _ _ _ Hloop) as [[parameters ->] Hall].
  exists parameters. split; [done|]. split; [|done].
  intros Hempty. rewrite Hempty in Hloop. by destruct fuel.
Qed.

Lemma elem_of_union_list (sel : string) (xs ys : list string) :
  sel ∈ ParserParameters.union_list xs ys <-> sel ∈ xs \/ sel ∈ ys.
Proof.
  unfold ParserParameters.union_list.
  by rewrite elem_of_elements, elem_of_union, !elem_of_list_to_set.
Qed.

(** A field of a merge holds what the fields of the merged configs hold. *)
Lemma merged_field (f : ParserParameters.t -> list string) :
  (forall a b sel, sel ∈ f (ParserParameters.add a b) <-> sel ∈ f a \/ sel ∈ f b) ->
  forall rest c sel,
    sel ∈ f (ParserConfig.parameters (foldl ParserConfig.add c rest)) <->
    exists a, a ∈ c :: rest /\ sel ∈ f (ParserConfig.parameters a).
Proof.
  intros Hadd. induction rest as [|d rest IH]; intros c sel; cbn [foldl].
  - split.
    + intros H. exists c. split; [apply list_elem_of_here|done].
    + intros (a & Ha & H). apply list_elem_of_singleton in Ha. by subst.
  - rewrite IH. split.
    + intros (a & Ha & H). apply elem_of_cons in Ha as [Ha|Ha].
      * subst a. cbn in H. apply Hadd in H as [H|H].
        -- exists c. split; [apply list_elem_of_here|done].
        -- exists d. split; [apply list_elem_of_further, list_elem_of_here|done].
      * exists a. split; [by do 2 apply list_elem_of_further|done].
    + intros (a & Ha & H). apply elem_of_cons in Ha as [Ha|Ha];
        [|apply elem_of_cons in Ha as [Ha|Ha]].
      * subst a. exists (ParserConfig.add c d). split; [apply list_elem_of_here|].
        cbn. apply Hadd. by left.
      * subst a. exists (ParserConfig.add c d). split; [apply list_elem_of_here|].
        cbn. apply Hadd. by right.
      * exists a. split; [by apply list_elem_of_further|done].
Qed.

Lemma merged_prefix_name (rest : list ParserConfig.t) (c : ParserConfig.t) :
  ParserConfig.prefix_name (foldl ParserConfig.add c rest) = ParserConfig.prefix_name c.
Proof. revert c. induction rest as [|d rest IH]; intros c; [done|]. cbn. by rewrite IH. Qed.

Lemma reflect_each_answers (reflection_prompt : string) (parser : parser_obj)
      (samples : list SampleURL.t) (prefix_name : string) (st st' : provider_state)
      (answers : list ParserConfig.t) :
  reflect_each_ reflection_prompt parser samples prefix_name st = (Ok answers, st') ->
  length answers = length samples /\
  Forall (fun a => ParserConfig.prefix_name a = prefix_name) answers.
Proof.
  revert st answers. induction samples as [|s samples IH]; intros st answers; cbn.
  - intros [= <- <-]. by split.
  - destruct (call_parse parse parser _) as [parsed_content|]; [|done].
    destruct (_generate_input_prompt _ _ _ _ _) as [input_prompt|]; [|done].
    destruct (request_parameters _ _ _ _ _) as [[parameters|] st1]; [|done].
    destruct (reflect_each_ _ _ samples _ st1) as [[more|] st2] eqn:Hmore; [|done].
    intros [= <- <-]. destruct (IH _ _ Hmore) as [Hlen Hall]. split.
    + cbn. by rewrite Hlen.
    + by constructor.
Qed.

(** X24. When [_reflect_on_parser] returns, the provider answered once per
    sample, there is at least one sample, and the config returned has the
    given prefix name and, in each of root, keep, drop and unwrap, exactly
    the selectors of the answers. *)
Theorem reflection_merges_every_answer (reflection_prompt : string) (parser : parser_obj)
        (samples : list SampleURL.t) (prefix_name : string) (st st' : provider_state)
        (merged : ParserConfig.t) :
  reflect_ reflection_prompt parser samples prefix_name st = (Ok merged, st') ->
  exists answers,
    reflect_each_ reflection_prompt parser samples prefix_name st = (Ok answers, st') /\
    length answers = length samples /\
    samples <> [] /\
    ParserConfig.prefix_name merged = prefix_name /\
    forall sel,
      (sel ∈ ParserParameters.root (ParserConfig.parameters merged) <->
       exists a, a ∈ answers /\ sel ∈ ParserParameters.root (ParserConfig.parameters a)) /\
      (sel ∈ ParserParameters.keep (ParserConfig.parameters merged) <->
       exists a, a ∈ answers /\ sel ∈ ParserParameters.keep (ParserConfig.parameters a)) /\
      (sel ∈ ParserParameters.drop (ParserConfig.parameters merged) <->
       exists a, a ∈ answers /\ sel ∈ ParserParameters.drop (ParserConfig.parameters a)) /\
      (sel ∈ ParserParameters.unwrap (ParserConfig.parameters merged) <->
       exists a, a ∈ answers /\ sel ∈ ParserParameters.unwrap (ParserConfig.parameters a)).
Proof.
  unfold _reflect_on_parser.
  destruct (reflect_each_ _ _ _ _ _) as [[answers|] st1] eqn:Heach; [|done].
  destruct (reflect_each_answers _ _ _ _ _ _ _ Heach) as [Hlen Hnames].
  destruct answers as [|c rest]; [done|]. cbn. intros [= <- <-].
  exists (c :: rest). split; [done|]. split; [done|]. split; [by destruct samples|].
  split.
  - rewrite merged_prefix_name. by inversion Hnames.
  - intros sel. repeat split;
      apply (merged_field _ (fun a b sel => elem_of_union_list sel _ _)).
Qed.

End Generator.

(** *** Concrete runs *)

Lemma failed_validation_never_recovers_witness :
  exists e st2,
    attempt (list nat) steady_provider validate_json cleaned_page broken_engine
            repair_config two_samples 2 [] = (Raise e, st2) /\
    (e = Exn Exception ("Failed to generate parser with error: " +:+ "Malformed selector") \/
     exists error_prompt,
       ParserGeneratorConfig.error_prompt repair_config = Some error_prompt /\
       _generate_parser_with_parsing_mistake (list nat) steady_provider validate_json
         cleaned_page repair_config error_prompt
         (SampleURL.mk "https://example.com/blog/one" (Some (page "one")) None)
         (ParserConfig.mk answer "https://example.com/blog") "Malformed selector" [1]
       = (Raise e, st2)).
Proof.
  apply (failed_validation_never_recovers (list nat) steady_provider
           validate_json cleaned_page broken_engine repair_config two_samples 2 [] [1]
           (AParser (ParserConfig.mk answer "https://example.com/blog"))).
  - vm_compute. reflexivity.
  - vm_compute. reflexivity.
Defined.

Lemma generation_ends_within_samples_witness :
  exists r,
    generate_parser (list nat) small_provider validate_json cleaned_page engine
                    generator_config 5 blog_prefix [] = Some r /\
    generate_parser (list nat) small_provider validate_json cleaned_page engine
                    generator_config 7 blog_prefix [] = Some r.
Proof.
  apply (generation_ends_within_samples (list nat) small_provider validate_json
           cleaned_page engine generator_config blog_prefix 7 []).
  apply Nat.leb_le. vm_compute. reflexivity.
Defined.

Lemma returned_parser_is_validated_witness :
  exists parameters,
    AParser (ParserConfig.mk answer "https://example.com/blog")
    = AParser (ParserConfig.mk parameters (URLPrefix.prefix blog_prefix)) /\
    URLPrefix.sample_urls blog_prefix <> [] /\
    Forall (fun s => is_ok (engine (ParserConfig.mk parameters (URLPrefix.prefix blog_prefix))
                                   (SampleURL.raw_content s)) = true)
           (URLPrefix.sample_urls blog_prefix).
Proof.
  apply (returned_parser_is_validated (list nat) small_provider validate_json
           cleaned_page engine generator_config blog_prefix 5 [] [5; 4; 3; 2]).
  - reflexivity.
  - vm_compute. reflexivity.
Defined.

Lemma reflection_merges_every_answer_witness :
  exists answers,
    reflect_each (list nat) steady_provider validate_json cleaned_page engine repair_config
                 "Reflect." (AParser (ParserConfig.mk answer "https://example.com/blog"))
                 (firstn 2 samples) "https://example.com/blog" []
    = (Ok answers, [1; 1]) /\
    length answers = 2.
Proof.
  destruct (reflection_merges_every_answer (list nat) steady_provider
              validate_json cleaned_page engine repair_config "Reflect."
              (AParser (ParserConfig.mk answer "https://example.com/blog"))
              (firstn 2 samples) "https://example.com/blog" [] [1; 1]
              (ParserConfig.mk (ParserParameters.add answer answer)
                               "https://example.com/blog"))
    as (answers & Heach & Hlen & _).
  - vm_compute. reflexivity.
  - exists answers. split; [exact Heach|exact Hlen].
Defined.

End SynthExtra.

(** ** The generation worker, further (parser_generation_worker.py) *)

Module GenWorkerExtra.
Import GenWorker GenWorkerExamples JobExamples.

Section Worker.
Variable from_config : string -> result ParserGeneratorConfig.t.
Variable generate_parser : ParserGeneratorConfig.t -> URLPrefix.t -> result ParserConfig.t.

Local Abbreviation job := (process_url_prefix_job from_config generate_parser).

Lemma stored_after_save (p : URLPrefix.t) (w : World) :
  Db.load_prefix (URLPrefix.prefix p) (redis (save p w)) = Some p.
Proof. unfold Db.load_prefix, save. cbn. apply lookup_insert_eq. Qed.

(** What [begin_job] returns. *)
Lemma begin_job_cases (url_prefix : URLPrefix.t) (w : World) :
  match begin_job url_prefix w with
  | (None, w') =>
      w' = w /\
      exists existing,
        Db.load_prefix (URLPrefix.prefix url_prefix) (redis w) = Some existing /\
        URLPrefix.processing_status existing = Some "in_progress"
  | (Some started, w') =>
      Db.strings (redis w') = Db.strings (redis w) /\
      exists chosen,
        started = URLPrefix.set_processing_status (Some "in_progress") chosen /\
        match Db.load_prefix (URLPrefix.prefix url_prefix) (redis w) with
        | Some existing =>
            if bool_decide (URLPrefix.processing_status existing = Some "failed")
            then chosen = URLPrefix.set_processing_status None existing
            else chosen = url_prefix
        | None => chosen = url_prefix
        end
  end.
Proof.
  unfold begin_job.
  destruct (Db.load_prefix _ _) as [existing|]; [|by split; [|exists url_prefix]].
  destruct (bool_decide (_ = Some "in_progress")) eqn:Hp.
  - apply bool_decide_eq_true in Hp. split; [done|]. by exists existing.
  - destruct (bool_decide (_ = Some "failed")); cbn.
    + split; [done|]. by eexists.
    + split; [done|]. by eexists.
Qed.

(** X25. A job never leaves the prefix in progress: it is skipped, with
    nothing changed, exactly when the stored prefix is ["in_progress"]
    already; else it ends as ["success"], with the prefix stored as
    ["completed"] together with the generated config, or as ["error"],
    with the prefix stored as ["failed"]. *)
Theorem job_never_leaves_in_progress (url_prefix : URLPrefix.t) (w : World) :
  match job url_prefix w with
  | (Skipped _ _, w') =>
      w' = w /\
      exists existing,
        Db.load_prefix (URLPrefix.prefix url_prefix) (redis w) = Some existing /\
        URLPrefix.processing_status existing = Some "in_progress"
  | (Success url_prefix_id parser_config, w') =>
      exists final generated,
        Db.load_prefix url_prefix_id (redis w') = Some final /\
        URLPrefix.processing_status final = Some "completed" /\
        URLPrefix.parser_config final = Some generated /\
        parser_config = Some generated
  | (Error url_prefix_id _, w') =>
      exists final,
        Db.load_prefix url_prefix_id (redis w') = Some final /\
        URLPrefix.processing_status final = Some "failed"
  end.
Proof.
  unfold process_url_prefix_job.
  pose proof (begin_job_cases url_prefix w) as Hbegin.
  destruct (begin_job url_prefix w) as [[started|] w1]; [|done].
  unfold generate_parser_for_url_prefix.
  destruct (get_production_generator_config from_config _) as [generator_config|e].
  - destruct (generate_parser generator_config started) as [generated|e].
    + exists (URLPrefix.set_processing_status (Some "completed")
                (URLPrefix.set_parser_config (Some generated) started)), generated.
      split; [exact (stored_after_save _ _)|done].
    + exists (URLPrefix.set_processing_status (Some "failed") started).
      split; [exact (stored_after_save _ _)|done].
  - exists (URLPrefix.set_processing_status (Some "failed") started).
    split; [exact (stored_after_save _ _)|done].
Qed.

(** X26. When no production config is set no job succeeds, whatever the
    generator would return: a job that is not skipped ends as ["error"]
    with the message ["No production config set"], and its last save
    stores the prefix as ["failed"]. *)
Theorem missing_production_config_fails (url_prefix : URLPrefix.t) (w : World) :
  Db.get_production_config (redis w) = None ->
  match job url_prefix w with
  | (Skipped _ _, w') => w' = w
  | (Error _ error, w') =>
      error = "No production config set" /\
      exists final,
        Db.load_prefix (URLPrefix.prefix final) (redis w') = Some final /\
        URLPrefix.processing_status final = Some "failed" /\
        last (trace w') = Some (Saved final)
  | (Success _ _, _) => False
  end.
Proof.
  intros Hnone. unfold process_url_prefix_job.
  pose proof (begin_job_cases url_prefix w) as Hbegin.
  destruct (begin_job url_prefix w) as [[started|] w1]; [|by destruct Hbegin].
  destruct Hbegin as [Hstrings _].
  unfold generate_parser_for_url_prefix, get_production_generator_config.
  cbn [redis]. unfold Db.get_production_config in *. rewrite Hstrings, Hnone.
  split; [done|]. exists (URLPrefix.set_processing_status (Some "failed") started).
  split; [exact (stored_after_save _ _)|]. split; [done|]. cbn. apply last_snoc.
Qed.

(** X27. Unless the stored prefix is ["failed"] or ["in_progress"], the
    job goes on with the copy that was queued and stores it over the
    stored one: the samples and validation URLs stored afterwards are the
    queued copy's, and so is the parser config when generation fails. *)
Theorem job_stores_queued_copy (url_prefix existing : URLPrefix.t) (w : World) :
  Db.load_prefix (URLPrefix.prefix url_prefix) (redis w) = Some existing ->
  URLPrefix.processing_status existing <> Some "in_progress" ->
  URLPrefix.processing_status existing <> Some "failed" ->
  exists final,
    Db.load_prefix (URLPrefix.prefix url_prefix) (redis (snd (job url_prefix w)))
      = Some final /\
    URLPrefix.sample_urls final = URLPrefix.sample_urls url_prefix /\
    URLPrefix.validation_urls final = URLPrefix.validation_urls url_prefix /\
    (status (fst (job url_prefix w)) = "error" ->
     URLPrefix.parser_config final = URLPrefix.parser_config url_prefix).
Proof.
  intros Hload Hprogress Hfailed. unfold process_url_prefix_job, begin_job.
  rewrite Hload.
  rewrite bool_decide_eq_false_2 by done. rewrite bool_decide_eq_false_2 by done.
  unfold generate_parser_for_url_prefix.
  set (started := URLPrefix.set_processing_status (Some "in_progress") url_prefix).
  destruct (get_production_generator_config from_config _) as [generator_config|e].
  - destruct (generate_parser generator_config started) as [generated|e].
    + exists (URLPrefix.set_processing_status (Some "completed")
                (URLPrefix.set_parser_config (Some generated) started)).
      split; [exact (stored_after_save _ _)|done].
    + exists (URLPrefix.set_processing_status (Some "failed") started).
      split; [exact (stored_after_save _ _)|done].
  - exists (URLPrefix.set_processing_status (Some "failed") started).
    split; [exact (stored_after_save _ _)|done].
Qed.

End Worker.

(** *** Concrete runs *)

Lemma missing_production_config_fails_witness :
  match process_url_prefix_job default_config (fun _ _ => Ok generated) queued_copy
                               (mkWorld unconfigured []) with
  | (Skipped _ _, w') => w' = mkWorld unconfigured []
  | (Error _ error, w') =>
      error = "No production config set" /\
      exists final,
        Db.load_prefix (URLPrefix.prefix final) (redis w') = Some final /\
        URLPrefix.processing_status final = Some "failed" /\
        last (trace w') = Some (Saved final)
  | (Success _ _, _) => False
  end.
Proof.
  apply (missing_production_config_fails default_config
           (fun _ _ => Ok generated) queued_copy (mkWorld unconfigured [])).
  vm_compute. reflexivity.
Defined.

Lemma job_stores_queued_copy_witness :
  exists final,
    Db.load_prefix blog
      (redis (snd (process_url_prefix_job default_config (fun _ _ => Ok generated)
                     queued_copy (mkWorld completed_store [])))) = Some final /\
    URLPrefix.sample_urls final = URLPrefix.sample_urls queued_copy /\
    length (URLPrefix.sample_urls final) = 1 /\
    length (URLPrefix.sample_urls stored_prefix) = 2.
Proof.
  destruct (job_stores_queued_copy default_config (fun _ _ => Ok generated)
              queued_copy stored_prefix (mkWorld completed_store []))
    as (final & Hload & Hsamples & _).
  - vm_compute. reflexivity.
  - vm_compute. discriminate.
  - vm_compute. discriminate.
  - exists final. split; [exact Hload|]. split; [exact Hsamples|].
    rewrite Hsamples. split; reflexivity.
Defined.

End GenWorkerExtra.

(** ** The routes (api.py) *)

Module ApiProps.
Import Db Api StoreSpec StoreProps ApiExamples.

(** What a round of deletions leaves. *)
Lemma delete_urls_spec (ids : list string) (n : nat) (R : Redis) :
  urls (snd (delete_urls ids n R)) = foldl (fun m k => base.delete k m) (urls R) ids /\
  prefixes (snd (delete_urls ids n R)) = prefixes R /\
  strings (snd (delete_urls ids n R)) = strings R /\
  queue_urlqueueitem (snd (delete_urls ids n R)) = queue_urlqueueitem R /\
  queue_urlprefix (snd (delete_urls ids n R)) = queue_urlprefix R /\
  count_urls (snd (delete_urls ids n R)) + fst (delete_urls ids n R) = count_urls R + n.
Proof.
  revert n R. induction ids as [|id_ ids IH]; intros n R; [done|].
  cbn [delete_urls foldl].
  pose proof (delete_url_count id_ R) as Hcount.
  unfold delete_url in *. destruct (urls R !! id_) as [u|] eqn:Hu.
  - destruct (IH (S n) (with_urls (base.delete id_ (urls R)) R))
      as (-> & -> & -> & -> & -> & Hc).
    repeat split. cbn [fst snd] in Hcount. lia.
  - destruct (IH n R) as (-> & -> & -> & -> & -> & Hc).
    repeat split; [|done]. by rewrite delete_id.
Qed.

(** X28. [DELETE /urlprefix/{prefix_id}] on a store that holds every model
    under its id: it answers 404 and changes nothing when the decoded
    prefix is not stored; else it answers with the decoded prefix, and
    afterwards the prefix is not stored, no stored URL has it as its
    prefix, none of its sample URLs is stored, [count(URL)] has gone down
    by the number of deleted URLs it reports, and every other prefix is
    stored as before.  It never answers 500. *)
Theorem delete_urlprefix_removes_all (prefix_id : string) (R : Redis) :
  keyed R ->
  match delete_urlprefix prefix_id R with
  | (Body body, R') =>
      Api.prefix body = Urllib.unquote prefix_id /\
      is_Some (load_prefix (Urllib.unquote prefix_id) R) /\
      load_prefix (Urllib.unquote prefix_id) R' = None /\
      find_urls_with_prefix (Urllib.unquote prefix_id) R' = [] /\
      (forall p sample,
         load_prefix (Urllib.unquote prefix_id) R = Some p ->
         sample ∈ URLPrefix.sample_urls p ->
         load_url (SampleURL.url sample) R' = None) /\
      count_urls R' + deleted_urls_count body = count_urls R /\
      (forall other, other <> Urllib.unquote prefix_id ->
         load_prefix other R' = load_prefix other R) /\
      keyed R'
  | (HTTPException status_code _, R') =>
      status_code = 404 /\ load_prefix (Urllib.unquote prefix_id) R = None /\ R' = R
  end.
Proof.
  intros [Hkeyed_urls Hkeyed_prefixes]. unfold delete_urlprefix.
  set (decoded := Urllib.unquote prefix_id).
  destruct (load_prefix decoded R) as [urlprefix|] eqn:Hload; [|done].
  set (ids1 := SampleURL.url <$> URLPrefix.sample_urls urlprefix).
  pose proof (delete_urls_spec ids1 0 R) as (Hu1 & Hp1 & _ & _ & _ & Hc1).
  destruct (delete_urls ids1 0 R) as [n1 R1]. cbn [fst snd] in *.
  set (ids2 := match URLPrefix.validation_urls urlprefix with
               | Some ((_ :: _) as validation_urls) => SampleURL.url <$> validation_urls
               | _ => []
               end).
  assert (Hround : match URLPrefix.validation_urls urlprefix with
                   | Some ((_ :: _) as validation_urls) =>
                       delete_urls (SampleURL.url <$> validation_urls) n1 R1
                   | _ => (n1, R1)
                   end = delete_urls ids2 n1 R1).
  { subst ids2. by destruct (URLPrefix.validation_urls urlprefix) as [[|? ?]|]. }
  rewrite Hround. clear Hround.
  pose proof (delete_urls_spec ids2 n1 R1) as (Hu2 & Hp2 & _ & _ & _ & Hc2).
  destruct (delete_urls ids2 n1 R1) as [n2 R2]. cbn [fst snd] in *.
  set (ids3 := URL.url <$> find_urls_with_prefix decoded R2).
  pose proof (delete_urls_spec ids3 n2 R2) as (Hu3 & Hp3 & _ & _ & _ & Hc3).
  destruct (delete_urls ids3 n2 R2) as [n3 R3]. cbn [fst snd] in *.
  assert (Hstored : prefixes R3 !! decoded = Some urlprefix) by (by rewrite Hp3, Hp2, Hp1).
  unfold delete_prefix. rewrite Hstored.
  assert (Hsub3 : forall k u, urls R3 !! k = Some u -> (k ∉ ids3) /\ urls R2 !! k = Some u).
  { intros k u. rewrite Hu3, lookup_delete_list.
    destruct (bool_decide (k ∈ ids3)) eqn:Hin; [done|].
    by apply bool_decide_eq_false in Hin. }
  assert (Hsub2 : forall k u, urls R2 !! k = Some u -> urls R1 !! k = Some u).
  { intros k u. rewrite Hu2, lookup_delete_list. by destruct (bool_decide _). }
  assert (Hsub1 : forall k u, urls R1 !! k = Some u -> (k ∉ ids1) /\ urls R !! k = Some u).
  { intros k u. rewrite Hu1, lookup_delete_list.
    destruct (bool_decide (k ∈ ids1)) eqn:Hin; [done|].
    by apply bool_decide_eq_false in Hin. }
  split; [done|]. split; [by eexists|]. split; [|split; [|split; [|split; [|split]]]].
  - unfold load_prefix, with_prefixes. cbn. apply lookup_delete_eq.
  - apply no_urls_with_prefix. unfold with_prefixes. cbn [urls].
    intros k u Hk Hprefix. destruct (Hsub3 k u Hk) as [Hnot Hk2]. apply Hnot.
    assert (Hid : URL.url u = k).
    { apply Hkeyed_urls. by apply Hsub1, Hsub2. }
    rewrite <- Hid. subst ids3. apply list_elem_of_fmap. exists u. split; [done|].
    apply elem_of_find_urls. split; [done|]. by exists k.
  - intros p sample [= <-] Hsample. unfold load_url, with_prefixes. cbn [urls].
    destruct (urls R3 !! SampleURL.url sample) as [u|] eqn:Hk; [|done].
    destruct (Hsub3 _ _ Hk) as [_ Hk2]. destruct (Hsub1 _ _ (Hsub2 _ _ Hk2)) as [Hnot _].
    destruct Hnot. subst ids1. apply list_elem_of_fmap. by exists sample.
  - unfold count_urls, keys_urls, with_prefixes in *. cbn [urls deleted_urls_count]. lia.
  - intros other Hother. unfold load_prefix, with_prefixes. cbn [prefixes].
    rewrite lookup_delete_ne by done. by rewrite Hp3, Hp2, Hp1.
  - split; unfold with_prefixes; cbn [urls prefixes].
    + intros k u Hk. apply Hkeyed_urls. by apply Hsub1, Hsub2, Hsub3.
    + intros k p [_ Hk]%lookup_delete_Some. apply Hkeyed_prefixes.
      by rewrite <- Hp1, <- Hp2, <- Hp3.
Qed.

(** X29. [PUT /system/state] answers 400 and changes nothing for any state
    but ["PAUSE"] and ["RUNNING"]; for these two it stores the state and
    reports [is_running] accordingly, and when it reports that the system
    is not running, a turn of either worker's loop does nothing. *)
Theorem state_route_controls_the_workers (state : string) (R : Redis) :
  match set_system_state_route state R with
  | (Body body, R') =>
      state ∈ ["PAUSE"; "RUNNING"] /\
      Api.state body = state /\
      get_system_state R' = state /\
      is_running body = bool_decide (state = "RUNNING") /\
      (is_running body = false ->
       (forall time load_raw_html parse anchor_hrefs urljoin readings,
          Frontier.step time load_raw_html parse anchor_hrefs urljoin
                        (Frontier.mkWorld R' readings)
          = (None, Frontier.mkWorld R' readings)) /\
       (forall from_config generate_parser trace,
          GenWorker.step from_config generate_parser (GenWorker.mkWorld R' trace)
          = (None, GenWorker.mkWorld R' trace)))
  | (HTTPException status_code _, R') =>
      (state ∉ ["PAUSE"; "RUNNING"]) /\ status_code = 400 /\ R' = R
  end.
Proof.
  unfold set_system_state_route, set_system_state.
  destruct (bool_decide (state ∈ ["PAUSE"; "RUNNING"])) eqn:Hstate.
  - apply bool_decide_eq_true in Hstate. split; [done|]. split; [done|].
    assert (Hget : get_system_state (set_string SYSTEM_STATE_KEY state R) = state).
    { unfold get_system_state, set_string. cbn [strings]. rewrite lookup_insert_eq.
      apply elem_of_cons in Hstate as [->|Hstate]; [done|].
      by apply list_elem_of_singleton in Hstate as ->. }
    split; [done|]. cbn [is_running]. unfold is_system_running. rewrite Hget.
    split; [done|]. intros Hpaused. split.
    + intros. unfold Frontier.step. cbn [Frontier.redis].
      unfold is_system_running. by rewrite Hget, Hpaused.
    + intros. unfold GenWorker.step. cbn [GenWorker.redis].
      unfold is_system_running. by rewrite Hget, Hpaused.
  - apply bool_decide_eq_false in Hstate. by cbn.
Qed.

Lemma delete_urlprefix_removes_all_witness :
  match delete_urlprefix "https%3A//example.com/blog" small_store with
  | (Body body, R') =>
      Api.prefix body = Urllib.unquote "https%3A//example.com/blog" /\
      is_Some (load_prefix (Urllib.unquote "https%3A//example.com/blog") small_store) /\
      load_prefix (Urllib.unquote "https%3A//example.com/blog") R' = None /\
      find_urls_with_prefix (Urllib.unquote "https%3A//example.com/blog") R' = [] /\
      (forall p sample,
         load_prefix (Urllib.unquote "https%3A//example.com/blog") small_store = Some p ->
         sample ∈ URLPrefix.sample_urls p ->
         load_url (SampleURL.url sample) R' = None) /\
      count_urls R' + deleted_urls_count body = count_urls small_store /\
      (forall other, other <> Urllib.unquote "https%3A//example.com/blog" ->
         load_prefix other R' = load_prefix other small_store) /\
      keyed R'
  | (HTTPException status_code _, R') =>
      status_code = 404 /\
      load_prefix (Urllib.unquote "https%3A//example.com/blog") small_store = None /\
      R' = small_store
  end.
Proof.
  apply (delete_urlprefix_removes_all "https%3A//example.com/blog" small_store).
  unfold small_store.
  repeat apply keyed_save_url.
  apply keyed_save_prefix, keyed_empty.
Defined.

End ApiProps.

(** ** The listing of a prefix (data_models.py) *)

Module ListingProps.
Import URLPrefixWithUrls ListingSpec.

Lemma str_leb_total (x y : string) : str_leb x y = false -> str_leb y x = true.
Proof.
  unfold str_leb. rewrite (String.compare_antisym x y).
  by destruct (String.compare y x).
Qed.

Lemma insert_str_ordered (x : string) (l : list string) :
  ordered l = true -> ordered (insert_str x l) = true.
Proof.
  induction l as [|y l IH]; [done|]. intros Hl. cbn [insert_str].
  destruct (str_leb x y) eqn:Hxy.
  - change (str_leb x y && ordered (y :: l) = true). by rewrite Hxy, Hl.
  - apply str_leb_total in Hxy. destruct l as [|z l].
    + cbn. by rewrite Hxy.
    + cbn [ordered] in Hl. apply andb_true_iff in Hl as [Hyz Hl].
      specialize (IH Hl). cbn [insert_str] in *.
      destruct (str_leb x z); cbn [ordered] in *; rewrite ?Hxy, ?Hyz; cbn [andb]; done.
Qed.

Lemma sorted_ordered (l : list string) : ordered (sorted l) = true.
Proof. induction l as [|x l IH]; [done|]. by apply insert_str_ordered. Qed.

Lemma insert_str_perm (x : string) (l : list string) : insert_str x l ≡ₚ x :: l.
Proof.
  induction l as [|y l IH]; [done|]. cbn [insert_str].
  destruct (str_leb x y); [done|]. by rewrite IH, Permutation_swap.
Qed.

Lemma sorted_perm (l : list string) : sorted l ≡ₚ l.
Proof.
  induction l as [|x l IH]; [done|]. cbn. by rewrite insert_str_perm, IH.
Qed.

Lemma ordered_increasing (l : list string) :
  ordered l = true -> NoDup l -> increasing l.
Proof.
  induction l as [|x l IH]; [done|]. destruct l as [|y l]; [done|].
  cbn [ordered]. intros [Hxy Hl]%andb_true_iff Hnd.
  apply NoDup_cons in Hnd as [Hx Hnd]. split; [|by apply IH].
  unfold str_leb in Hxy. destruct (String.compare x y) eqn:Hc; [|done|done].
  apply String.compare_eq_iff in Hc as ->. destruct Hx. apply list_elem_of_here.
Qed.

(** X30. [URLPrefixWithUrls.from_url_prefix] lists each URL of the prefix
    once, in increasing order: a URL is listed exactly when it is the URL
    of a sample, of a validation URL, or of a stored URL whose prefix is
    this one, and [url_count] is the length of the list. *)
Theorem listing_holds_each_url_once (url_prefix : URLPrefix.t) (R : Db.Redis) :
  increasing (all_urls (from_url_prefix url_prefix R)) /\
  url_count (from_url_prefix url_prefix R)
    = length (all_urls (from_url_prefix url_prefix R)) /\
  forall url,
    url ∈ all_urls (from_url_prefix url_prefix R) <->
    (exists sample, sample ∈ URLPrefix.sample_urls url_prefix /\ SampleURL.url sample = url) \/
    (exists validation_urls sample,
       URLPrefix.validation_urls url_prefix = Some validation_urls /\
       sample ∈ validation_urls /\ SampleURL.url sample = url) \/
    (exists url_obj,
       url_obj ∈ Db.find_urls_with_prefix (URLPrefix.prefix url_prefix) R /\
       URL.url url_obj = url).
Proof.
  unfold from_url_prefix. cbn [all_urls url_count].
  set (collected := _ ++ (URL.url <$> _)).
  split; [|split; [done|]].
  - apply ordered_increasing; [apply sorted_ordered|].
    rewrite sorted_perm. apply NoDup_elements.
  - intros url. rewrite sorted_perm, elem_of_elements, elem_of_list_to_set.
    subst collected. rewrite elem_of_app, list_elem_of_fmap.
    assert (Hfirst :
      url ∈ match URLPrefix.validation_urls url_prefix with
            | Some ((_ :: _) as validation_urls) =>
                (SampleURL.url <$> URLPrefix.sample_urls url_prefix)
                  ++ (SampleURL.url <$> validation_urls)
            | _ => SampleURL.url <$> URLPrefix.sample_urls url_prefix
            end <->
      (exists sample, sample ∈ URLPrefix.sample_urls url_prefix /\ SampleURL.url sample = url) \/
      (exists validation_urls sample,
         URLPrefix.validation_urls url_prefix = Some validation_urls /\
         sample ∈ validation_urls /\ SampleURL.url sample = url)).
    { destruct (URLPrefix.validation_urls url_prefix) as [[|v vs]|];
        rewrite ?elem_of_app, !list_elem_of_fmap.
      - split; [intros (s & -> & Hs); left; by exists s|].
        intros [(s & Hs & <-)|(vs & s & [= <-] & Hs & _)]; [by exists s|].
        by apply elem_of_nil in Hs.
      - split.
        + intros [(s & -> & Hs)|(s & -> & Hs)]; [left; by exists s|].
          right. exists (v :: vs), s. repeat split; done.
        + intros [(s & Hs & <-)|(vs' & s & [= <-] & Hs & <-)]; [left|right]; by exists s.
      - split; [intros (s & -> & Hs); left; by exists s|].
        intros [(s & Hs & <-)|(vs & s & Hvs & _)]; [by exists s|done]. }
    rewrite Hfirst. split.
    + intros [[H|H]|(u & -> & Hu)]; [by left|by right; left|].
      right. right. by exists u.
    + intros [H|[H|(u & Hu & <-)]]; [left; by left|left; by right|].
      right. by exists u.
Qed.

End ListingProps.
